(** * dirtydish: the inspection scraper's classification, scoring,
      categorisation, extraction filter, crawl loop and merge engine

    A shallow embedding of [scrape-v17.2-FINAL.mjs].  JavaScript strings are
    sequences of UTF-16 code units; objects that the code mutates in place
    live in an explicit store; the browser and the engine's locale tables are
    an interface ([Host]) whose functions the code calls. *)

From Stdlib Require Import ZArith NArith List Bool String Ascii Lia.
From stdpp Require Import base option list gmap.
Import ListNotations.

Local Open Scope Z_scope.

(** ** JavaScript strings *)

(** A string is its sequence of UTF-16 code units. *)
Abbreviation jsstring := (list N).

(** A literal of Basic Latin characters. *)
Definition js (s : string) : jsstring :=
  List.map N_of_ascii (list_ascii_of_string s).
Arguments js s%_string.

(** [s.startsWith(p)] *)
Fixpoint startsWith (s p : jsstring) : bool :=
  match p, s with
  | [], _ => true
  | _ :: _, [] => false
  | b :: p', a :: s' => (a =? b)%N && startsWith s' p'
  end.

(** [s.includes(p)] *)
Fixpoint includes (s p : jsstring) : bool :=
  startsWith s p ||
  match s with
  | [] => false
  | _ :: s' => includes s' p
  end.

(** The code units [trim] strips: ECMAScript's WhiteSpace and LineTerminator. *)
Definition isWhiteSpace (c : N) : bool :=
  ((9 <=? c) && (c <=? 13) || (c =? 32) || (c =? 160) || (c =? 5760)
   || (8192 <=? c) && (c <=? 8202) || (c =? 8232) || (c =? 8233)
   || (c =? 8239) || (c =? 8287) || (c =? 12288) || (c =? 65279))%N.

Fixpoint trimStart (s : jsstring) : jsstring :=
  match s with
  | c :: s' => if isWhiteSpace c then trimStart s' else s
  | [] => []
  end.

Definition trimEnd (s : jsstring) : jsstring := rev (trimStart (rev s)).

(** [s.trim()] *)
Definition trim (s : jsstring) : jsstring := trimEnd (trimStart s).

(** A value read as a condition: [undefined] and the empty string are falsy. *)
Definition truthy (v : option jsstring) : bool :=
  match v with
  | Some (_ :: _) => true
  | _ => false
  end.

(** [a || b] on values that are strings or [undefined]. *)
Definition orElse (a b : option jsstring) : option jsstring :=
  if truthy a then a else b.

(** ** Violation severity classification *)

Module VIOLATION_SEVERITY.

Definition HIGH_PRIORITY : list jsstring :=
  [js "3-501.16(A)(2)"; js "3-501.16(A)(1)"; js "3-401.11"; js "3-501.14";
   js "3-302.11(A)(1)"; js "3-302.11(A)(2)"; js "4-601.11(A)"; js "2-301.14";
   js "3-201.11"; js "3-202.15"].

Definition MEDIUM_PRIORITY : list jsstring :=
  [js "3-501.17"; js "2-501.11"; js "2-401.11"; js "4-702.11";
   js "4-501.114"; js "3-603.11"; js "3-305.11"].

Definition LOW_PRIORITY : list jsstring :=
  [js "2-102.12(A)"; js "2-103.11(O)"; js "5-205.11"; js "5-202.12(A)";
   js "4-501.11"; js "4-903.11"].

Definition CORE : list jsstring :=
  [js "7-102.11"; js "6-301.14"; js "6-301.12"; js "7-204.11"; js "6-301.11";
   js "7-207.11(B)"; js "7-202.11"; js "7-201.11"].

End VIOLATION_SEVERITY.

Inductive Tier : Type := critical | noncritical.

Global Instance Tier_eq_dec : EqDecision Tier.
Proof. solve_decision. Defined.

(** One [for (const c of table) if (normalized.startsWith(c) ||
    normalized.includes(c)) return hit;] loop; [rest] is the code after it. *)
Fixpoint scanTable {A : Type} (normalized : jsstring) (table : list jsstring)
    (hit rest : A) : A :=
  match table with
  | [] => rest
  | c :: table' =>
      if startsWith normalized c || includes normalized c then hit
      else scanTable normalized table' hit rest
  end.

(** [critical.some(c => normalized.startsWith(c))] with
    [critical = ['2-', '3-', '4-', '5-']]. *)
Definition criticalPrefixes : list jsstring :=
  [js "2-"; js "3-"; js "4-"; js "5-"].

Definition hasCriticalPrefix (normalized : jsstring) : bool :=
  existsb (startsWith normalized) criticalPrefixes.

Definition classifyViolation (code : jsstring) : Tier :=
  let normalized := trim code in
  scanTable normalized VIOLATION_SEVERITY.HIGH_PRIORITY critical
  (scanTable normalized VIOLATION_SEVERITY.MEDIUM_PRIORITY critical
  (scanTable normalized VIOLATION_SEVERITY.LOW_PRIORITY critical
  (scanTable normalized VIOLATION_SEVERITY.CORE noncritical
  (if hasCriticalPrefix normalized then critical else noncritical)))).

Definition getViolationPoints (code : jsstring) : Z :=
  let normalized := trim code in
  scanTable normalized VIOLATION_SEVERITY.HIGH_PRIORITY 15
  (scanTable normalized VIOLATION_SEVERITY.MEDIUM_PRIORITY 8
  (scanTable normalized VIOLATION_SEVERITY.LOW_PRIORITY 3
  (scanTable normalized VIOLATION_SEVERITY.CORE 1
  (if hasCriticalPrefix normalized then 8 else 1)))).

(** A violation object.  The modal scraper writes [violationCode]; the scorer
    also reads [code], which an object may lack ([None] is [undefined]). *)
Record Violation : Type := mkViolation {
  violationCode : option jsstring;
  code : option jsstring;
  codeExplanation : jsstring;
  inspectorComments : jsstring;
  section : Tier
}.

(** [v.violationCode || v.code || ''] *)
Definition codeOf (v : Violation) : jsstring :=
  default [] (orElse (orElse (violationCode v) (code v)) (Some [])).

(** Scores are sums of small integers, far below 2^53 for any array, so the
    double arithmetic of the source is exact and [Z] models it. *)
Definition calculateRiskScore (violations : list Violation)
    (closureFlag reinspectionFlag : bool) : Z :=
  let score := 0 in
  let score :=
    fold_left (fun score v => score + getViolationPoints (codeOf v))
      violations score in
  let score := if closureFlag then score + 50 else score in
  let score := if reinspectionFlag then score + 10 else score in
  Z.min score 100.

Inductive RiskLevel : Type := EXCELLENT | LOW | MEDIUM | HIGH | CRITICAL.

Definition getRiskLevel (score : Z) : RiskLevel :=
  if score =? 0 then EXCELLENT
  else if score <=? 5 then LOW
  else if score <=? 20 then MEDIUM
  else if score <=? 40 then HIGH
  else CRITICAL.

Inductive Color : Type := crimson | red | orange | yellow | green.

Definition getColor (score : Z) : Color :=
  if score >=? 50 then crimson
  else if score >=? 30 then red
  else if score >=? 15 then orange
  else if score >? 0 then yellow
  else green.

(** ** The host: engine tables and markup patterns

    What the code calls and does not define.  [toLowerCase] rests on the
    Unicode case tables; the time value of [new Date(s)] is left to the
    implementation for strings outside the ISO format ([None] is the NaN of
    an invalid date); the remaining fields are the regular-expression steps
    of the row and modal readers, which no property below looks into. *)
Class Host : Type := {
  toLowerCase : jsstring -> jsstring;
  dateValue : jsstring -> option Z;
  (* nameMatch ? nameMatch[1].replace(/<[^>]*>/g, '').trim() : '' *)
  establishmentNameOf : jsstring -> jsstring;
  (* addrMatch ? addrMatch[1].trim() : '', then the ZIP+4 suffix removed *)
  addressOf : jsstring -> jsstring;
  (* phoneMatch ? phoneMatch[1].trim() : '', then trailing non-digits removed *)
  phoneOf : jsstring -> jsstring;
  (* extractCity's cityMatch, with the street-suffix tokens stripped *)
  cityMatchOf : jsstring -> option jsstring;
  (* zipMatch ? zipMatch[1] : '' *)
  zipCodeOf : jsstring -> jsstring
}.

(** ** Facility categorisation *)

Record CategoryConfig : Type := mkCategory {
  keywords : list jsstring;
  priority : Z
}.

(** [Object.entries(FACILITY_CATEGORIES)]: the entries in declaration order. *)
Definition FACILITY_CATEGORIES : list (jsstring * CategoryConfig) :=
  [ (js "School",
     mkCategory
       [js "school"; js "elementary"; js "middle school"; js "high school";
        js "preschool"; js "daycare"; js "day care"; js "childcare";
        js "child care"; js "university"; js "college"; js "academy";
        js "kindergarten"; js "head start"] 10);
    (js "Senior/Community Center",
     mkCategory
       [js "nutrition program"; js "senior center"; js "elderly";
        js "retirement"; js "assisted living"; js "nursing home";
        js "care center"; js "community center"; js "senior living";
        js "memory care"; js "adult day"] 9);
    (js "Fast Food",
     mkCategory
       [js "mcdonalds"; js "mcdonald's"; js "burger king"; js "subway";
        js "taco bell"; js "wendy"; js "wendys"; js "kfc"; js "arby";
        js "domino"; js "pizza hut"; js "papa john"; js "sonic";
        js "dairy queen"; js "dq "; js "popeyes"; js "chick-fil-a";
        js "chipotle"; js "panera"; js "jimmy john"; js "qdoba";
        js "taco john"; js "culver"; js "raising cane"; js "five guys";
        js "shake shack"; js "whataburger"; js "drive thru";
        js "drive-thru"] 8);
    (js "Gas Station/Convenience",
     mkCategory
       [js "casey"; js "kum & go"; js "kum and go"; js "kwik trip";
        js "kwik star"; js "quiktrip"; js "quick trip"; js "bp "; js "shell";
        js "git n go"; js "git-n-go"; js "conoco"; js "phillips 66";
        js "7-eleven"; js "speedway"; js "pilot"; js "flying j";
        js "circle k"; js "marathon"; js "loves"; js "gas station";
        js "convenience store"; js "c-store"; js "truck stop"] 7);
    (js "Grocery Store",
     mkCategory
       [js "hy-vee"; js "aldi"; js "walmart"; js "target"; js "fareway";
        js "whole foods"; js "trader joe"; js "fresh thyme";
        js "natural grocers"; js "kroger"; js "costco"; js "sam's club";
        js "sams club"; js "grocery store"; js "grocery"; js "market";
        js "supermarket"; js "food mart"; js "food market";
        js "asian market"; js "asian grocery"; js "international market";
        js "ethnic market"] 6);
    (js "Bar/Brewery/Distillery",
     mkCategory
       [js "bar"; js "pub"; js "brewery"; js "brewing"; js "brewpub";
        js "taproom"; js "tavern"; js "lounge"; js "saloon"; js "sports bar";
        js "nightclub"; js "night club"; js "distillery"; js "winery";
        js "wine bar"; js "cocktail lounge"; js "cocktail bar"] 5);
    (js "Coffee Shop/Cafe",
     mkCategory
       [js "starbucks"; js "caribou"; js "dunkin"; js "peet's";
        js "dutch bros"; js "tim horton"; js "coffee"; js "cafe";
        (* 'café': U+00E9 *) js "caf" ++ [233%N];
        js "espresso"; js "coffee shop"; js "coffee house";
        js "coffeehouse"] 4);
    (js "Bakery/Dessert",
     mkCategory
       [js "bakery"; js "cupcake"; js "donut"; js "doughnut"; js "ice cream";
        js "gelato"; js "frozen yogurt"; js "candy"; js "chocolate";
        js "sweet"; js "pastry"; js "cookies"; js "dessert"; js "confection";
        js "cake"; js "fudge"; js "yogurt shop"] 3);
    (js "Hotel/Lodging",
     mkCategory
       [js "hotel"; js "motel"; js "inn"; js "resort"; js "lodge";
        js "embassy suites"; js "holiday inn"; js "marriott"; js "hilton";
        js "hampton"; js "hyatt"; js "sheraton"; js "radisson";
        js "comfort inn"; js "best western"; js "la quinta"; js "courtyard";
        js "residence inn"] 2);
    (js "Recreation Facility",
     mkCategory
       [js "bowling"; js "golf"; js "country club"; js "athletic club";
        js "fitness"; js "gym"; js "pool hall"; js "billiards"; js "skating";
        js "rink"; js "laser tag"; js "arcade"; js "theater"; js "cinema";
        js "ymca"; js "ywca"; js "pickleball"; js "tennis club";
        js "sports complex"] 1);
    (js "Food Truck/Mobile",
     mkCategory
       [js "food truck"; js "mobile"; js " cart"; js "food cart";
        js "trailer"; js "vendor"; js "mobile kitchen"; js "mobile food"] 0);
    (js "Catering",
     mkCategory
       [js "catering"; js "caterer"; js "banquet"; js "event catering"] (-1));
    (js "Restaurant", mkCategory [] (-999)) ].

(** [bestMatch]: a category name with its priority. *)
Abbreviation BestMatch := (jsstring * Z)%type.

(** The inner loop over one category's keywords.  The [break] leaves the
    loop only after [bestMatch] was replaced; a keyword that occurs in a
    category that does not beat [bestMatch] lets the loop go on. *)
Fixpoint scanKeywords `{Host} (text category : jsstring) (prio : Z)
    (kws : list jsstring) (bestMatch : BestMatch) : BestMatch :=
  match kws with
  | [] => bestMatch
  | keyword :: kws' =>
      if includes text (toLowerCase keyword) then
        if prio >? snd bestMatch then (category, prio)
        else scanKeywords text category prio kws' bestMatch
      else scanKeywords text category prio kws' bestMatch
  end.

(** The outer loop, over any table of categories. *)
Definition scanCategories `{Host} (text : jsstring)
    (table : list (jsstring * CategoryConfig)) (bestMatch : BestMatch)
    : BestMatch :=
  fold_left
    (fun best entry =>
       scanKeywords text (fst entry) (priority (snd entry))
         (keywords (snd entry)) best)
    table bestMatch.

Definition categorizeFacility `{Host} (name addr : jsstring) : jsstring :=
  let text := toLowerCase (name ++ js " " ++ addr) in
  fst (scanCategories text FACILITY_CATEGORIES (js "Restaurant", -999)).

(** ** Records and the row reader *)

Module CONFIG.
Definition COUNTY : jsstring := js "Polk".
End CONFIG.

Record InspectionRecord : Type := mkRecord {
  name : jsstring;
  addr : jsstring;
  phone : jsstring;
  city : jsstring;
  facilityType : option jsstring;   (* records of older files lack it *)
  inspectionDate : jsstring;
  inspectionType : jsstring;
  violations : list Violation;
  closureFlag : bool;
  reinspectionFlag : bool;
  zipCode : jsstring;
  county : jsstring;
  criticalCount : Z;
  noncriticalCount : Z;
  totalViolations : Z;
  riskScore : Z;
  riskLevel : RiskLevel;
  color : Color;
  scrapedAt : jsstring
}.

Definition knownCities : list jsstring :=
  [js "Des Moines"; js "West Des Moines"; js "Ankeny"; js "Urbandale";
   js "Johnston"; js "Clive"; js "Altoona"; js "Pleasant Hill";
   js "Polk City"; js "Windsor Heights"].

Definition extractCity `{Host} (address : jsstring) : jsstring :=
  if negb (truthy (Some address)) then []
  else
    match cityMatchOf address with
    | Some c => c
    | None =>
        default []
          (List.find
             (fun c => includes (toLowerCase address) (toLowerCase c))
             knownCities)
    end.

(** One row of the violations modal: the code label, and the explanation
    and comment panels with their captions removed and trimmed. *)
Record ViolationRow : Type := mkViolationRow {
  rowCode : jsstring;
  rowExplanation : jsstring;
  rowComments : jsstring
}.

(** The loop of [scrapeViolationsModal]: rows without a code are passed
    over, a (code, explanation, comments) triple is kept once. *)
Definition modalStep (acc : list Violation * gset jsstring)
    (row : ViolationRow) : list Violation * gset jsstring :=
  let '(violations, seenViolations) := acc in
  if truthy (Some (rowCode row)) then
    let uniqueKey :=
      rowCode row ++ js "|" ++ rowExplanation row ++ js "|" ++ rowComments row in
    if decide (uniqueKey ∈ seenViolations) then acc
    else
      (violations ++
         [mkViolation (Some (rowCode row)) None (rowExplanation row)
            (rowComments row) (classifyViolation (rowCode row))],
       {[uniqueKey]} ∪ seenViolations)
  else acc.

(** What clicking a row's violations link leads to. *)
Inductive Reveal : Type :=
  | ClickFailed                       (* the click threw *)
  | ModalMissing                      (* scrapeViolationsModal returned null *)
  | ModalShown (headerDate : jsstring) (rows : list ViolationRow).

(** [{ violations, inspectionDate }] of a modal that appeared. *)
Definition scrapeViolationsModal (headerDate : jsstring)
    (rows : list ViolationRow) : list Violation * jsstring :=
  (fst (fold_left modalStep rows ([], ∅)), headerDate).

(** What the driver reads of one grid row. *)
Record RowCells : Type := mkRowCells {
  cellCount : nat;                (* cells.length *)
  nameAddrHtml : jsstring;        (* cells[0].innerHTML() *)
  inspectionDateText : jsstring;  (* cells[1].innerText() *)
  inspectionTypeText : jsstring;  (* cells[2].innerText() *)
  violationsText : jsstring;      (* the link's text, '' when it has none *)
  reveal : Reveal;
  clock : jsstring                (* new Date().toISOString() *)
}.

(** A row either is read, or a read of it throws and the row's [catch]
    logs the error. *)
Inductive Row : Type :=
  | RowThrows
  | RowRead (cells : RowCells).

(** The body of the row loop: [None] where the code leaves the iteration
    without [results.push]. *)
Definition scrapeRow `{Host} (row : Row) : option InspectionRecord :=
  match row with
  | RowThrows => None
  | RowRead cells =>
      if (cellCount cells <? 6)%nat then None
      else
        let establishmentName := establishmentNameOf (nameAddrHtml cells) in
        let address := addressOf (nameAddrHtml cells) in
        let phone := phoneOf (nameAddrHtml cells) in
        let city := extractCity address in
        let zipCode := zipCodeOf address in
        let inspectionDate := inspectionDateText cells in
        let inspectionType := inspectionTypeText cells in
        if negb (includes (toLowerCase inspectionType) (js "routine")) then None
        else
          let hasViolations :=
            (0 <? length (trim (violationsText cells)))%nat in
          let violations :=
            if hasViolations then
              match reveal cells with
              | ModalShown headerDate rows =>
                  fst (scrapeViolationsModal headerDate rows)
              | ClickFailed | ModalMissing => []
              end
            else [] in
          let closureFlag :=
            includes (toLowerCase inspectionType) (js "closure") in
          let reinspectionFlag :=
            includes (toLowerCase inspectionType) (js "follow")
            || includes (toLowerCase inspectionType) (js "reinspection") in
          let criticalCount :=
            Z.of_nat (length (List.filter
              (fun v => bool_decide (section v = critical)) violations)) in
          let noncriticalCount :=
            Z.of_nat (length (List.filter
              (fun v => bool_decide (section v = noncritical)) violations)) in
          let totalViolations := Z.of_nat (length violations) in
          let riskScore :=
            calculateRiskScore violations closureFlag reinspectionFlag in
          let riskLevel := getRiskLevel riskScore in
          let color := getColor riskScore in
          let facilityType := categorizeFacility establishmentName address in
          Some {|
            name := establishmentName;
            addr := address;
            phone := phone;
            city := city;
            facilityType := Some facilityType;
            inspectionDate := inspectionDate;
            inspectionType := inspectionType;
            violations := violations;
            closureFlag := closureFlag;
            reinspectionFlag := reinspectionFlag;
            zipCode := zipCode;
            county := CONFIG.COUNTY;
            criticalCount := criticalCount;
            noncriticalCount := noncriticalCount;
            totalViolations := totalViolations;
            riskScore := riskScore;
            riskLevel := riskLevel;
            color := color;
            scrapedAt := clock cells
          |}
  end.

(** [results] after the loop over the page's rows. *)
Definition scrapePageResults `{Host} (rows : list Row)
    : list InspectionRecord :=
  omap scrapeRow rows.

(** ** The crawl loop of [scrapeCityWithDateRange] *)

(** The main grid's pager as one iteration of the loop finds it. *)
Record Pager : Type := mkPager {
  spanNumber : option Z;     (* parseInt(currentPageText); None is NaN *)
  nextPageExists : bool;     (* a visible link to nextPage *)
  ellipsisExists : bool;     (* a visible "..." link *)
  ellipsisVerified : bool    (* after the "..." click the pager shows
                                nextPage within the 10 s wait *)
}.

(** What the browser shows during one iteration. *)
Record PageView : Type := mkPageView {
  rows : list Row;
  mainPager : option Pager   (* None: no pager under the main grid *)
}.

Record CrawlState : Type := mkCrawlState {
  allResults : list InspectionRecord;
  pageNum : Z;
  seenEstablishments : gset jsstring;
  consecutiveDuplicatePages : Z
}.

Definition MAX_DUPLICATE_PAGES : Z := 3.

(** The [break] statements of the loop, by the error or warning each logs. *)
Inductive StopReason : Type :=
  | PaginationLoop
  | NoMainPager
  | PageMismatch
  | VerificationFailed
  | NoMorePages
  | PageLimit.

Inductive Step : Type :=
  | Continue (st : CrawlState)
  | Break (why : StopReason) (st : CrawlState).

(** The within-run key: case-sensitive, untrimmed, with the date. *)
Definition seenKey (result : InspectionRecord) : jsstring :=
  name result ++ js "|" ++ addr result ++ js "|" ++ inspectionDate result.

Definition trackDuplicate (acc : Z * gset jsstring)
    (result : InspectionRecord) : Z * gset jsstring :=
  let '(duplicatesOnPage, seen) := acc in
  if decide (seenKey result ∈ seen) then (duplicatesOnPage + 1, seen)
  else (duplicatesOnPage, {[seenKey result]} ∪ seen).

(** [parseInt(currentPageText) || 1] *)
Definition currentPageOf (pager : Pager) : Z :=
  match spanNumber pager with
  | Some n => if n =? 0 then 1 else n
  | None => 1
  end.

Definition withPageNum (st : CrawlState) (n : Z) : CrawlState :=
  {| allResults := allResults st;
     pageNum := n;
     seenEstablishments := seenEstablishments st;
     consecutiveDuplicatePages := consecutiveDuplicatePages st |}.

(** The second half of an iteration: the pager is looked up, the page
    number checked, and the next page reached by its link or by "...". *)
Definition advance (st1 : CrawlState) (view : PageView) : Step :=
  match mainPager view with
  | None => Break NoMainPager st1
  | Some pager =>
      let currentPage := currentPageOf pager in
      if negb (currentPage =? pageNum st1) then Break PageMismatch st1
      else if negb (nextPageExists pager) then
        if ellipsisExists pager then
          if ellipsisVerified pager then
            (* pageNum++; continue; *)
            Continue (withPageNum st1 (pageNum st1 + 1))
          else Break VerificationFailed st1
        else Break NoMorePages st1
      else
        (* the click on the link; its wait is soft *)
        let st2 := withPageNum st1 (pageNum st1 + 1) in
        if pageNum st2 >? 1000 then Break PageLimit st2
        else Continue st2
  end.

(** One iteration of [while (true)]. *)
Definition crawlStep `{Host} (st : CrawlState) (view : PageView) : Step :=
  let pageResults := scrapePageResults (rows view) in
  let '(duplicatesOnPage, seen) :=
    fold_left trackDuplicate pageResults (0, seenEstablishments st) in
  let allDuplicates :=
    (0 <? Z.of_nat (length pageResults))
    && (duplicatesOnPage =? Z.of_nat (length pageResults)) in
  let st1 :=
    {| allResults := allResults st ++ pageResults;
       pageNum := pageNum st;
       seenEstablishments := seen;
       consecutiveDuplicatePages :=
         if allDuplicates then consecutiveDuplicatePages st + 1 else 0 |} in
  if allDuplicates
     && (consecutiveDuplicatePages st1 >=? MAX_DUPLICATE_PAGES)
  then Break PaginationLoop st1
  else advance st1 view.

(** The loop over the views the browser goes through.  [Awaiting] is the
    loop about to scrape a page that the given views do not reach. *)
Inductive Crawl : Type :=
  | Finished (why : StopReason) (st : CrawlState)
  | Awaiting (st : CrawlState).

Fixpoint crawlLoop `{Host} (st : CrawlState) (views : list PageView)
    : Crawl :=
  match views with
  | [] => Awaiting st
  | view :: views' =>
      match crawlStep st view with
      | Continue st' => crawlLoop st' views'
      | Break why st' => Finished why st'
      end
  end.

Definition crawlStart : CrawlState :=
  {| allResults := [];
     pageNum := 1;
     seenEstablishments := ∅;
     consecutiveDuplicatePages := 0 |}.

(** ** Calls that reject

    The loop awaits calls of the browser driver.  Those inside a [try] or
    followed by [.catch] are the soft steps of [crawlStep]; the others (the
    row lookup of [scrapePageResults], the pager lookup and its
    [evaluate], the click on a page link and the click on "...") reject
    the whole function when they reject: no [break] is reached, nothing is
    returned, and [allResults] is lost.  So do the calls that fill in and
    submit the search form, before the loop. *)

(** How the search before the loop goes. *)
Inductive Search : Type :=
  | SearchRejects    (* a call on the search form rejects *)
  | NoRecords        (* the page shows "No records found" *)
  | ResultsLoaded.

(** One pass of the loop as the driver lets it go: the page is shown and
    the iteration runs to its [break], [continue] or end, or one of its
    awaited calls outside a [try] rejects. *)
Inductive Visit : Type :=
  | Shown (view : PageView)
  | Rejects.

Inductive Outcome : Type :=
  | Returned (results : list InspectionRecord)
  | Rejected
  | Running.         (* the visits given do not reach the end *)

Fixpoint crawlVisits `{Host} (st : CrawlState) (visits : list Visit)
    : Outcome :=
  match visits with
  | [] => Running
  | Rejects :: _ => Rejected
  | Shown view :: visits' =>
      match crawlStep st view with
      | Continue st' => crawlVisits st' visits'
      | Break _ st' => Returned (allResults st')
      end
  end.

(** The function: an empty array when the search reports no records, and
    otherwise [allResults] as it stands at the [break] that leaves the
    loop; a rejection when a call outside the [try] blocks rejects. *)
Definition scrapeCityWithDateRange `{Host} (search : Search)
    (visits : list Visit) : Outcome :=
  match search with
  | SearchRejects => Rejected
  | NoRecords => Returned []
  | ResultsLoaded => crawlVisits crawlStart visits
  end.

(** ** The merge engine *)

(** Objects live in a store; an array holds their addresses. *)
Abbreviation loc := nat.
Abbreviation store := (list InspectionRecord).

(** A [Map] from keys to objects, in insertion order. *)
Abbreviation jsMap := (list (jsstring * loc)).

Fixpoint mapGet (key : jsstring) (m : jsMap) : option loc :=
  match m with
  | [] => None
  | (k, v) :: m' => if decide (k = key) then Some v else mapGet key m'
  end.

(** [m.set(key, v)]: a key already present keeps its place. *)
Fixpoint mapSet (key : jsstring) (v : loc) (m : jsMap) : jsMap :=
  match m with
  | [] => [(key, v)]
  | (k, v') :: m' =>
      if decide (k = key) then (k, v) :: m' else (k, v') :: mapSet key v m'
  end.

(** The cross-record key. *)
Definition crossKey `{Host} (record : InspectionRecord) : jsstring :=
  trim (toLowerCase (name record)) ++ js "|" ++ trim (toLowerCase (addr record)).

(** [new Date(current) > new Date(existing)]; a NaN compares false. *)
Definition laterDate `{Host} (current existing : jsstring) : bool :=
  match dateValue current, dateValue existing with
  | Some c, Some e => c >? e
  | _, _ => false
  end.

(** [existing.facilityType = v] *)
Definition setFacilityType (existing : InspectionRecord)
    (v : option jsstring) : InspectionRecord :=
  {| name := name existing;
     addr := addr existing;
     phone := phone existing;
     city := city existing;
     facilityType := v;
     inspectionDate := inspectionDate existing;
     inspectionType := inspectionType existing;
     violations := violations existing;
     closureFlag := closureFlag existing;
     reinspectionFlag := reinspectionFlag existing;
     zipCode := zipCode existing;
     county := county existing;
     criticalCount := criticalCount existing;
     noncriticalCount := noncriticalCount existing;
     totalViolations := totalViolations existing;
     riskScore := riskScore existing;
     riskLevel := riskLevel existing;
     color := color existing;
     scrapedAt := scrapedAt existing |}.

(** The body of [for (const record of data)], on the store and the map.
    An address outside the store stands for no object and is passed over. *)
Definition mergeStep `{Host} (st : store * jsMap) (r : loc)
    : store * jsMap :=
  let '(h, byEstablishment) := st in
  match h !! r with
  | None => st
  | Some record =>
      let key := crossKey record in
      match mapGet key byEstablishment with
      | None => (h, mapSet key r byEstablishment)
      | Some e =>
          match h !! e with
          | None => st
          | Some existing =>
              let h' :=
                if truthy (facilityType record)
                   && negb (truthy (facilityType existing))
                then <[e := setFacilityType existing (facilityType record)]> h
                else h in
              let byEstablishment' :=
                if laterDate (inspectionDate record) (inspectionDate existing)
                then mapSet key r byEstablishment
                else byEstablishment in
              (h', byEstablishment')
          end
      end
  end.

(** The loop on an array of addresses: the store it leaves and the
    addresses of [Array.from(byEstablishment.values())]. *)
Definition mergeLoop `{Host} (h : store) (data : list loc)
    : store * list loc :=
  let '(h', byEstablishment) := fold_left mergeStep data (h, []) in
  (h', List.map snd byEstablishment).

(** The objects an array of addresses holds. *)
Definition deref (h : store) (refs : list loc) : list InspectionRecord :=
  omap (fun r => h !! r) refs.

(** [keepMostRecentInspections] on an array whose slots hold objects of
    their own, as [JSON.parse] and the row reader's [results.push] of a
    fresh literal make them: slot [i] holds the object at address [i]. *)
Definition keepMostRecentInspections `{Host} (data : list InspectionRecord)
    : list InspectionRecord :=
  let '(h', filtered) := mergeLoop data (seq 0 (length data)) in
  deref h' filtered.

(** [existingFile] is the parsed content of the file, [None] when there is
    no file. *)
Definition mergeWithExistingData `{Host} (newData : list InspectionRecord)
    (existingFile : option (list InspectionRecord))
    : list InspectionRecord :=
  match existingFile with
  | None => newData
  | Some existingData =>
      let combined := existingData ++ newData in
      keepMostRecentInspections combined
  end.

(** The data path of [main]: what it writes to [CONFIG.OUTPUT_FILE], given
    the records the crawl returned and the parsed content of the file when
    there is one.  [None]: nothing is written, the crawl returned no
    record. *)
Definition main `{Host} (allData : list InspectionRecord)
    (existingFile : option (list InspectionRecord))
    : option (list InspectionRecord) :=
  if (length allData =? 0)%nat then None
  else
    let finalData := mergeWithExistingData allData existingFile in
    Some finalData.

(** [main] from the crawl on: the crawl is awaited inside the [try], so a
    rejected crawl goes to the [catch], which logs the error and writes
    nothing. *)
Definition mainAfterCrawl `{Host} (crawl : Outcome)
    (existingFile : option (list InspectionRecord))
    : option (list InspectionRecord) :=
  match crawl with
  | Returned allData => main allData existingFile
  | Rejected => None
  | Running => None
  end.

(** * The vocabulary of the properties *)

(** ** Severity tables and scores *)

(** A table matches a normalized code when one of its entries is a prefix
    or a substring of it. *)
Definition tableMatches (normalized : jsstring) (table : list jsstring)
    : bool :=
  existsb (fun c => startsWith normalized c || includes normalized c) table.

(** The points of the violations, summed. *)
Definition sumOfPoints (violations : list Violation) : Z :=
  foldr (fun v total => getViolationPoints (codeOf v) + total) 0 violations.

(** ** Categories *)

(** A keyword of the category occurs in the text. *)
Definition keywordOccurs (text : jsstring) (config : CategoryConfig) : bool :=
  existsb (includes text) (keywords config).

(** The table's keywords are in lower case already, so that lower-casing
    them, as the loop does, changes none. *)
Definition keywordsLowerCase `{Host} : Prop :=
  Forall (fun entry => Forall (fun kw => toLowerCase kw = kw)
                         (keywords (snd entry)))
    FACILITY_CATEGORIES.

(** The test the loop makes of a category: a keyword, lower-cased, occurs
    in the text. *)
Definition categoryOccurs `{Host} (text : jsstring)
    (entry : jsstring * CategoryConfig) : bool :=
  existsb (fun kw => includes text (toLowerCase kw)) (keywords (snd entry)).

(** ** Pages of duplicates *)

(** Every record of a non-empty page was seen before the page. *)
Definition allDuplicates (seen : gset jsstring)
    (results : list InspectionRecord) : Prop :=
  results <> [] /\ forall r, r ∈ results -> seenKey r ∈ seen.

(** Some record of the page was not seen before the page. *)
Definition someNew (seen : gset jsstring)
    (results : list InspectionRecord) : Prop :=
  exists r, r ∈ results /\ seenKey r ∉ seen.

Definition stateOf (s : Step) : CrawlState :=
  match s with
  | Continue st => st
  | Break _ st => st
  end.

Definition reasonOf (s : Step) : option StopReason :=
  match s with
  | Continue _ => None
  | Break why _ => Some why
  end.

(** The records of the pages, in page order. *)
Definition resultsOf `{Host} (views : list PageView)
    : list InspectionRecord :=
  concat (List.map (fun view => scrapePageResults (rows view)) views).

(** ** The merge, as the specification words it

    Records are grouped by the cross-record key, the groups taken in the
    order in which their keys first appear; within a group the first record
    is kept, and each later one first backfills the kept record's facility
    type, then replaces the kept record if its date is strictly later. *)

Definition backfill (kept new : InspectionRecord) : InspectionRecord :=
  if truthy (facilityType new) && negb (truthy (facilityType kept))
  then setFacilityType kept (facilityType new)
  else kept.

Definition absorb `{Host} (kept new : InspectionRecord) : InspectionRecord :=
  let kept' := backfill kept new in
  if laterDate (inspectionDate new) (inspectionDate kept) then new else kept'.

Fixpoint firstOccurrences (keys : list jsstring) : list jsstring :=
  match keys with
  | [] => []
  | k :: keys' => k :: filter (fun k' => k' <> k) (firstOccurrences keys')
  end.

Definition group `{Host} (key : jsstring) (data : list InspectionRecord)
    : list InspectionRecord :=
  filter (fun r => crossKey r = key) data.

Definition keptRecord `{Host} (key : jsstring) (data : list InspectionRecord)
    : option InspectionRecord :=
  match group key data with
  | [] => None
  | first :: rest => Some (fold_left absorb rest first)
  end.

Definition mergedByKey `{Host} (data : list InspectionRecord)
    : list InspectionRecord :=
  omap (fun key => keptRecord key data)
    (firstOccurrences (List.map crossKey data)).

(** ** What a backfill leaves of an object *)

(** Two records agree on every field but [facilityType]. *)
Definition sameOtherFields (r r' : InspectionRecord) : Prop :=
  name r' = name r /\ addr r' = addr r /\ phone r' = phone r /\
  city r' = city r /\ inspectionDate r' = inspectionDate r /\
  inspectionType r' = inspectionType r /\ violations r' = violations r /\
  closureFlag r' = closureFlag r /\
  reinspectionFlag r' = reinspectionFlag r /\ zipCode r' = zipCode r /\
  county r' = county r /\ criticalCount r' = criticalCount r /\
  noncriticalCount r' = noncriticalCount r /\
  totalViolations r' = totalViolations r /\ riskScore r' = riskScore r /\
  riskLevel r' = riskLevel r /\ color r' = color r /\
  scrapedAt r' = scrapedAt r.

(** [r'] is what the object [r] of the store [h] may have become: its
    fields but [facilityType] are as they were, and its facility type is
    its own or, when it had none, the one an object of [h] has. *)
Definition backfilledIn (h : store) (r r' : InspectionRecord) : Prop :=
  sameOtherFields r r' /\
  (facilityType r' = facilityType r
   \/ (truthy (facilityType r) = false /\
       truthy (facilityType r') = true /\
       exists a0 r0, h !! a0 = Some r0 /\ facilityType r0 = facilityType r')).

(** ** The invariant of the merge loop *)

(** After the addresses [pre] (distinct, into the store [h0] the loop
    started on): objects not yet met are as in [h0]; the map's keys are the
    keys met, in order of first occurrence; the object the map holds for a
    key is one of those met, and is now the group's kept record. *)
Definition mergeInv `{Host} (h0 : store) (pre : list loc)
    (st : store * jsMap) : Prop :=
  length (fst st) = length h0 /\
  (forall l, l ∉ pre -> fst st !! l = h0 !! l) /\
  List.map fst (snd st)
  = firstOccurrences (List.map crossKey (deref h0 pre)) /\
  (forall k e, (k, e) ∈ snd st ->
     e ∈ pre /\ fst st !! e = keptRecord k (deref h0 pre)).

(** ** A host to run examples on

    It lower-cases Basic Latin and Latin-1 letters, gives the time value of
    an ISO date [YYYY-MM-DD] (UTC midnight, in milliseconds) and no value to
    any other string, and reads the name of a row as the text before the
    first tag, with no address, phone or ZIP. *)
Module Example.

Definition lowerUnit (c : N) : N :=
  (if (65 <=? c) && (c <=? 90) then c + 32
   else if (192 <=? c) && (c <=? 222) && negb (c =? 215) then c + 32
   else c)%N.

Definition digit (c : N) : option Z :=
  (if (48 <=? c) && (c <=? 57) then Some (Z.of_N c - 48)%Z else None)%N.

Definition number (ds : list N) : option Z :=
  fold_left
    (fun acc c => n ← acc; d ← digit c; Some (10 * n + d))
    ds (Some 0).

(** Days from 1970-01-01 to the civil date [y]-[m]-[d]. *)
Definition daysFromCivil (y m d : Z) : Z :=
  let y' := if m <=? 2 then y - 1 else y in
  let era := y' / 400 in
  let yoe := y' - era * 400 in
  let doy := (153 * (if m >? 2 then m - 3 else m + 9) + 2) / 5 + d - 1 in
  let doe := yoe * 365 + yoe / 4 - yoe / 100 + doy in
  era * 146097 + doe - 719468.

Definition isoDateValue (s : jsstring) : option Z :=
  match s with
  | [y1; y2; y3; y4; 45%N; m1; m2; 45%N; d1; d2] =>
      y ← number [y1; y2; y3; y4];
      m ← number [m1; m2];
      d ← number [d1; d2];
      if (1 <=? m) && (m <=? 12) && (1 <=? d) && (d <=? 31)
      then Some (daysFromCivil y m d * 86400000)
      else None
  | _ => None
  end.

Fixpoint beforeTag (s : jsstring) : jsstring :=
  match s with
  | [] => []
  | c :: s' => if (c =? 60)%N then [] else c :: beforeTag s'
  end.

Definition host : Host :=
  {| toLowerCase := List.map lowerUnit;
     dateValue := isoDateValue;
     establishmentNameOf := fun html => trim (beforeTag html);
     addressOf := fun _ => [];
     phoneOf := fun _ => [];
     cityMatchOf := fun _ => None;
     zipCodeOf := fun _ => [] |}.

End Example.

(** ** Rows, pages and records for the examples *)

Module Rows.

(** A routine row with no violations link, and a complaint row. *)
Definition routine (html date : string) : Row :=
  RowRead (mkRowCells 6 (js html) (js date) (js "Routine") [] ClickFailed
             (js "2025-11-26T12:00:00.000Z")).

Definition complaint : RowCells :=
  mkRowCells 6 (js "Joe's Diner<br>") (js "2024-03-05") (js "Complaint") []
    ClickFailed (js "2025-11-26T12:00:00.000Z").

End Rows.

Module Grid.

(** A grid page: the pager shows [n], links to the next page except on
    every tenth page, where "..." leads on, as a pager of ten links does. *)
Definition page (n : Z) (rows : list Row) : PageView :=
  mkPageView rows
    (Some (mkPager (Some n) (negb (n mod 10 =? 0)) (n mod 10 =? 0) true)).

Definition uno : Row := Rows.routine "Cafe Uno<br>" "2024-03-04".
Definition due : Row := Rows.routine "Cafe Due<br>" "2024-03-05".

(** The state after a first page that showed [uno]. *)
Definition afterFirst : CrawlState :=
  stateOf (@crawlStep Example.host crawlStart (page 1 [uno])).

End Grid.

Module Ceiling.

(** Pages 1 to 999 of a grid, empty of routine rows. *)
Definition firstPages : list PageView :=
  List.map (fun n => Grid.page (Z.of_nat n) []) (seq 1 999).

(** The crawl at the start of page 1000. *)
Definition atPage1000 : CrawlState :=
  {| allResults := [];
     pageNum := 1000;
     seenEstablishments := ∅;
     consecutiveDuplicatePages := 0 |}.

(** Page 1001 shows one routine row and no way further. *)
Definition page1001 : PageView :=
  mkPageView [Grid.uno] (Some (mkPager (Some 1001) false false false)).

End Ceiling.

Module Data.

(** A record with the fields the merge reads, the others blank. *)
Definition inspection (name addr : string) (facility : option jsstring)
    (date : string) : InspectionRecord :=
  mkRecord (js name) (js addr) [] [] facility (js date) (js "Routine") []
    false false [] (js "Polk") 0 0 0 0 EXCELLENT green [].

Definition joeJanuary : InspectionRecord :=
  inspection "Joe's Diner" "123 Main St" None "2024-01-01".

(** The same establishment, written otherwise, with a type and an older
    date. *)
Definition joeOlder : InspectionRecord :=
  inspection " JOE'S DINER" "123 main st " (Some (js "Restaurant"))
    "2023-12-01".

Definition joeJune : InspectionRecord :=
  inspection "Joe's Diner" "123 Main St" None "2024-06-01".

Definition unoMarch : InspectionRecord :=
  inspection "Cafe Uno" "1 Elm St" (Some (js "Coffee Shop/Cafe")) "2024-03-04".

End Data.

(** ** Violations of a modal *)

(** The key under which the modal loop takes two rows for the same. *)
Definition rowKey (row : ViolationRow) : jsstring :=
  rowCode row ++ js "|" ++ rowExplanation row ++ js "|" ++ rowComments row.

(** The object the loop pushes for a row. *)
Definition violationOfRow (row : ViolationRow) : Violation :=
  mkViolation (Some (rowCode row)) None (rowExplanation row)
    (rowComments row) (classifyViolation (rowCode row)).

Definition violationKey (v : Violation) : jsstring :=
  default [] (violationCode v) ++ js "|" ++ codeExplanation v ++ js "|"
  ++ inspectorComments v.

Module Modal.

Definition handwash : ViolationRow :=
  mkViolationRow (js "2-301.14") (js "Hands not washed") (js "cook").

Definition lighting : ViolationRow :=
  mkViolationRow (js "6-301.14") (js "No sign") [].

Definition blank : ViolationRow := mkViolationRow [] (js "stray row") [].

End Modal.

Module Cited.

(** A routine row whose violations link opens a modal of three rows. *)
Definition row : Row :=
  RowRead (mkRowCells 6 (js "Burger Barn<br>") (js "2024-05-06")
             (js "Routine") (js "3 violations")
             (ModalShown (js "05/06/2024")
                [Modal.handwash; Modal.lighting; Modal.handwash])
             (js "2025-11-26T12:00:00.000Z")).

(** A routine row whose violations link could not be clicked. *)
Definition failed : RowCells :=
  mkRowCells 6 (js "Burger Barn<br>") (js "2024-05-06") (js "Routine")
    (js "3 violations") ClickFailed (js "2025-11-26T12:00:00.000Z").

End Cited.

(** ** States of the crawl *)

(** The keys seen are those of the results gathered. *)
Definition seenIsResults (st : CrawlState) : Prop :=
  seenEstablishments st = list_to_set (List.map seenKey (allResults st)).

(** A state in which the loop is about to scrape its page [1 + n]. *)
Definition crawlInv (n : Z) (st : CrawlState) : Prop :=
  seenIsResults st /\
  pageNum st = 1 + n /\
  (pageNum st = 1 -> allResults st = []) /\
  0 <= consecutiveDuplicatePages st <= 2 /\
  consecutiveDuplicatePages st + 2 <= Z.max 2 (pageNum st).

(** Every pager of the views links to the next page. *)
Definition linksOnly (views : list PageView) : Prop :=
  forall view pager,
    view ∈ views -> mainPager view = Some pager ->
    nextPageExists pager = true.

(** ** Dates of records *)

(** The time value of a record's inspection date, [None] when the date
    does not parse. *)
Definition dateOf `{Host} (r : InspectionRecord) : option Z :=
  dateValue (inspectionDate r).

Module Undated.

(** A record of Joe's Diner whose date is not a date, and a recent one. *)
Definition joe : InspectionRecord :=
  Data.inspection "Joe's Diner" "123 Main St" None "pending".

Definition joe2025 : InspectionRecord :=
  Data.inspection "Joe's Diner" "123 Main St" (Some (js "Restaurant"))
    "2025-10-01".

End Undated.

Module Links.

(** A page whose pager links to the next page. *)
Definition page (n : Z) : PageView :=
  mkPageView [] (Some (mkPager (Some n) true false false)).

Definition pages (count : nat) : list PageView :=
  List.map (fun n => page (Z.of_nat n)) (seq 1 count).

End Links.

(** ** The file across runs *)

(** The content of the output file after a run of [main]. *)
Definition fileAfter `{Host} (allData : list InspectionRecord)
    (file : option (list InspectionRecord))
    : option (list InspectionRecord) :=
  match main allData file with
  | Some written => Some written
  | None => file
  end.

(** * Properties *)

Ltac table_members :=
  repeat (apply Forall_cons_2; [split; vm_compute; reflexivity|]);
  apply Forall_nil_2.

(** ** Severity tables *)

Lemma scanTable_tableMatches {A : Type} normalized table (hit rest : A) :
  scanTable normalized table hit rest
  = if tableMatches normalized table then hit else rest.
Proof.
  induction table as [|c table IH]; simpl; [reflexivity|].
  destruct (startsWith normalized c || includes normalized c); simpl; auto.
Qed.

Lemma classifyViolation_cases code :
  classifyViolation code =
  let n := trim code in
  if tableMatches n VIOLATION_SEVERITY.HIGH_PRIORITY then critical
  else if tableMatches n VIOLATION_SEVERITY.MEDIUM_PRIORITY then critical
  else if tableMatches n VIOLATION_SEVERITY.LOW_PRIORITY then critical
  else if tableMatches n VIOLATION_SEVERITY.CORE then noncritical
  else if hasCriticalPrefix n then critical else noncritical.
Proof. unfold classifyViolation. now rewrite !scanTable_tableMatches. Qed.

Lemma getViolationPoints_cases code :
  getViolationPoints code =
  let n := trim code in
  if tableMatches n VIOLATION_SEVERITY.HIGH_PRIORITY then 15
  else if tableMatches n VIOLATION_SEVERITY.MEDIUM_PRIORITY then 8
  else if tableMatches n VIOLATION_SEVERITY.LOW_PRIORITY then 3
  else if tableMatches n VIOLATION_SEVERITY.CORE then 1
  else if hasCriticalPrefix n then 8 else 1.
Proof. unfold getViolationPoints. now rewrite !scanTable_tableMatches. Qed.

Lemma HIGH_members :
  Forall (fun c => classifyViolation c = critical /\ getViolationPoints c = 15)
    VIOLATION_SEVERITY.HIGH_PRIORITY.
Proof. table_members. Qed.

Lemma MEDIUM_members :
  Forall (fun c => classifyViolation c = critical /\ getViolationPoints c = 8)
    VIOLATION_SEVERITY.MEDIUM_PRIORITY.
Proof. table_members. Qed.

Lemma LOW_members :
  Forall (fun c => classifyViolation c = critical /\ getViolationPoints c = 3)
    VIOLATION_SEVERITY.LOW_PRIORITY.
Proof. table_members. Qed.

Lemma CORE_members :
  Forall (fun c => classifyViolation c = noncritical /\ getViolationPoints c = 1)
    VIOLATION_SEVERITY.CORE.
Proof. table_members. Qed.

(** C1: every code of the CORE table is classified noncritical with 1 point,
    every code of the HIGH, MEDIUM and LOW tables critical with 15, 8 and 3
    points; for any code, the tables are tried on the trimmed code in the
    order HIGH, MEDIUM, LOW, CORE, an entry matching as a prefix or a
    substring, and the first table that matches decides. *)
Theorem classification_by_tables :
  (forall c, c ∈ VIOLATION_SEVERITY.CORE ->
     classifyViolation c = noncritical /\ getViolationPoints c = 1) /\
  (forall c, c ∈ VIOLATION_SEVERITY.HIGH_PRIORITY ->
     classifyViolation c = critical /\ getViolationPoints c = 15) /\
  (forall c, c ∈ VIOLATION_SEVERITY.MEDIUM_PRIORITY ->
     classifyViolation c = critical /\ getViolationPoints c = 8) /\
  (forall c, c ∈ VIOLATION_SEVERITY.LOW_PRIORITY ->
     classifyViolation c = critical /\ getViolationPoints c = 3) /\
  (forall code,
     let n := trim code in
     (tableMatches n VIOLATION_SEVERITY.HIGH_PRIORITY = true ->
        classifyViolation code = critical /\ getViolationPoints code = 15) /\
     (tableMatches n VIOLATION_SEVERITY.HIGH_PRIORITY = false ->
      tableMatches n VIOLATION_SEVERITY.MEDIUM_PRIORITY = true ->
        classifyViolation code = critical /\ getViolationPoints code = 8) /\
     (tableMatches n VIOLATION_SEVERITY.HIGH_PRIORITY = false ->
      tableMatches n VIOLATION_SEVERITY.MEDIUM_PRIORITY = false ->
      tableMatches n VIOLATION_SEVERITY.LOW_PRIORITY = true ->
        classifyViolation code = critical /\ getViolationPoints code = 3) /\
     (tableMatches n VIOLATION_SEVERITY.HIGH_PRIORITY = false ->
      tableMatches n VIOLATION_SEVERITY.MEDIUM_PRIORITY = false ->
      tableMatches n VIOLATION_SEVERITY.LOW_PRIORITY = false ->
      tableMatches n VIOLATION_SEVERITY.CORE = true ->
        classifyViolation code = noncritical /\ getViolationPoints code = 1)).
Proof.
  split; [|split; [|split; [|split]]].
  - apply Forall_forall, CORE_members.
  - apply Forall_forall, HIGH_members.
  - apply Forall_forall, MEDIUM_members.
  - apply Forall_forall, LOW_members.
  - intros code n.
    rewrite classifyViolation_cases, getViolationPoints_cases. fold n.
    repeat split; intros; cbv zeta;
      repeat match goal with H : tableMatches _ _ = _ |- _ => rewrite H; clear H end;
      auto.
Qed.

(** The substring rule at work: a code followed by text matches its table,
    and the MEDIUM entry 4-501.114 is not taken for the LOW entry 4-501.11
    that it extends. *)
Lemma classification_by_tables_witness :
  (classifyViolation (js "3-501.16(A)(2) observed") = critical /\
   getViolationPoints (js "3-501.16(A)(2) observed") = 15) /\
  (classifyViolation (js "4-501.114") = critical /\
   getViolationPoints (js "4-501.114") = 8) /\
  (classifyViolation (js " 4-501.11 ") = critical /\
   getViolationPoints (js " 4-501.11 ") = 3) /\
  (classifyViolation (js "6-301.14") = noncritical /\
   getViolationPoints (js "6-301.14") = 1).
Proof.
  destruct classification_by_tables as (_ & _ & _ & _ & Hany).
  split; [|split; [|split]].
  - apply (Hany (js "3-501.16(A)(2) observed")). vm_compute; reflexivity.
  - apply (Hany (js "4-501.114")); vm_compute; reflexivity.
  - apply (Hany (js " 4-501.11 ")); vm_compute; reflexivity.
  - apply (Hany (js "6-301.14")); vm_compute; reflexivity.
Defined.

(** C2: a code that none of the four tables matches is critical with 8
    points when its trimmed text starts with 2-, 3-, 4- or 5-, and
    noncritical with 1 point otherwise; 9-999.99 is such a code and gets
    noncritical and 1 point. *)
Theorem fallback_by_prefix :
  (forall code,
     let n := trim code in
     tableMatches n VIOLATION_SEVERITY.HIGH_PRIORITY = false ->
     tableMatches n VIOLATION_SEVERITY.MEDIUM_PRIORITY = false ->
     tableMatches n VIOLATION_SEVERITY.LOW_PRIORITY = false ->
     tableMatches n VIOLATION_SEVERITY.CORE = false ->
     ((exists p, p ∈ [js "2-"; js "3-"; js "4-"; js "5-"]
                 /\ startsWith n p = true) ->
        classifyViolation code = critical /\ getViolationPoints code = 8) /\
     (~ (exists p, p ∈ [js "2-"; js "3-"; js "4-"; js "5-"]
                   /\ startsWith n p = true) ->
        classifyViolation code = noncritical /\ getViolationPoints code = 1)) /\
  (let n := trim (js "9-999.99") in
   tableMatches n VIOLATION_SEVERITY.HIGH_PRIORITY = false /\
   tableMatches n VIOLATION_SEVERITY.MEDIUM_PRIORITY = false /\
   tableMatches n VIOLATION_SEVERITY.LOW_PRIORITY = false /\
   tableMatches n VIOLATION_SEVERITY.CORE = false /\
   classifyViolation (js "9-999.99") = noncritical /\
   getViolationPoints (js "9-999.99") = 1).
Proof.
  split.
  - intros code n HH HM HL HC.
    rewrite classifyViolation_cases, getViolationPoints_cases. fold n.
    cbv zeta. rewrite HH, HM, HL, HC.
    assert (Hpre : hasCriticalPrefix n = true <->
              exists p, p ∈ [js "2-"; js "3-"; js "4-"; js "5-"]
                        /\ startsWith n p = true).
    { unfold hasCriticalPrefix. rewrite existsb_exists.
      split; intros (p & Hp & Hs); exists p; split; auto;
        apply list_elem_of_In; exact Hp. }
    split; intros Hp.
    + apply Hpre in Hp. rewrite Hp. auto.
    + destruct (hasCriticalPrefix n) eqn:E; [|auto].
      exfalso. apply Hp, Hpre. reflexivity.
  - vm_compute. repeat split; reflexivity.
Qed.

(** A code outside the tables with a critical prefix, and one without. *)
Lemma fallback_by_prefix_witness :
  (classifyViolation (js " 5-999.99") = critical /\
   getViolationPoints (js " 5-999.99") = 8) /\
  (classifyViolation (js "8-101.10") = noncritical /\
   getViolationPoints (js "8-101.10") = 1).
Proof.
  destruct fallback_by_prefix as [Hfall _].
  split.
  - apply (Hfall (js " 5-999.99")); try (vm_compute; reflexivity).
    exists (js "5-"). split; [|vm_compute; reflexivity].
    do 3 apply list_elem_of_further. apply list_elem_of_here.
  - apply (Hfall (js "8-101.10")); try (vm_compute; reflexivity).
    intros (p & Hp & Hs).
    repeat (apply elem_of_cons in Hp; destruct Hp as [->|Hp];
            [vm_compute in Hs; discriminate|]).
    inversion Hp.
Defined.

(** C10: the tier and the points of a code never disagree: the tier is
    noncritical exactly when the points are 1, and critical exactly when
    they are 3, 8 or 15. *)
Theorem tier_agrees_with_points code :
  (classifyViolation code = noncritical <-> getViolationPoints code = 1) /\
  (classifyViolation code = critical <->
     getViolationPoints code = 3 \/ getViolationPoints code = 8
     \/ getViolationPoints code = 15).
Proof.
  rewrite classifyViolation_cases, getViolationPoints_cases. cbv zeta.
  destruct (tableMatches _ VIOLATION_SEVERITY.HIGH_PRIORITY);
  [|destruct (tableMatches _ VIOLATION_SEVERITY.MEDIUM_PRIORITY);
    [|destruct (tableMatches _ VIOLATION_SEVERITY.LOW_PRIORITY);
      [|destruct (tableMatches _ VIOLATION_SEVERITY.CORE);
        [|destruct (hasCriticalPrefix _)]]]];
  (split; split; intros Hx; try discriminate Hx; auto;
   try (destruct Hx as [Hx|[Hx|Hx]]; discriminate Hx)).
Qed.

(** ** Risk score *)

Lemma getViolationPoints_positive code : 1 <= getViolationPoints code <= 15.
Proof.
  rewrite getViolationPoints_cases. cbv zeta.
  repeat match goal with |- context [if ?b then _ else _] => destruct b end;
    lia.
Qed.

Lemma sumOfPoints_bounds violations :
  Z.of_nat (length violations) <= sumOfPoints violations
  <= 15 * Z.of_nat (length violations).
Proof.
  induction violations as [|v vs IH]; simpl; [lia|].
  pose proof (getViolationPoints_positive (codeOf v)). lia.
Qed.

Lemma fold_points violations score :
  fold_left (fun score v => score + getViolationPoints (codeOf v))
    violations score
  = score + sumOfPoints violations.
Proof.
  revert score. induction violations as [|v vs IH]; intros score; simpl.
  - lia.
  - rewrite IH. lia.
Qed.

Lemma risk_score_bounds violations closure reinspection :
  0 <= calculateRiskScore violations closure reinspection
  /\ calculateRiskScore violations closure reinspection <= 100.
Proof.
  unfold calculateRiskScore. rewrite fold_points.
  pose proof (sumOfPoints_bounds violations) as Hb.
  destruct closure, reinspection; cbv zeta; lia.
Qed.

(** C3: the risk score is the sum of the violations' points, plus 50 for a
    closure and 10 for a reinspection, clamped at 100 (a sum over 100 gives
    100, not a remainder); it lies in 0..100. *)
Theorem risk_score_is_clamped_sum violations closure reinspection :
  let total :=
    sumOfPoints violations + (if closure : bool then 50 else 0)
    + (if reinspection : bool then 10 else 0) in
  calculateRiskScore violations closure reinspection = Z.min total 100 /\
  (100 <= total -> calculateRiskScore violations closure reinspection = 100) /\
  0 <= calculateRiskScore violations closure reinspection <= 100.
Proof.
  intros total. unfold calculateRiskScore. rewrite fold_points.
  pose proof (sumOfPoints_bounds violations) as Hb.
  assert (Hs : (let score := 0 + sumOfPoints violations in
                let score := if closure then score + 50 else score in
                if reinspection then score + 10 else score) = total).
  { subst total. destruct closure, reinspection; cbv zeta; lia. }
  cbv zeta in Hs. cbv zeta. rewrite Hs.
  assert (0 <= total) by (subst total; destruct closure, reinspection; lia).
  repeat split; lia.
Qed.

(** Seven HIGH violations with a closure: 155 points, scored 100. *)
Lemma risk_score_is_clamped_sum_witness :
  let v := mkViolation (Some (js "3-401.11")) None [] [] critical in
  calculateRiskScore (replicate 7 v) true false = 100.
Proof.
  intros v.
  apply (risk_score_is_clamped_sum (replicate 7 v) true false).
  vm_compute. discriminate.
Defined.

(** Array lengths stay below 2^32, so every intermediate score stays below
    2^53 and is an exact double. *)
Lemma score_exact_in_doubles violations :
  Z.of_nat (length violations) < 2 ^ 32 ->
  sumOfPoints violations + 50 + 10 < 2 ^ 53.
Proof.
  intros Hlen. pose proof (sumOfPoints_bounds violations). lia.
Qed.

(** ** Facility categorisation *)

Section Categories.
Context `{Host}.
Variable text : jsstring.

Lemma scanKeywords_cases category prio kws bestMatch :
  scanKeywords text category prio kws bestMatch
  = if existsb (fun kw => includes text (toLowerCase kw)) kws
       && (prio >? snd bestMatch)
    then (category, prio) else bestMatch.
Proof.
  induction kws as [|kw kws IH]; simpl; [reflexivity|].
  destruct (includes text (toLowerCase kw)); simpl.
  - destruct (prio >? snd bestMatch) eqn:E; [reflexivity|].
    rewrite IH, andb_false_r. reflexivity.
  - exact IH.
Qed.

Lemma scanCategories_snoc table entry bestMatch :
  scanCategories text (table ++ [entry]) bestMatch
  = let best := scanCategories text table bestMatch in
    if categoryOccurs text entry && (priority (snd entry) >? snd best)
    then (fst entry, priority (snd entry)) else best.
Proof.
  unfold scanCategories. rewrite fold_left_app. simpl.
  apply scanKeywords_cases.
Qed.

(** What the scan of a table leaves in [bestMatch]: the start value when no
    category with a keyword in the text beats it, and otherwise the entry of
    greatest priority among those with a keyword in the text, the earliest
    of them when several share that priority. *)
Lemma scanCategories_spec table bestMatch :
  let best := scanCategories text table bestMatch in
  (best = bestMatch /\
   forall entry, entry ∈ table -> categoryOccurs text entry = true ->
     priority (snd entry) <= snd bestMatch)
  \/
  (exists i entry,
     table !! i = Some entry /\ categoryOccurs text entry = true /\
     best = (fst entry, priority (snd entry)) /\
     snd bestMatch < priority (snd entry) /\
     forall j other, table !! j = Some other -> categoryOccurs text other = true ->
       priority (snd other) <= priority (snd entry) /\
       ((j < i)%nat -> priority (snd other) < priority (snd entry))).
Proof.
  induction table as [|entry table IH] using rev_ind; cbv zeta.
  - left. split; [reflexivity|]. intros entry Hin. inversion Hin.
  - rewrite scanCategories_snoc. cbv zeta.
    destruct (categoryOccurs text entry) eqn:Hocc; simpl.
    + destruct (priority (snd entry) >? snd (scanCategories text table bestMatch))
        eqn:Hgt.
      * (* the entry at the end takes over *)
        right. exists (length table), entry.
        assert (Hlt : snd (scanCategories text table bestMatch)
                      < priority (snd entry)) by lia.
        split; [apply list_lookup_middle; reflexivity|].
        split; [exact Hocc|]. split; [reflexivity|].
        destruct IH as [[Hb Hall]|(i & w & Hi & Hw & Hb & Hp & Hall)];
          cbv zeta in *; rewrite Hb in Hlt; simpl in Hlt.
        -- split; [exact Hlt|]. intros j other Hj Ho.
           destruct (decide (j < length table)%nat) as [Hjl|Hjl].
           ++ rewrite lookup_app_l in Hj by exact Hjl.
              apply list_elem_of_lookup_2 in Hj.
              specialize (Hall other Hj Ho). lia.
           ++ rewrite lookup_app_r in Hj by lia.
              destruct (j - length table)%nat eqn:E; simpl in Hj;
                [|discriminate].
              inversion Hj; subst other. split; [lia|]. intros; lia.
        -- split; [lia|]. intros j other Hj Ho.
           destruct (decide (j < length table)%nat) as [Hjl|Hjl].
           ++ rewrite lookup_app_l in Hj by exact Hjl.
              destruct (Hall j other Hj Ho). lia.
           ++ rewrite lookup_app_r in Hj by lia.
              destruct (j - length table)%nat eqn:E; simpl in Hj;
                [|discriminate].
              inversion Hj; subst other. split; [lia|]. intros; lia.
      * (* the entry at the end does not beat the best so far *)
        assert (Hle : priority (snd entry)
                      <= snd (scanCategories text table bestMatch)) by lia.
        destruct IH as [[Hb Hall]|(i & w & Hi & Hw & Hb & Hp & Hall)];
          cbv zeta in *.
        -- left. split; [exact Hb|]. intros other Hin Ho.
           apply elem_of_app in Hin. destruct Hin as [Hin|Hin].
           ++ apply Hall; assumption.
           ++ apply list_elem_of_singleton in Hin. subst other.
              rewrite Hb in Hle. exact Hle.
        -- right. exists i, w.
           pose proof (lookup_lt_Some _ _ _ Hi) as Hil.
           split; [rewrite lookup_app_l by exact Hil; exact Hi|].
           split; [exact Hw|]. split; [exact Hb|]. split; [exact Hp|].
           intros j other Hj Ho.
           destruct (decide (j < length table)%nat) as [Hjl|Hjl].
           ++ rewrite lookup_app_l in Hj by exact Hjl.
              apply (Hall j other Hj Ho).
           ++ rewrite lookup_app_r in Hj by lia.
              destruct (j - length table)%nat eqn:E; simpl in Hj;
                [|discriminate].
              inversion Hj; subst other. rewrite Hb in Hle. simpl in Hle.
              split; [exact Hle|]. intros; lia.
    + (* no keyword of the entry at the end categoryOccurs text *)
      destruct IH as [[Hb Hall]|(i & w & Hi & Hw & Hb & Hp & Hall)];
        cbv zeta in *.
      * left. split; [exact Hb|]. intros other Hin Ho.
        apply elem_of_app in Hin. destruct Hin as [Hin|Hin].
        -- apply Hall; assumption.
        -- apply list_elem_of_singleton in Hin. subst other. congruence.
      * right. exists i, w.
        pose proof (lookup_lt_Some _ _ _ Hi) as Hil.
        split; [rewrite lookup_app_l by exact Hil; exact Hi|].
        split; [exact Hw|]. split; [exact Hb|]. split; [exact Hp|].
        intros j other Hj Ho.
        destruct (decide (j < length table)%nat) as [Hjl|Hjl].
        -- rewrite lookup_app_l in Hj by exact Hjl.
           apply (Hall j other Hj Ho).
        -- rewrite lookup_app_r in Hj by lia.
           destruct (j - length table)%nat eqn:E; simpl in Hj;
             [|discriminate].
           inversion Hj; subst other. congruence.
Qed.

End Categories.

(** Three facts read off the table: only the keyword-less default sits at
    the start priority -999 and nothing exceeds 10; no two categories share
    a priority; the entry named Restaurant has no keyword. *)
Lemma table_priorities :
  Forall (fun entry => keywords (snd entry) = []
                       \/ -999 < priority (snd entry) <= 10)
    FACILITY_CATEGORIES.
Proof.
  unfold FACILITY_CATEGORIES.
  repeat (apply Forall_cons_2;
          [first [left; reflexivity | right; simpl; lia]|]).
  apply Forall_nil_2.
Qed.

Lemma table_priorities_distinct :
  NoDup (List.map (fun entry => priority (snd entry)) FACILITY_CATEGORIES).
Proof. apply (bool_decide_unpack _). vm_compute. exact I. Qed.

Lemma table_default_entry :
  Forall (fun entry => fst entry = js "Restaurant" -> keywords (snd entry) = [])
    FACILITY_CATEGORIES.
Proof.
  unfold FACILITY_CATEGORIES.
  repeat (apply Forall_cons_2;
          [intros Heq; first [reflexivity | vm_compute in Heq; discriminate Heq]|]).
  apply Forall_nil_2.
Qed.

Lemma occurs_keywordOccurs `{Host} text entry :
  keywordsLowerCase -> entry ∈ FACILITY_CATEGORIES ->
  categoryOccurs text entry = keywordOccurs text (snd entry).
Proof.
  intros Hlow Hin. unfold keywordsLowerCase in Hlow.
  rewrite Forall_forall in Hlow. specialize (Hlow entry Hin).
  unfold categoryOccurs, keywordOccurs.
  induction Hlow as [|kw kws Hkw _ IH]; simpl; [reflexivity|].
  rewrite Hkw, IH. reflexivity.
Qed.

(** C4: over the lower-cased "name address" text, the category returned is
    the one of greatest priority among the categories with a keyword in the
    text, the earliest in table order among equals, wherever the keywords
    stand in the text; so a priority-10 category with a keyword in the text
    wins over a priority-3 one; and Restaurant is returned exactly when no
    category has a keyword in the text. *)
Theorem categorizeFacility_priority `{Host} (name addr : jsstring) :
  keywordsLowerCase ->
  let text := toLowerCase (name ++ js " " ++ addr) in
  let category := categorizeFacility name addr in
  (forall i entry,
     FACILITY_CATEGORIES !! i = Some entry ->
     keywordOccurs text (snd entry) = true ->
     exists j winner,
       FACILITY_CATEGORIES !! j = Some winner /\
       category = fst winner /\
       keywordOccurs text (snd winner) = true /\
       (priority (snd entry) < priority (snd winner)
        \/ (priority (snd entry) = priority (snd winner) /\ (j <= i)%nat))) /\
  (forall high low,
     high ∈ FACILITY_CATEGORIES -> low ∈ FACILITY_CATEGORIES ->
     priority (snd high) = 10 -> priority (snd low) = 3 ->
     keywordOccurs text (snd high) = true ->
     keywordOccurs text (snd low) = true ->
     category = fst high) /\
  (category = js "Restaurant" <->
     forall entry, entry ∈ FACILITY_CATEGORIES ->
       keywordOccurs text (snd entry) = false).
Proof.
  intros Hlow text category.
  pose proof (scanCategories_spec text FACILITY_CATEGORIES (js "Restaurant", -999))
    as Hscan.
  cbv zeta in Hscan.
  assert (Hcat : category
                 = fst (scanCategories text FACILITY_CATEGORIES
                          (js "Restaurant", -999))) by reflexivity.
  pose proof table_priorities as Hprio. rewrite Forall_forall in Hprio.
  (* a category with a keyword in the text lies above the start priority *)
  assert (Habove : forall entry, entry ∈ FACILITY_CATEGORIES ->
            keywordOccurs text (snd entry) = true ->
            -999 < priority (snd entry) <= 10).
  { intros entry Hin Hocc. destruct (Hprio entry Hin) as [Hnil|Hp]; [|exact Hp].
    unfold keywordOccurs in Hocc. rewrite Hnil in Hocc. discriminate Hocc. }
  (* the winner, when some category has a keyword in the text *)
  assert (Hwin : forall i entry,
            FACILITY_CATEGORIES !! i = Some entry ->
            keywordOccurs text (snd entry) = true ->
            exists j winner,
              FACILITY_CATEGORIES !! j = Some winner /\
              category = fst winner /\
              keywordOccurs text (snd winner) = true /\
              (priority (snd entry) < priority (snd winner)
               \/ (priority (snd entry) = priority (snd winner)
                   /\ (j <= i)%nat))).
  { intros i entry Hi Hocc.
    pose proof (list_elem_of_lookup_2 _ _ _ Hi) as Hin.
    destruct Hscan as [[Hb Hall]|(j & w & Hj & Hw & Hb & Hp & Hall)].
    - exfalso. specialize (Hall entry Hin).
      rewrite (occurs_keywordOccurs text entry Hlow Hin) in Hall.
      specialize (Hall Hocc). simpl in Hall.
      specialize (Habove entry Hin Hocc). lia.
    - pose proof (list_elem_of_lookup_2 _ _ _ Hj) as Hwin.
      rewrite (occurs_keywordOccurs text w Hlow Hwin) in Hw.
      exists j, w. split; [exact Hj|]. split; [rewrite Hcat, Hb; reflexivity|].
      split; [exact Hw|].
      specialize (Hall i entry Hi).
      rewrite (occurs_keywordOccurs text entry Hlow Hin) in Hall.
      destruct (Hall Hocc) as [Hle Hstrict].
      destruct (decide (i < j)%nat) as [Hij|Hij].
      + left. apply Hstrict, Hij.
      + destruct (decide (priority (snd entry) = priority (snd w))).
        * right. split; [assumption|lia].
        * left. lia. }
  split; [exact Hwin|]. split.
  - intros high low Hh _ Hp10 _ Hoh _.
    apply list_elem_of_lookup_1 in Hh. destruct Hh as [i Hi].
    destruct (Hwin i high Hi Hoh) as (j & w & Hj & Hc & Hw & Hcmp).
    pose proof (Habove w (list_elem_of_lookup_2 _ _ _ Hj) Hw) as Hw10.
    assert (Heq : priority (snd high) = priority (snd w)) by lia.
    assert (i = j) as ->.
    { apply (NoDup_lookup _ i j (priority (snd high)) table_priorities_distinct).
      - rewrite list_lookup_fmap, Hi. reflexivity.
      - rewrite list_lookup_fmap, Hj. simpl. rewrite Heq. reflexivity. }
    rewrite Hi in Hj. inversion Hj; subst w. exact Hc.
  - split.
    + intros Hrest entry Hin.
      destruct (keywordOccurs text (snd entry)) eqn:Hocc; [|reflexivity].
      exfalso.
      destruct (list_elem_of_lookup_1 _ _ Hin) as [i Hi].
      destruct (Hwin i entry Hi Hocc) as (j & w & Hj & Hc & Hw & _).
      pose proof table_default_entry as Hdef. rewrite Forall_forall in Hdef.
      specialize (Hdef w (list_elem_of_lookup_2 _ _ _ Hj)).
      rewrite <- Hc in Hdef. specialize (Hdef Hrest).
      unfold keywordOccurs in Hw. rewrite Hdef in Hw. discriminate Hw.
    + intros Hnone.
      destruct Hscan as [[Hb _]|(j & w & Hj & Hw & _)].
      * rewrite Hcat, Hb. reflexivity.
      * exfalso.
        pose proof (list_elem_of_lookup_2 _ _ _ Hj) as Hwin'.
        rewrite (occurs_keywordOccurs text w Hlow Hwin') in Hw.
        rewrite (Hnone w Hwin') in Hw. discriminate Hw.
Qed.

Lemma Example_keywordsLowerCase : @keywordsLowerCase Example.host.
Proof. apply (bool_decide_unpack _). vm_compute. exact I. Qed.

(** "sweet" is a Bakery/Dessert keyword (priority 3) and stands first in the
    text, "school" a School keyword (priority 10): School is returned. *)
Lemma categorizeFacility_priority_witness :
  @categorizeFacility Example.host (js "Sweet Elementary School") []
  = js "School".
Proof.
  pose proof (@categorizeFacility_priority Example.host
                (js "Sweet Elementary School") [] Example_keywordsLowerCase)
    as (_ & Hten & _).
  apply (Hten (js "School",
               mkCategory
                 [js "school"; js "elementary"; js "middle school";
                  js "high school"; js "preschool"; js "daycare";
                  js "day care"; js "childcare"; js "child care";
                  js "university"; js "college"; js "academy";
                  js "kindergarten"; js "head start"] 10)
              (js "Bakery/Dessert",
               mkCategory
                 [js "bakery"; js "cupcake"; js "donut"; js "doughnut";
                  js "ice cream"; js "gelato"; js "frozen yogurt"; js "candy";
                  js "chocolate"; js "sweet"; js "pastry"; js "cookies";
                  js "dessert"; js "confection"; js "cake"; js "fudge";
                  js "yogurt shop"] 3)).
  - apply list_elem_of_here.
  - do 7 apply list_elem_of_further. apply list_elem_of_here.
  - reflexivity.
  - reflexivity.
  - vm_compute. reflexivity.
  - vm_compute. reflexivity.
Defined.

(** ** The routine-only filter of the row reader *)

Lemma scrapeRow_Some `{Host} row record :
  scrapeRow row = Some record ->
  exists cells,
    row = RowRead cells /\
    includes (toLowerCase (inspectionTypeText cells)) (js "routine") = true /\
    inspectionType record = inspectionTypeText cells /\
    inspectionDate record = inspectionDateText cells /\
    name record = establishmentNameOf (nameAddrHtml cells) /\
    addr record = addressOf (nameAddrHtml cells).
Proof.
  destruct row as [|cells]; simpl; [discriminate|].
  destruct (cellCount cells <? 6)%nat; [discriminate|].
  destruct (includes (toLowerCase (inspectionTypeText cells)) (js "routine"))
    eqn:Hroutine; simpl; [|discriminate].
  intros Heq. inversion Heq; subst record; clear Heq. simpl.
  exists cells. repeat split; assumption.
Qed.

(** C9: a row whose inspection type, lower-cased, does not contain
    "routine" yields no record; the page's results are those of the page
    without the row; every record of the results has a routine type. *)
Theorem nonroutine_rows_skipped `{Host} :
  (forall cells,
     includes (toLowerCase (inspectionTypeText cells)) (js "routine") = false ->
     scrapeRow (RowRead cells) = None /\
     forall before after,
       scrapePageResults (before ++ RowRead cells :: after)
       = scrapePageResults (before ++ after)) /\
  (forall rows record,
     record ∈ scrapePageResults rows ->
     includes (toLowerCase (inspectionType record)) (js "routine") = true).
Proof.
  split.
  - intros cells Hnot.
    assert (Hnone : scrapeRow (RowRead cells) = None).
    { simpl. destruct (cellCount cells <? 6)%nat; [reflexivity|].
      rewrite Hnot. reflexivity. }
    split; [exact Hnone|].
    intros before after. unfold scrapePageResults.
    rewrite !omap_app. f_equal.
    change (omap scrapeRow (RowRead cells :: after))
      with (match scrapeRow (RowRead cells) with
            | Some y => y :: omap scrapeRow after
            | None => omap scrapeRow after
            end).
    rewrite Hnone. reflexivity.
  - intros rows record Hin. unfold scrapePageResults in Hin.
    apply list_elem_of_omap in Hin. destruct Hin as (row & _ & Hrow).
    apply scrapeRow_Some in Hrow.
    destruct Hrow as (cells & _ & Hroutine & Htype & _).
    rewrite Htype. exact Hroutine.
Qed.

Lemma nonroutine_rows_skipped_witness :
  @scrapeRow Example.host (RowRead Rows.complaint) = None /\
  @scrapePageResults Example.host
    [Rows.routine "Cafe Uno<br>" "2024-03-04"; RowRead Rows.complaint]
  = @scrapePageResults Example.host
      [Rows.routine "Cafe Uno<br>" "2024-03-04"].
Proof.
  destruct (@nonroutine_rows_skipped Example.host) as [Hskip _].
  destruct (Hskip Rows.complaint) as [Hnone Hpage];
    [vm_compute; reflexivity|].
  split; [exact Hnone|].
  exact (Hpage [Rows.routine "Cafe Uno<br>" "2024-03-04"] []).
Defined.

(** ** Loop detection in the crawl *)

Lemma trackDuplicate_all_seen results d seen :
  (forall r, r ∈ results -> seenKey r ∈ seen) ->
  fold_left trackDuplicate results (d, seen)
  = (d + Z.of_nat (length results), seen).
Proof.
  revert d. induction results as [|r rs IH]; intros d Hall; simpl.
  - f_equal. lia.
  - destruct (decide (seenKey r ∈ seen)) as [_|Hn].
    + rewrite IH.
      * f_equal. lia.
      * intros r' Hr'. apply Hall. right. exact Hr'.
    + exfalso. apply Hn, Hall. left.
Qed.

Lemma trackDuplicate_bound results d seen :
  d <= fst (fold_left trackDuplicate results (d, seen))
    <= d + Z.of_nat (length results).
Proof.
  revert d seen. induction results as [|r rs IH]; intros d seen; simpl.
  - lia.
  - destruct (decide (seenKey r ∈ seen)).
    + specialize (IH (d + 1) seen). lia.
    + specialize (IH d ({[seenKey r]} ∪ seen)). lia.
Qed.

Lemma trackDuplicate_some_new results d seen :
  someNew seen results ->
  fst (fold_left trackDuplicate results (d, seen))
  < d + Z.of_nat (length results).
Proof.
  revert d. induction results as [|r rs IH]; intros d (x & Hin & Hnew).
  - inversion Hin.
  - simpl. destruct (decide (seenKey r ∈ seen)) as [Hs|Hn].
    + assert (Hrs : someNew seen rs).
      { exists x. split; [|exact Hnew].
        apply elem_of_cons in Hin. destruct Hin as [->|Hin]; [|exact Hin].
        contradiction. }
      specialize (IH (d + 1) Hrs). lia.
    + pose proof (trackDuplicate_bound rs d ({[seenKey r]} ∪ seen)). lia.
Qed.

Lemma advance_keeps st1 view :
  let s := advance st1 view in
  consecutiveDuplicatePages (stateOf s) = consecutiveDuplicatePages st1 /\
  seenEstablishments (stateOf s) = seenEstablishments st1 /\
  allResults (stateOf s) = allResults st1 /\
  reasonOf s <> Some PaginationLoop.
Proof.
  unfold advance. destruct (mainPager view) as [pager|]; simpl.
  - destruct (currentPageOf pager =? pageNum st1); simpl;
      [|repeat split; discriminate].
    destruct (nextPageExists pager); simpl.
    + destruct (pageNum st1 + 1 >? 1000); simpl; repeat split; discriminate.
    + destruct (ellipsisExists pager); [destruct (ellipsisVerified pager)|];
        simpl; repeat split; discriminate.
  - repeat split; discriminate.
Qed.

(** An iteration on a page of duplicates only. *)
Lemma crawlStep_duplicates `{Host} st view :
  allDuplicates (seenEstablishments st) (scrapePageResults (rows view)) ->
  let st1 :=
    {| allResults := allResults st ++ scrapePageResults (rows view);
       pageNum := pageNum st;
       seenEstablishments := seenEstablishments st;
       consecutiveDuplicatePages := consecutiveDuplicatePages st + 1 |} in
  crawlStep st view
  = if consecutiveDuplicatePages st + 1 >=? MAX_DUPLICATE_PAGES
    then Break PaginationLoop st1 else advance st1 view.
Proof.
  intros [Hne Hall] st1. unfold crawlStep.
  rewrite (trackDuplicate_all_seen _ 0 _ Hall).
  assert (Hpos : (0 <? Z.of_nat (length (scrapePageResults (rows view)))) = true).
  { destruct (scrapePageResults (rows view)); [contradiction|].
    simpl length. apply Z.ltb_lt. lia. }
  rewrite Hpos, Z.add_0_l, Z.eqb_refl. simpl. reflexivity.
Qed.

(** An iteration on a page that is empty or has a record not seen before. *)
Lemma crawlStep_fresh `{Host} st view :
  scrapePageResults (rows view) = []
  \/ someNew (seenEstablishments st) (scrapePageResults (rows view)) ->
  exists seen,
    crawlStep st view
    = advance
        {| allResults := allResults st ++ scrapePageResults (rows view);
           pageNum := pageNum st;
           seenEstablishments := seen;
           consecutiveDuplicatePages := 0 |}
        view.
Proof.
  intros Hfresh. unfold crawlStep.
  destruct (fold_left trackDuplicate (scrapePageResults (rows view))
              (0, seenEstablishments st)) as [dups seen] eqn:Hfold.
  exists seen.
  assert (Hnot : ((0 <? Z.of_nat (length (scrapePageResults (rows view))))
                  && (dups =? Z.of_nat (length (scrapePageResults (rows view)))))
                 = false).
  { destruct Hfresh as [Hnil|Hnew].
    - rewrite Hnil. reflexivity.
    - pose proof (trackDuplicate_some_new _ 0 _ Hnew) as Hlt.
      rewrite Hfold in Hlt. simpl in Hlt.
      apply andb_false_iff. right. apply Z.eqb_neq. lia. }
  rewrite Hnot. simpl. reflexivity.
Qed.

(** C5: a non-empty page whose records were all seen before adds one to
    [consecutiveDuplicatePages], and the crawl stops with the pagination-loop
    failure exactly when that makes 3; a page with a record not seen before
    puts the counter back to 0 and is no such stop.  So from a counter at 0,
    a third page of duplicates in a row stops the crawl with that failure,
    and two such pages followed by a page with a new record do not. *)
Theorem loop_detection `{Host} (st : CrawlState) :
  (forall view,
     allDuplicates (seenEstablishments st) (scrapePageResults (rows view)) ->
     consecutiveDuplicatePages (stateOf (crawlStep st view))
     = consecutiveDuplicatePages st + 1 /\
     seenEstablishments (stateOf (crawlStep st view)) = seenEstablishments st /\
     (reasonOf (crawlStep st view) = Some PaginationLoop
      <-> 3 <= consecutiveDuplicatePages st + 1)) /\
  (forall view,
     someNew (seenEstablishments st) (scrapePageResults (rows view)) ->
     consecutiveDuplicatePages (stateOf (crawlStep st view)) = 0 /\
     reasonOf (crawlStep st view) <> Some PaginationLoop) /\
  (forall v1 v2 v3 st1 st2 more,
     consecutiveDuplicatePages st = 0 ->
     allDuplicates (seenEstablishments st) (scrapePageResults (rows v1)) ->
     crawlStep st v1 = Continue st1 ->
     allDuplicates (seenEstablishments st1) (scrapePageResults (rows v2)) ->
     crawlStep st1 v2 = Continue st2 ->
     allDuplicates (seenEstablishments st2) (scrapePageResults (rows v3)) ->
     exists st3,
       crawlLoop st (v1 :: v2 :: v3 :: more) = Finished PaginationLoop st3 /\
       consecutiveDuplicatePages st3 = 3) /\
  (forall v1 v2 v3,
     consecutiveDuplicatePages st = 0 ->
     allDuplicates (seenEstablishments st) (scrapePageResults (rows v1)) ->
     allDuplicates (seenEstablishments st) (scrapePageResults (rows v2)) ->
     someNew (seenEstablishments st) (scrapePageResults (rows v3)) ->
     forall st3, crawlLoop st [v1; v2; v3] <> Finished PaginationLoop st3).
Proof.
  assert (Hdup : forall st0 view,
            allDuplicates (seenEstablishments st0)
              (scrapePageResults (rows view)) ->
            consecutiveDuplicatePages (stateOf (crawlStep st0 view))
            = consecutiveDuplicatePages st0 + 1 /\
            seenEstablishments (stateOf (crawlStep st0 view))
            = seenEstablishments st0 /\
            (reasonOf (crawlStep st0 view) = Some PaginationLoop
             <-> 3 <= consecutiveDuplicatePages st0 + 1)).
  { intros st0 view Hd. rewrite (crawlStep_duplicates st0 view Hd).
    unfold MAX_DUPLICATE_PAGES.
    destruct (consecutiveDuplicatePages st0 + 1 >=? 3) eqn:Hge.
    - simpl. repeat split; auto. intros _. lia.
    - match goal with |- context [advance ?s view] =>
        destruct (advance_keeps s view) as (Hc & Hs & _ & Hr) end.
      rewrite Hc, Hs. simpl. repeat split; auto.
      + intros Hr'. contradiction.
      + intros Hle. lia. }
  assert (Hnew : forall st0 view,
            someNew (seenEstablishments st0) (scrapePageResults (rows view)) ->
            consecutiveDuplicatePages (stateOf (crawlStep st0 view)) = 0 /\
            reasonOf (crawlStep st0 view) <> Some PaginationLoop).
  { intros st0 view Hn.
    destruct (crawlStep_fresh st0 view (or_intror Hn)) as [seen ->].
    match goal with |- context [advance ?s view] =>
      destruct (advance_keeps s view) as (Hc & _ & _ & Hr) end.
    rewrite Hc. split; [reflexivity|exact Hr]. }
  split; [apply Hdup|]. split; [apply Hnew|]. split.
  - intros v1 v2 v3 st1 st2 more H0 Hd1 Hs1 Hd2 Hs2 Hd3.
    destruct (Hdup st v1 Hd1) as (Hc1 & _ & _). rewrite Hs1 in Hc1.
    destruct (Hdup st1 v2 Hd2) as (Hc2 & _ & _). rewrite Hs2 in Hc2.
    simpl in Hc1, Hc2.
    destruct (Hdup st2 v3 Hd3) as (Hc3 & _ & Hr3).
    assert (Hr : reasonOf (crawlStep st2 v3) = Some PaginationLoop)
      by (apply Hr3; lia).
    simpl. rewrite Hs1, Hs2.
    destruct (crawlStep st2 v3) as [st3|why st3]; simpl in Hr;
      [discriminate|].
    inversion Hr; subst why. exists st3. split; [reflexivity|].
    simpl in Hc3. lia.
  - intros v1 v2 v3 H0 Hd1 Hd2 Hn3 st3 Hloop. simpl in Hloop.
    destruct (Hdup st v1 Hd1) as (Hc1 & Hseen1 & Hr1).
    destruct (crawlStep st v1) as [st1|why1 st1'] eqn:Hs1.
    + simpl in Hc1, Hseen1. rewrite <- Hseen1 in Hd2, Hn3.
      destruct (Hdup st1 v2 Hd2) as (Hc2 & Hseen2 & Hr2).
      destruct (crawlStep st1 v2) as [st2|why2 st2'] eqn:Hs2.
      * simpl in Hc2, Hseen2. rewrite <- Hseen2 in Hn3.
        destruct (Hnew st2 v3 Hn3) as [_ Hr3].
        destruct (crawlStep st2 v3) as [?|why3 ?]; [discriminate|].
        inversion Hloop; subst why3. apply Hr3. reflexivity.
      * inversion Hloop; subst why2. simpl in Hr2.
        destruct Hr2 as [Hr2 _]. specialize (Hr2 eq_refl). lia.
    + inversion Hloop; subst why1. simpl in Hr1.
      destruct Hr1 as [Hr1 _]. specialize (Hr1 eq_refl). lia.
Qed.

Lemma allDuplicates_check seen results :
  bool_decide (results <> [])
  && forallb (fun r => bool_decide (seenKey r ∈ seen)) results = true ->
  allDuplicates seen results.
Proof.
  intros Hb. apply andb_true_iff in Hb. destruct Hb as [Hne Hall].
  split; [apply bool_decide_eq_true in Hne; exact Hne|].
  intros r Hr. rewrite forallb_forall in Hall.
  apply list_elem_of_In in Hr. specialize (Hall r Hr).
  apply bool_decide_eq_true in Hall. exact Hall.
Qed.

Lemma someNew_check seen results :
  existsb (fun r => negb (bool_decide (seenKey r ∈ seen))) results = true ->
  someNew seen results.
Proof.
  intros Hb. apply existsb_exists in Hb. destruct Hb as (r & Hr & Hn).
  exists r. split; [apply list_elem_of_In, Hr|].
  intros Hin. apply negb_true_iff, bool_decide_eq_false in Hn.
  contradiction.
Qed.

(** After a page with Cafe Uno, the grid shows Cafe Uno on pages 2, 3 and
    4: the crawl stops on page 4 with the pagination-loop failure.  Were
    Cafe Due on page 4 as well, it would not. *)
Lemma loop_detection_witness :
  (exists st3,
     @crawlLoop Example.host Grid.afterFirst
       [Grid.page 2 [Grid.uno]; Grid.page 3 [Grid.uno]; Grid.page 4 [Grid.uno]]
     = Finished PaginationLoop st3 /\
     consecutiveDuplicatePages st3 = 3) /\
  (forall st3,
     @crawlLoop Example.host Grid.afterFirst
       [Grid.page 2 [Grid.uno]; Grid.page 3 [Grid.uno];
        Grid.page 4 [Grid.uno; Grid.due]]
     <> Finished PaginationLoop st3).
Proof.
  destruct (@loop_detection Example.host Grid.afterFirst)
    as (_ & _ & Hthree & Htwo).
  split.
  - apply (Hthree (Grid.page 2 [Grid.uno]) (Grid.page 3 [Grid.uno])
             (Grid.page 4 [Grid.uno])
             (stateOf (@crawlStep Example.host Grid.afterFirst
                         (Grid.page 2 [Grid.uno])))
             (stateOf (@crawlStep Example.host
                         (stateOf (@crawlStep Example.host Grid.afterFirst
                                     (Grid.page 2 [Grid.uno])))
                         (Grid.page 3 [Grid.uno])))
             []).
    + vm_compute. reflexivity.
    + apply allDuplicates_check. vm_compute. reflexivity.
    + vm_compute. reflexivity.
    + apply allDuplicates_check. vm_compute. reflexivity.
    + vm_compute. reflexivity.
    + apply allDuplicates_check. vm_compute. reflexivity.
  - apply (Htwo (Grid.page 2 [Grid.uno]) (Grid.page 3 [Grid.uno])
             (Grid.page 4 [Grid.uno; Grid.due])).
    + vm_compute. reflexivity.
    + apply allDuplicates_check. vm_compute. reflexivity.
    + apply allDuplicates_check. vm_compute. reflexivity.
    + apply someNew_check. vm_compute. reflexivity.
Defined.

(** ** The page ceiling *)

(** What the first half of an iteration hands to [advance]. *)
Lemma crawlStep_shape `{Host} st view :
  exists seen count,
    let st1 :=
      {| allResults := allResults st ++ scrapePageResults (rows view);
         pageNum := pageNum st;
         seenEstablishments := seen;
         consecutiveDuplicatePages := count |} in
    (count = 0 \/ count = consecutiveDuplicatePages st + 1) /\
    ((crawlStep st view = Break PaginationLoop st1 /\ 3 <= count)
     \/ crawlStep st view = advance st1 view).
Proof.
  unfold crawlStep.
  destruct (fold_left trackDuplicate (scrapePageResults (rows view))
              (0, seenEstablishments st)) as [dups seen].
  destruct ((0 <? Z.of_nat (length (scrapePageResults (rows view))))
            && (dups =? Z.of_nat (length (scrapePageResults (rows view)))));
    simpl.
  - exists seen, (consecutiveDuplicatePages st + 1). cbv zeta.
    split; [right; reflexivity|]. unfold MAX_DUPLICATE_PAGES.
    destruct (consecutiveDuplicatePages st + 1 >=? 3) eqn:Hge.
    + left. split; [reflexivity|lia].
    + right. reflexivity.
  - exists seen, 0. cbv zeta. split; [left; reflexivity|].
    right. reflexivity.
Qed.

(** The link path checks the ceiling: an iteration that goes on by the
    link to the next page leaves [pageNum] at 1000 or below. *)
Lemma link_advance_checks_limit `{Host} st view pager st' :
  mainPager view = Some pager -> nextPageExists pager = true ->
  crawlStep st view = Continue st' -> pageNum st' <= 1000.
Proof.
  intros Hp Hnext Hstep.
  destruct (crawlStep_shape st view) as (seen & count & _ & [[Hb _]|Ha]);
    cbv zeta in *; [congruence|].
  rewrite Ha in Hstep. unfold advance in Hstep. rewrite Hp in Hstep.
  simpl in Hstep.
  destruct (currentPageOf pager =? pageNum st); simpl in Hstep;
    [|discriminate].
  rewrite Hnext in Hstep. simpl in Hstep.
  destruct (pageNum st + 1 >? 1000) eqn:Hgt; [discriminate|].
  inversion Hstep; subst st'. simpl. lia.
Qed.

(** C6, as the code has it: when the pager has no link to the next page
    and "..." leads on, the iteration ends in [continue] before the check
    of the ceiling.  From page 1000 on, the loop goes on with [pageNum]
    above 1000 and scrapes the page it is shown next. *)
Theorem ellipsis_advance_skips_limit `{Host} st view pager :
  1000 <= pageNum st ->
  consecutiveDuplicatePages st = 0 ->
  mainPager view = Some pager ->
  currentPageOf pager = pageNum st ->
  nextPageExists pager = false ->
  ellipsisExists pager = true ->
  ellipsisVerified pager = true ->
  exists st',
    crawlStep st view = Continue st' /\
    pageNum st' = pageNum st + 1 /\
    1000 < pageNum st' /\
    forall view',
      allResults (stateOf (crawlStep st' view'))
      = allResults st' ++ scrapePageResults (rows view').
Proof.
  intros Hlim Hzero Hp Hcur Hnext Hell Hver.
  destruct (crawlStep_shape st view)
    as (seen & count & Hcount & [[_ Hthree]|Ha]); cbv zeta in *; [lia|].
  unfold advance in Ha. rewrite Hp in Ha. simpl in Ha.
  rewrite Hcur, Z.eqb_refl, Hnext, Hell, Hver in Ha. simpl in Ha.
  eexists. split; [exact Ha|]. simpl. split; [reflexivity|].
  split; [lia|].
  intros view'.
  match goal with |- context [crawlStep ?s view'] =>
    destruct (crawlStep_shape s view')
      as (seen' & count' & _ & [[Hb _]|Hb]); cbv zeta in Hb; rewrite Hb
  end.
  - reflexivity.
  - match goal with |- context [advance ?s view'] =>
      destruct (advance_keeps s view') as (_ & _ & Hres & _) end.
    rewrite Hres. reflexivity.
Qed.

(** The crawl reaches page 1000 through the first 999 pages. *)
Lemma crawl_reaches_page_1000 :
  @crawlLoop Example.host crawlStart Ceiling.firstPages
  = Awaiting Ceiling.atPage1000.
Proof. vm_compute. reflexivity. Qed.

(** On page 1000 the pager of ten links shows "..."; the crawl goes on to
    page 1001. *)
Lemma ellipsis_advance_skips_limit_witness :
  exists st',
    @crawlStep Example.host Ceiling.atPage1000 (Grid.page 1000 [])
    = Continue st' /\
    pageNum st' = 1000 + 1 /\
    1000 < pageNum st' /\
    forall view',
      allResults (stateOf (@crawlStep Example.host st' view'))
      = allResults st' ++ @scrapePageResults Example.host (rows view').
Proof.
  apply (@ellipsis_advance_skips_limit Example.host Ceiling.atPage1000
           (Grid.page 1000 [])
           (mkPager (Some 1000) false true true));
    first [reflexivity | vm_compute; discriminate].
Defined.

(** The whole run: 1001 pages, the last one scraped with [pageNum] at
    1001, its row among the results. *)
Lemma crawl_scrapes_page_1001 :
  exists st,
    @crawlLoop Example.host crawlStart
      (Ceiling.firstPages ++ [Grid.page 1000 []; Ceiling.page1001])
    = Finished NoMorePages st /\
    pageNum st = 1001 /\
    length (allResults st) = 1%nat.
Proof. eexists. vm_compute. repeat split. Qed.

(** *** Keys in order of first occurrence *)

Lemma elem_of_firstOccurrences k keys :
  k ∈ firstOccurrences keys <-> k ∈ keys.
Proof.
  induction keys as [|a keys IH]; simpl; [reflexivity|].
  rewrite !elem_of_cons, list_elem_of_filter, IH.
  destruct (decide (k = a)); tauto.
Qed.

Lemma NoDup_firstOccurrences keys : NoDup (firstOccurrences keys).
Proof.
  induction keys as [|a keys IH]; simpl; [constructor|].
  constructor.
  - rewrite list_elem_of_filter. tauto.
  - apply NoDup_filter, IH.
Qed.

Lemma firstOccurrences_snoc keys k :
  firstOccurrences (keys ++ [k])
  = if decide (k ∈ keys) then firstOccurrences keys
    else firstOccurrences keys ++ [k].
Proof.
  induction keys as [|a keys IH]; simpl.
  - destruct (decide (k ∈ [])) as [Hin|_]; [inversion Hin|reflexivity].
  - rewrite IH.
    destruct (decide (k ∈ keys)) as [Hin|Hnin].
    + destruct (decide (k ∈ a :: keys)) as [_|Hn]; [reflexivity|].
      exfalso. apply Hn. right. exact Hin.
    + rewrite filter_app.
      destruct (decide (k = a)) as [->|Hne].
      * destruct (decide (a ∈ a :: keys)) as [_|Hn];
          [|exfalso; apply Hn; left].
        rewrite filter_cons_False by tauto.
        rewrite filter_nil, app_nil_r. reflexivity.
      * destruct (decide (k ∈ a :: keys)) as [Hin|_].
        -- apply elem_of_cons in Hin. tauto.
        -- rewrite filter_cons_True by exact Hne. reflexivity.
Qed.

Lemma filter_other_keys (a : jsstring) (keys : list jsstring) :
  a ∉ keys -> filter (fun k' => k' <> a) keys = keys.
Proof.
  induction keys as [|b keys IH]; intros Hnin; [reflexivity|].
  apply not_elem_of_cons in Hnin. destruct Hnin as [Hne Hnin].
  rewrite filter_cons_True by congruence.
  rewrite IH by exact Hnin. reflexivity.
Qed.

Lemma firstOccurrences_NoDup keys :
  NoDup keys -> firstOccurrences keys = keys.
Proof.
  induction 1 as [|a keys Hnin _ IH]; simpl; [reflexivity|].
  rewrite IH, filter_other_keys by exact Hnin. reflexivity.
Qed.

Lemma firstOccurrences_app_seen keys more :
  (forall k, k ∈ more -> k ∈ keys) ->
  firstOccurrences (keys ++ more) = firstOccurrences keys.
Proof.
  induction more as [|k more IH] using rev_ind; intros Hsub.
  - rewrite app_nil_r. reflexivity.
  - rewrite app_assoc, firstOccurrences_snoc.
    destruct (decide (k ∈ keys ++ more)) as [_|Hn].
    + apply IH. intros k' Hk'. apply Hsub, elem_of_app. left. exact Hk'.
    + exfalso. apply Hn, elem_of_app. left. apply Hsub, elem_of_app.
      right. left.
Qed.

(** *** The map in insertion order *)

Lemma mapGet_None key (m : jsMap) :
  mapGet key m = None <-> key ∉ List.map fst m.
Proof.
  induction m as [|[k v] m IH]; simpl.
  - split; [intros _ Hin; inversion Hin|reflexivity].
  - rewrite not_elem_of_cons. destruct (decide (k = key)) as [->|Hne].
    + split; [discriminate|]. intros [Hne _]. contradiction.
    + rewrite IH. split; [intros Hn; split; [congruence|exact Hn]|tauto].
Qed.

Lemma mapGet_Some key (m : jsMap) e :
  mapGet key m = Some e -> (key, e) ∈ m.
Proof.
  induction m as [|[k v] m IH]; simpl; [discriminate|].
  destruct (decide (k = key)) as [->|Hne].
  - intros [= ->]. left.
  - intros Hget. right. apply IH, Hget.
Qed.

Lemma mapSet_fresh key v (m : jsMap) :
  mapGet key m = None -> mapSet key v m = m ++ [(key, v)].
Proof.
  induction m as [|[k v'] m IH]; simpl; [reflexivity|].
  destruct (decide (k = key)); [discriminate|].
  intros Hget. rewrite IH by exact Hget. reflexivity.
Qed.

Lemma mapSet_keys key v (m : jsMap) e :
  mapGet key m = Some e -> List.map fst (mapSet key v m) = List.map fst m.
Proof.
  induction m as [|[k v'] m IH]; simpl; [discriminate|].
  destruct (decide (k = key)); simpl; [reflexivity|].
  intros Hget. rewrite IH by exact Hget. reflexivity.
Qed.

Lemma elem_of_mapSet key v (m : jsMap) k e :
  NoDup (List.map fst m) ->
  (k, e) ∈ mapSet key v m ->
  (k = key /\ e = v) \/ (k <> key /\ (k, e) ∈ m).
Proof.
  induction m as [|[a x] m IH]; simpl; intros Hnd Hin.
  - apply list_elem_of_singleton in Hin. inversion Hin. left. auto.
  - apply NoDup_cons in Hnd. destruct Hnd as [Ha Hnd].
    destruct (decide (a = key)) as [->|Hne].
    + apply elem_of_cons in Hin. destruct Hin as [Heq|Hin].
      * inversion Heq. left. auto.
      * right. split; [|right; exact Hin].
        intros ->. apply Ha.
        apply (list_elem_of_fmap_2 fst) in Hin. exact Hin.
    + apply elem_of_cons in Hin. destruct Hin as [Heq|Hin].
      * inversion Heq; subst. right. split; [exact Hne|left].
      * destruct (IH Hnd Hin) as [Hl|[Hk Hr]]; [left; exact Hl|].
        right. split; [exact Hk|right; exact Hr].
Qed.

(** *** Groups and their kept record *)

Section Groups.
Context `{Host}.

Lemma crossKey_setFacilityType r v :
  crossKey (setFacilityType r v) = crossKey r.
Proof. reflexivity. Qed.

Lemma crossKey_backfill kept new : crossKey (backfill kept new) = crossKey kept.
Proof. unfold backfill. destruct (_ && _); reflexivity. Qed.

Lemma inspectionDate_backfill kept new :
  inspectionDate (backfill kept new) = inspectionDate kept.
Proof. unfold backfill. destruct (_ && _); reflexivity. Qed.

Lemma crossKey_absorb key kept new :
  crossKey kept = key -> crossKey new = key -> crossKey (absorb kept new) = key.
Proof.
  intros Hk Hn. unfold absorb. cbv zeta.
  destruct (laterDate _ _); [exact Hn|].
  rewrite crossKey_backfill. exact Hk.
Qed.

Lemma crossKey_fold_absorb key rest first :
  crossKey first = key -> Forall (fun r => crossKey r = key) rest ->
  crossKey (fold_left absorb rest first) = key.
Proof.
  intros Hfirst Hrest. revert first Hfirst.
  induction Hrest as [|r rest Hr _ IH]; intros first Hfirst; simpl.
  - exact Hfirst.
  - apply IH, crossKey_absorb; assumption.
Qed.

Lemma group_keys key data : Forall (fun r => crossKey r = key) (group key data).
Proof.
  apply Forall_forall. intros r Hin. unfold group in Hin.
  apply list_elem_of_filter in Hin. tauto.
Qed.

Lemma keptRecord_key key data x :
  keptRecord key data = Some x -> crossKey x = key.
Proof.
  unfold keptRecord. pose proof (group_keys key data) as Hg.
  destruct (group key data) as [|first rest]; [discriminate|].
  intros [= <-]. apply Forall_cons in Hg. destruct Hg as [Hf Hr].
  apply crossKey_fold_absorb; assumption.
Qed.

Lemma keptRecord_absent key data :
  key ∉ List.map crossKey data -> keptRecord key data = None.
Proof.
  intros Hnin. unfold keptRecord.
  destruct (group key data) as [|first rest] eqn:Hg; [reflexivity|].
  exfalso. apply Hnin.
  assert (Hin : first ∈ group key data) by (rewrite Hg; left).
  unfold group in Hin. apply list_elem_of_filter in Hin.
  destruct Hin as [<- Hin]. apply list_elem_of_fmap_2, Hin.
Qed.

Lemma keptRecord_present key data :
  key ∈ List.map crossKey data -> is_Some (keptRecord key data).
Proof.
  intros Hin. apply list_elem_of_fmap_1 in Hin.
  destruct Hin as (r & -> & Hin). unfold keptRecord.
  destruct (group (crossKey r) data) as [|first rest] eqn:Hg; [|eauto].
  exfalso.
  assert (Hr : r ∈ group (crossKey r) data).
  { unfold group. apply list_elem_of_filter. auto. }
  rewrite Hg in Hr. inversion Hr.
Qed.

Lemma keptRecord_snoc_same key data r :
  crossKey r = key ->
  keptRecord key (data ++ [r])
  = Some (match keptRecord key data with
          | Some kept => absorb kept r
          | None => r
          end).
Proof.
  intros Hk. unfold keptRecord, group. rewrite filter_app.
  rewrite filter_cons_True by exact Hk. rewrite filter_nil.
  destruct (filter _ data) as [|first rest]; simpl; [reflexivity|].
  rewrite fold_left_app. reflexivity.
Qed.

Lemma keptRecord_snoc_other key data r :
  crossKey r <> key -> keptRecord key (data ++ [r]) = keptRecord key data.
Proof.
  intros Hk. unfold keptRecord, group. rewrite filter_app.
  rewrite filter_cons_False by exact Hk. rewrite filter_nil, app_nil_r.
  reflexivity.
Qed.

Lemma absorb_self r : absorb r r = r.
Proof.
  unfold absorb, laterDate, backfill. cbv zeta.
  destruct (dateValue (inspectionDate r)) as [d|].
  - rewrite Z.gtb_ltb, Z.ltb_irrefl.
    destruct (truthy (facilityType r)); reflexivity.
  - destruct (truthy (facilityType r)); reflexivity.
Qed.

End Groups.

(** *** The loop keeps, per key, the group's kept record *)

Lemma mapGet_elem_of key (m : jsMap) e :
  NoDup (List.map fst m) -> (key, e) ∈ m -> mapGet key m = Some e.
Proof.
  induction m as [|[k v] m IH]; simpl; intros Hnd Hin; [inversion Hin|].
  apply NoDup_cons in Hnd. destruct Hnd as [Hk Hnd].
  apply elem_of_cons in Hin.
  destruct (decide (k = key)) as [->|Hne].
  - destruct Hin as [Heq|Hin]; [inversion Heq; reflexivity|].
    exfalso. apply Hk. apply (list_elem_of_fmap_2 fst) in Hin. exact Hin.
  - destruct Hin as [Heq|Hin]; [inversion Heq; congruence|].
    apply IH; assumption.
Qed.

Lemma deref_snoc (h : store) refs l r :
  h !! l = Some r -> deref h (refs ++ [l]) = deref h refs ++ [r].
Proof.
  intros Hl. unfold deref. rewrite omap_app. f_equal.
  change (omap (fun r0 => h !! r0) [l])
    with (match h !! l with Some y => [y] | None => [] end).
  rewrite Hl. reflexivity.
Qed.

Section MergeInvariant.
Context `{Host}.
Variable h0 : store.

Lemma mergeInv_start : mergeInv h0 [] (h0, []).
Proof.
  split; [reflexivity|]. split; [reflexivity|]. split; [reflexivity|].
  intros k e Hin. inversion Hin.
Qed.

Lemma mergeStep_inv pre st l r :
  mergeInv h0 pre st -> l ∉ pre -> h0 !! l = Some r ->
  mergeInv h0 (pre ++ [l]) (mergeStep st l).
Proof.
  destruct st as [h m]. intros (Hlen & Hframe & Hkeys & Hkept) Hl Hr.
  simpl in Hlen, Hframe, Hkeys, Hkept.
  assert (Hhl : h !! l = Some r) by (rewrite Hframe; auto).
  assert (Hnd : NoDup (List.map fst m))
    by (rewrite Hkeys; apply NoDup_firstOccurrences).
  unfold mergeStep. rewrite Hhl.
  unfold mergeInv. rewrite (deref_snoc h0 pre l r Hr).
  rewrite map_app. simpl List.map. rewrite firstOccurrences_snoc.
  destruct (mapGet (crossKey r) m) as [e|] eqn:Hget.
  - (* the key is in the map, for the object at [e] *)
    pose proof (mapGet_Some _ _ _ Hget) as Hin.
    destruct (Hkept _ _ Hin) as [He Hhe].
    assert (Hk : crossKey r ∈ List.map crossKey (deref h0 pre)).
    { apply elem_of_firstOccurrences. rewrite <- Hkeys.
      apply (list_elem_of_fmap_2 fst) in Hin. exact Hin. }
    destruct (keptRecord_present _ _ Hk) as [existing Hex].
    rewrite Hex in Hhe. rewrite Hhe.
    destruct (decide (crossKey r ∈ List.map crossKey (deref h0 pre)));
      [|contradiction].
    assert (Hle : l <> e) by (intros ->; contradiction).
    pose proof (lookup_lt_Some _ _ _ Hhe) as Helt.
    set (fill := truthy (facilityType r) && negb (truthy (facilityType existing))).
    set (later := laterDate (inspectionDate r) (inspectionDate existing)).
    simpl fst. simpl snd.
    split; [|split; [|split]].
    + destruct fill; rewrite ?length_insert; exact Hlen.
    + intros l' Hl'. apply not_elem_of_app in Hl'. destruct Hl' as [Hpre _].
      assert (l' <> e) by (intros ->; contradiction).
      destruct fill; rewrite ?list_lookup_insert_ne by congruence;
        apply Hframe, Hpre.
    + destruct later; rewrite ?(mapSet_keys _ _ _ _ Hget); exact Hkeys.
    + intros k e' Hin'.
      assert (Hcase : (k = crossKey r /\ e' = if later then l else e)
                      \/ (k <> crossKey r /\ (k, e') ∈ m)).
      { destruct later.
        - apply elem_of_mapSet; assumption.
        - destruct (decide (k = crossKey r)) as [->|Hne]; [|right; auto].
          left. split; [reflexivity|].
          pose proof (mapGet_elem_of _ _ _ Hnd Hin') as Hget'. congruence. }
      destruct Hcase as [[-> ->]|[Hne Hin0]].
      * rewrite (keptRecord_snoc_same (crossKey r)) by reflexivity.
        rewrite Hex. unfold absorb. cbv zeta. fold later.
        destruct later.
        -- split; [apply elem_of_app; right; left|].
           destruct fill; rewrite ?list_lookup_insert_ne by congruence;
             exact Hhl.
        -- split; [apply elem_of_app; left; exact He|].
           unfold backfill. fold fill. destruct fill.
           ++ rewrite list_lookup_insert_eq by exact Helt. reflexivity.
           ++ exact Hhe.
      * rewrite keptRecord_snoc_other by congruence.
        destruct (Hkept k e' Hin0) as [He' Hhe'].
        split; [apply elem_of_app; left; exact He'|].
        assert (e' <> e).
        { intros ->. rewrite Hhe in Hhe'. symmetry in Hhe'.
          apply keptRecord_key in Hhe'. apply keptRecord_key in Hex.
          congruence. }
        destruct fill; rewrite ?list_lookup_insert_ne by congruence;
          exact Hhe'.
  - (* a key not yet in the map *)
    assert (Hk : crossKey r ∉ List.map crossKey (deref h0 pre)).
    { rewrite <- elem_of_firstOccurrences, <- Hkeys.
      apply mapGet_None, Hget. }
    destruct (decide (crossKey r ∈ List.map crossKey (deref h0 pre)));
      [contradiction|].
    rewrite (mapSet_fresh _ _ _ Hget). simpl fst. simpl snd.
    split; [exact Hlen|]. split; [|split].
    + intros l' Hl'. apply not_elem_of_app in Hl'. apply Hframe. tauto.
    + rewrite map_app, Hkeys. reflexivity.
    + intros k e' Hin'. apply elem_of_app in Hin'.
      destruct Hin' as [Hin'|Hin'].
      * destruct (Hkept k e' Hin') as [He' Hhe'].
        split; [apply elem_of_app; left; exact He'|].
        rewrite keptRecord_snoc_other; [exact Hhe'|].
        intros Heq. apply Hk. rewrite Heq, <- elem_of_firstOccurrences, <- Hkeys.
        apply (list_elem_of_fmap_2 fst) in Hin'. exact Hin'.
      * apply list_elem_of_singleton in Hin'. inversion Hin'; subst k e'.
        split; [apply elem_of_app; right; left|].
        rewrite (keptRecord_snoc_same (crossKey r)) by reflexivity.
        rewrite (keptRecord_absent _ _ Hk). exact Hhl.
Qed.

Lemma mergeFold_inv suf pre st :
  mergeInv h0 pre st -> NoDup (pre ++ suf) ->
  (forall l, l ∈ suf -> is_Some (h0 !! l)) ->
  mergeInv h0 (pre ++ suf) (fold_left mergeStep suf st).
Proof.
  revert pre st. induction suf as [|l suf IH]; intros pre st Hinv Hnd Hval.
  - rewrite app_nil_r. exact Hinv.
  - simpl. replace (pre ++ l :: suf) with ((pre ++ [l]) ++ suf)
      by (rewrite <- app_assoc; reflexivity).
    destruct (Hval l) as [r Hr]; [left|].
    apply IH.
    + apply (mergeStep_inv pre st l r Hinv); [|exact Hr].
      apply NoDup_app in Hnd. destruct Hnd as (_ & Hdisj & _).
      intros Hin. apply (Hdisj l Hin). left.
    + rewrite <- app_assoc. exact Hnd.
    + intros l' Hl'. apply Hval. right. exact Hl'.
Qed.

End MergeInvariant.

(** *** The merge engine and the grouped merge agree *)

Lemma deref_seq_app (pre data : store) :
  deref (pre ++ data) (seq (length pre) (length data)) = data.
Proof.
  revert pre. induction data as [|x data IH]; intros pre; [reflexivity|].
  simpl seq. unfold deref.
  change (omap (fun r => (pre ++ x :: data) !! r)
            (length pre :: seq (S (length pre)) (length data)))
    with (match (pre ++ x :: data) !! length pre with
          | Some y => y :: deref (pre ++ x :: data)
                             (seq (S (length pre)) (length data))
          | None => deref (pre ++ x :: data)
                      (seq (S (length pre)) (length data))
          end).
  rewrite list_lookup_middle by reflexivity. f_equal.
  replace (pre ++ x :: data) with ((pre ++ [x]) ++ data)
    by (rewrite <- app_assoc; reflexivity).
  replace (S (length pre)) with (length (pre ++ [x]))
    by (rewrite length_app; simpl; lia).
  apply IH.
Qed.

Lemma deref_seq (data : store) : deref data (seq 0 (length data)) = data.
Proof. exact (deref_seq_app [] data). Qed.

Lemma omap_values_keys {A : Type} (f : loc -> option A)
    (g : jsstring -> option A) (m : jsMap) :
  (forall k e, (k, e) ∈ m -> f e = g k) ->
  omap f (List.map snd m) = omap g (List.map fst m).
Proof.
  induction m as [|[k e] m IH]; intros Hfg; [reflexivity|].
  simpl List.map.
  change (omap f (e :: List.map snd m))
    with (match f e with
          | Some y => y :: omap f (List.map snd m)
          | None => omap f (List.map snd m)
          end).
  change (omap g (k :: List.map fst m))
    with (match g k with
          | Some y => y :: omap g (List.map fst m)
          | None => omap g (List.map fst m)
          end).
  rewrite (Hfg k e) by left.
  rewrite IH; [reflexivity|].
  intros k' e' Hin. apply Hfg. right. exact Hin.
Qed.

(** On any store, an array of distinct objects is merged as the grouped
    merge merges the records it holds. *)
Lemma mergeLoop_grouped `{Host} (h : store) (refs : list loc) :
  NoDup refs -> (forall l, l ∈ refs -> is_Some (h !! l)) ->
  deref (fst (mergeLoop h refs)) (snd (mergeLoop h refs))
  = mergedByKey (deref h refs).
Proof.
  intros Hnd Hval. unfold mergeLoop.
  pose proof (mergeFold_inv h refs [] (h, []) (mergeInv_start h) Hnd Hval)
    as Hinv.
  simpl app in Hinv.
  destruct (fold_left mergeStep refs (h, [])) as [h' m].
  destruct Hinv as (_ & _ & Hkeys & Hkept).
  simpl in Hkeys, Hkept. simpl fst. simpl snd.
  unfold mergedByKey. rewrite <- Hkeys. unfold deref at 1.
  apply omap_values_keys. intros k e Hin. apply (Hkept k e Hin).
Qed.

Lemma keepMostRecentInspections_grouped `{Host} data :
  keepMostRecentInspections data = mergedByKey data.
Proof.
  unfold keepMostRecentInspections.
  pose proof (mergeLoop_grouped data (seq 0 (length data))) as Hg.
  destruct (mergeLoop data (seq 0 (length data))) as [h' filtered].
  rewrite deref_seq in Hg. apply Hg.
  - apply NoDup_seq.
  - intros l Hl. apply lookup_lt_is_Some.
    apply elem_of_seq in Hl. lia.
Qed.

(** Why the objects must be distinct: with the object at address 0 twice in
    the array, the facility type backfilled onto it at its first occurrence
    is read at its second and backfilled onto the record kept by then; an
    array of four objects with the same contents gets no such backfill. *)
Lemma aliased_array_backfill :
  let h := [Data.joeJanuary; Data.joeOlder; Data.joeJune] in
  deref (fst (@mergeLoop Example.host h [0; 1; 2; 0]%nat))
    (snd (@mergeLoop Example.host h [0; 1; 2; 0]%nat))
  = [setFacilityType Data.joeJune (Some (js "Restaurant"))] /\
  @keepMostRecentInspections Example.host
    [Data.joeJanuary; Data.joeOlder; Data.joeJune; Data.joeJanuary]
  = [Data.joeJune].
Proof. split; vm_compute; reflexivity. Qed.

Lemma mergedByKey_keys `{Host} data :
  List.map crossKey (mergedByKey data)
  = firstOccurrences (List.map crossKey data).
Proof.
  unfold mergedByKey.
  assert (Hgen : forall keys,
            (forall k, k ∈ keys -> k ∈ List.map crossKey data) ->
            List.map crossKey (omap (fun key => keptRecord key data) keys)
            = keys).
  { induction keys as [|k keys IH]; intros Hin; [reflexivity|].
    change (omap (fun key => keptRecord key data) (k :: keys))
      with (match keptRecord k data with
            | Some y => y :: omap (fun key => keptRecord key data) keys
            | None => omap (fun key => keptRecord key data) keys
            end).
    destruct (keptRecord_present k data) as [x Hx]; [apply Hin; left|].
    rewrite Hx. simpl List.map. rewrite (keptRecord_key _ _ _ Hx).
    f_equal. apply IH. intros k' Hk'. apply Hin. right. exact Hk'. }
  apply Hgen. intros k Hk. apply elem_of_firstOccurrences, Hk.
Qed.

(** *** The backfill writes the facility type and nothing else *)

Lemma setFacilityType_twice r v v' :
  setFacilityType (setFacilityType r v) v' = setFacilityType r v'.
Proof. reflexivity. Qed.

Lemma setFacilityType_same r : setFacilityType r (facilityType r) = r.
Proof. destruct r; reflexivity. Qed.

Lemma mergeStep_only_facilityType `{Host} (st : store * jsMap) l a r :
  fst st !! a = Some r ->
  exists v, fst (mergeStep st l) !! a = Some (setFacilityType r v).
Proof.
  destruct st as [h m]. simpl. intros Ha.
  assert (Hsame : exists v, h !! a = Some (setFacilityType r v)).
  { exists (facilityType r). rewrite setFacilityType_same. exact Ha. }
  unfold mergeStep. destruct (h !! l) as [record|]; [|exact Hsame].
  destruct (mapGet (crossKey record) m) as [e|]; [|exact Hsame].
  destruct (h !! e) as [existing|] eqn:He; [|exact Hsame].
  simpl. destruct (truthy (facilityType record)
                   && negb (truthy (facilityType existing)));
    [|exact Hsame].
  destruct (decide (a = e)) as [->|Hne].
  - exists (facilityType record).
    rewrite list_lookup_insert_eq by (apply (lookup_lt_Some _ _ _ He)).
    congruence.
  - rewrite list_lookup_insert_ne by congruence. exact Hsame.
Qed.

Lemma mergeFold_only_facilityType `{Host} refs (st : store * jsMap) a r :
  fst st !! a = Some r ->
  exists v, fst (fold_left mergeStep refs st) !! a
            = Some (setFacilityType r v).
Proof.
  revert st r. induction refs as [|l refs IH]; intros st r Ha; simpl.
  - exists (facilityType r). rewrite setFacilityType_same. exact Ha.
  - destruct (mergeStep_only_facilityType st l a r Ha) as [v Hv].
    destruct (IH _ _ Hv) as [v' Hv'].
    exists v'. rewrite Hv'. reflexivity.
Qed.

(** *** A backfill, field by field *)

Lemma sameOtherFields_refl r : sameOtherFields r r.
Proof. unfold sameOtherFields. repeat split. Qed.

Lemma sameOtherFields_setFacilityType r v :
  sameOtherFields r (setFacilityType r v).
Proof. unfold sameOtherFields. simpl. repeat split. Qed.

Lemma sameOtherFields_trans a b c :
  sameOtherFields a b -> sameOtherFields b c -> sameOtherFields a c.
Proof.
  unfold sameOtherFields. intros Hab Hbc.
  repeat match goal with Hc : _ /\ _ |- _ => destruct Hc end.
  repeat split; congruence.
Qed.

Lemma backfill_fields kept new :
  sameOtherFields kept (backfill kept new) /\
  facilityType (backfill kept new)
  = (if truthy (facilityType new) && negb (truthy (facilityType kept))
     then facilityType new
     else facilityType kept).
Proof.
  unfold backfill.
  destruct (truthy (facilityType new) && negb (truthy (facilityType kept))).
  - split; [apply sameOtherFields_setFacilityType|reflexivity].
  - split; [apply sameOtherFields_refl|reflexivity].
Qed.

(** The loop on two objects of one key, step by step. *)
Lemma mergeLoop_pair `{Host} kept new :
  crossKey new = crossKey kept ->
  mergeLoop [kept; new] [0; 1]%nat
  = ([backfill kept new; new],
     [if laterDate (inspectionDate new) (inspectionDate kept)
      then 1%nat else 0%nat]).
Proof.
  intros Hk. unfold mergeLoop.
  change (fold_left mergeStep [0; 1]%nat ([kept; new], []))
    with (mergeStep (mergeStep ([kept; new], []) 0%nat) 1%nat).
  change (mergeStep ([kept; new], []) 0%nat)
    with ([kept; new], [(crossKey kept, 0%nat)]).
  unfold mergeStep.
  change ([kept; new] !! 1%nat) with (Some new). cbv beta iota zeta.
  change (mapGet (crossKey new) [(crossKey kept, 0%nat)])
    with (if decide (crossKey kept = crossKey new) then Some 0%nat else None).
  change (mapSet (crossKey new) 1%nat [(crossKey kept, 0%nat)])
    with (if decide (crossKey kept = crossKey new)
          then [(crossKey kept, 1%nat)]
          else [(crossKey kept, 0%nat); (crossKey new, 1%nat)]).
  destruct (decide (crossKey kept = crossKey new)) as [_|Hne];
    [|exfalso; apply Hne; symmetry; exact Hk].
  change ([kept; new] !! 0%nat) with (Some kept). cbv beta iota zeta.
  unfold backfill.
  destruct (truthy (facilityType new) && negb (truthy (facilityType kept)));
    destruct (laterDate (inspectionDate new) (inspectionDate kept));
    reflexivity.
Qed.

(** The store under the loop: whatever the array, aliased or not, every
    object keeps its fields but [facilityType], and a facility type written
    is one that an object of the store had. *)
Lemma mergeStep_frame `{Host} (h : store) (st : store * jsMap) l :
  length (fst st) = length h ->
  (forall a r r', h !! a = Some r -> fst st !! a = Some r' ->
     backfilledIn h r r') ->
  length (fst (mergeStep st l)) = length h /\
  (forall a r r', h !! a = Some r -> fst (mergeStep st l) !! a = Some r' ->
     backfilledIn h r r').
Proof.
  destruct st as [h' m]. simpl. intros Hlen Hfr.
  unfold mergeStep. destruct (h' !! l) as [record|] eqn:Hl; [|auto].
  destruct (mapGet (crossKey record) m) as [e|]; [|auto].
  destruct (h' !! e) as [existing|] eqn:He; [|auto].
  simpl.
  destruct (truthy (facilityType record)) eqn:Hrec; [|auto].
  destruct (truthy (facilityType existing)) eqn:Hex; [auto|].
  simpl. split; [rewrite length_insert; exact Hlen|].
  intros a r r' Ha Ha'.
  destruct (decide (a = e)) as [->|Hne].
  - rewrite list_lookup_insert_eq in Ha'
      by (apply (lookup_lt_Some _ _ _ He)).
    inversion Ha'; subst r'; clear Ha'.
    destruct (Hfr e r existing Ha He) as [Hsame Hft].
    split.
    + apply (sameOtherFields_trans _ existing); [exact Hsame|].
      apply sameOtherFields_setFacilityType.
    + right. simpl.
      split; [destruct Hft as [Hft|[_ [Ht _]]]; congruence|].
      split; [exact Hrec|].
      destruct (lookup_lt_is_Some_2 h l) as [r0 Hr0].
      { rewrite <- Hlen. apply (lookup_lt_Some _ _ _ Hl). }
      destruct (Hfr l r0 record Hr0 Hl) as [_ [Hown|(_ & _ & a1 & r1 & Ha1 & Hr1)]].
      * exists l, r0. split; [exact Hr0|]. symmetry. exact Hown.
      * exists a1, r1. split; [exact Ha1|exact Hr1].
  - rewrite list_lookup_insert_ne in Ha' by congruence.
    apply (Hfr a r r' Ha Ha').
Qed.

Lemma mergeFold_frame `{Host} (h : store) refs (st : store * jsMap) :
  length (fst st) = length h ->
  (forall a r r', h !! a = Some r -> fst st !! a = Some r' ->
     backfilledIn h r r') ->
  length (fst (fold_left mergeStep refs st)) = length h /\
  (forall a r r', h !! a = Some r ->
     fst (fold_left mergeStep refs st) !! a = Some r' ->
     backfilledIn h r r').
Proof.
  revert st. induction refs as [|l refs IH]; intros st Hlen Hfr.
  - split; assumption.
  - change (fold_left mergeStep (l :: refs) st)
      with (fold_left mergeStep refs (mergeStep st l)).
    destruct (mergeStep_frame h st l Hlen Hfr) as [Hlen' Hfr'].
    apply IH; assumption.
Qed.

Lemma mergeLoop_frame `{Host} (h : store) refs a r :
  h !! a = Some r ->
  exists r', fst (mergeLoop h refs) !! a = Some r' /\ backfilledIn h r r'.
Proof.
  intros Ha. unfold mergeLoop.
  destruct (mergeFold_frame h refs (h, [])) as [Hlen Hfr].
  - reflexivity.
  - simpl. intros a0 r0 r0' Hr0 Hr0'.
    assert (r0' = r0) as -> by congruence.
    split; [apply sameOtherFields_refl|left; reflexivity].
  - destruct (fold_left mergeStep refs (h, [])) as [h' m].
    simpl in Hlen, Hfr. simpl.
    destruct (lookup_lt_is_Some_2 h' a) as [r' Hr'].
    { rewrite Hlen. apply (lookup_lt_Some _ _ _ Ha). }
    exists r'. split; [exact Hr'|]. apply (Hfr a r r' Ha Hr').
Qed.

(** C7: the merge engine gives, for every input, what the grouped merge
    gives: by cross-record key, in original order, the first record of a
    key is kept; a later record of the key backfills the kept record's
    facility type when the kept record has none and it has one, and
    replaces the kept record when its date is strictly later.  The output
    has one record per key of the input, in order of first occurrence, and
    what holds of an array of records holds of any array of distinct
    objects of a store.

    The backfill, field by field: the record backfilled has the facility
    type of the later record when the later record has one and the kept
    record has none, its own otherwise, and every other field as it was.
    On two objects of one key the loop leaves the first object so
    backfilled in its place in the store, the second untouched, and returns
    the second when its date is strictly later, the first, backfilled,
    otherwise.  Whatever the array, every object of the store keeps every
    field but the facility type, and a facility type written over none is
    one that an object of the store had. *)
Theorem merge_keeps_one_record_per_key `{Host} (data : list InspectionRecord) :
  keepMostRecentInspections data = mergedByKey data /\
  List.map crossKey (keepMostRecentInspections data)
  = firstOccurrences (List.map crossKey data) /\
  NoDup (List.map crossKey (keepMostRecentInspections data)) /\
  (forall key,
     key ∈ List.map crossKey (keepMostRecentInspections data)
     <-> key ∈ List.map crossKey data) /\
  (forall (h : store) (refs : list loc) a r,
     h !! a = Some r ->
     exists v, fst (mergeLoop h refs) !! a = Some (setFacilityType r v)) /\
  (forall (h : store) (refs : list loc),
     NoDup refs -> (forall l, l ∈ refs -> is_Some (h !! l)) ->
     deref (fst (mergeLoop h refs)) (snd (mergeLoop h refs))
     = mergedByKey (deref h refs)) /\
  (forall kept new : InspectionRecord,
     sameOtherFields kept (backfill kept new) /\
     facilityType (backfill kept new)
     = (if truthy (facilityType new) && negb (truthy (facilityType kept))
        then facilityType new
        else facilityType kept)) /\
  (forall kept new : InspectionRecord,
     crossKey new = crossKey kept ->
     exists kept',
       sameOtherFields kept kept' /\
       facilityType kept'
       = (if truthy (facilityType new) && negb (truthy (facilityType kept))
          then facilityType new
          else facilityType kept) /\
       mergeLoop [kept; new] [0; 1]%nat
       = ([kept'; new],
          [if laterDate (inspectionDate new) (inspectionDate kept)
           then 1%nat else 0%nat]) /\
       keepMostRecentInspections [kept; new]
       = [if laterDate (inspectionDate new) (inspectionDate kept)
          then new else kept']) /\
  (forall (h : store) (refs : list loc) a r,
     h !! a = Some r ->
     exists r',
       fst (mergeLoop h refs) !! a = Some r' /\
       sameOtherFields r r' /\
       (facilityType r' = facilityType r
        \/ (truthy (facilityType r) = false /\
            truthy (facilityType r') = true /\
            exists a0 r0,
              h !! a0 = Some r0 /\ facilityType r0 = facilityType r'))).
Proof.
  rewrite keepMostRecentInspections_grouped, mergedByKey_keys.
  split; [reflexivity|]. split; [reflexivity|].
  split; [apply NoDup_firstOccurrences|].
  split; [intros key; apply elem_of_firstOccurrences|].
  split; [|split; [intros h refs; apply mergeLoop_grouped|]].
  { intros h refs a r Ha. unfold mergeLoop.
    destruct (mergeFold_only_facilityType refs (h, []) a r Ha) as [v Hv].
    exists v. destruct (fold_left mergeStep refs (h, [])). exact Hv. }
  split; [intros kept new; apply backfill_fields|].
  split.
  - intros kept new Hk. exists (backfill kept new).
    destruct (backfill_fields kept new) as [Hsame Hft].
    split; [exact Hsame|]. split; [exact Hft|].
    split; [apply mergeLoop_pair, Hk|].
    unfold keepMostRecentInspections.
    change (seq 0 (length [kept; new])) with [0; 1]%nat.
    rewrite (mergeLoop_pair kept new Hk).
    destruct (laterDate (inspectionDate new) (inspectionDate kept));
      reflexivity.
  - intros h refs a r Ha.
    destruct (mergeLoop_frame h refs a r Ha) as (r' & Hr' & Hsame & Hft).
    exists r'. split; [exact Hr'|]. split; [exact Hsame|exact Hft].
Qed.

(** The later of two inspections of an establishment is kept; an older
    record backfills the facility type of the kept one, which is then the
    January record with the type Restaurant; a later record then replaces
    the kept one, backfill and all.  In the store, the January object has
    the type and its own name, address and date. *)
Lemma merge_keeps_one_record_per_key_witness :
  @keepMostRecentInspections Example.host [Data.joeJanuary; Data.joeJune]
  = [Data.joeJune] /\
  @keepMostRecentInspections Example.host
    [Data.joeJanuary; Data.unoMarch; Data.joeOlder]
  = [Data.inspection "Joe's Diner" "123 Main St" (Some (js "Restaurant"))
       "2024-01-01";
     Data.unoMarch] /\
  @keepMostRecentInspections Example.host
    [Data.joeJanuary; Data.joeOlder; Data.joeJune]
  = [Data.joeJune] /\
  (exists kept',
     @mergeLoop Example.host [Data.joeJanuary; Data.joeOlder] [0; 1]%nat
     = ([kept'; Data.joeOlder], [0%nat]) /\
     @keepMostRecentInspections Example.host [Data.joeJanuary; Data.joeOlder]
     = [kept'] /\
     facilityType kept' = Some (js "Restaurant") /\
     name kept' = js "Joe's Diner" /\
     addr kept' = js "123 Main St" /\
     inspectionDate kept' = js "2024-01-01") /\
  (exists r',
     fst (@mergeLoop Example.host
            [Data.joeJanuary; Data.joeOlder; Data.joeJune] [0; 1; 2]%nat)
       !! 2%nat = Some r' /\
     name r' = js "Joe's Diner" /\
     inspectionDate r' = js "2024-06-01" /\
     facilityType r' = None).
Proof.
  split; [|split; [|split; [|split]]].
  - destruct (@merge_keeps_one_record_per_key Example.host
                [Data.joeJanuary; Data.joeJune]) as [-> _].
    vm_compute. reflexivity.
  - destruct (@merge_keeps_one_record_per_key Example.host
                [Data.joeJanuary; Data.unoMarch; Data.joeOlder]) as [-> _].
    vm_compute. reflexivity.
  - destruct (@merge_keeps_one_record_per_key Example.host
                [Data.joeJanuary; Data.joeOlder; Data.joeJune]) as [-> _].
    vm_compute. reflexivity.
  - destruct (@merge_keeps_one_record_per_key Example.host [])
      as (_ & _ & _ & _ & _ & _ & _ & Hpair & _).
    destruct (Hpair Data.joeJanuary Data.joeOlder eq_refl)
      as (kept' & Hsame & Hft & Hloop & Hout).
    exists kept'. split; [exact Hloop|]. split; [exact Hout|].
    destruct Hsame as (Hname & Haddr & _ & _ & Hdate & _).
    split; [exact Hft|]. split; [exact Hname|].
    split; [exact Haddr|exact Hdate].
  - destruct (@merge_keeps_one_record_per_key Example.host [])
      as (_ & _ & _ & _ & _ & _ & _ & _ & Hstore).
    destruct (Hstore [Data.joeJanuary; Data.joeOlder; Data.joeJune]
                [0; 1; 2]%nat 2%nat Data.joeJune eq_refl)
      as (r' & Hr' & Hsame & Hft).
    exists r'. split; [exact Hr'|].
    destruct Hsame as (Hname & _ & _ & _ & Hdate & _).
    split; [exact Hname|]. split; [exact Hdate|].
    destruct Hft as [Hft|(_ & Ht & _)]; [exact Hft|].
    exfalso. vm_compute in Hr'. inversion Hr'; subst r'.
    vm_compute in Ht. discriminate Ht.
Defined.

(** The loop itself, run on the same inputs. *)
Lemma keepMostRecentInspections_runs :
  @keepMostRecentInspections Example.host
    [Data.joeJanuary; Data.joeOlder; Data.joeJune]
  = [Data.joeJune] /\
  @keepMostRecentInspections Example.host
    [Data.joeJanuary; Data.unoMarch; Data.joeOlder]
  = [Data.inspection "Joe's Diner" "123 Main St" (Some (js "Restaurant"))
       "2024-01-01";
     Data.unoMarch].
Proof. split; vm_compute; reflexivity. Qed.

(** ** Merging a dataset with itself *)

Lemma group_single `{Host} data r :
  NoDup (List.map crossKey data) -> r ∈ data ->
  group (crossKey r) data = [r].
Proof.
  unfold group. induction data as [|x data IH]; intros Hnd Hin;
    [inversion Hin|].
  simpl in Hnd. apply NoDup_cons in Hnd. destruct Hnd as [Hx Hnd].
  apply elem_of_cons in Hin. destruct Hin as [->|Hin].
  - rewrite filter_cons_True by reflexivity. f_equal.
    clear IH Hnd. induction data as [|y data IHd]; [reflexivity|].
    simpl in Hx. apply not_elem_of_cons in Hx. destruct Hx as [Hne Hx].
    rewrite filter_cons_False by congruence. apply IHd, Hx.
  - rewrite filter_cons_False.
    + apply IH; assumption.
    + intros Heq. apply Hx. rewrite Heq.
      apply list_elem_of_fmap_2, Hin.
Qed.

Lemma omap_Some_id {A B : Type} (f : A -> B) (g : B -> option A) l :
  (forall x, x ∈ l -> g (f x) = Some x) -> omap g (List.map f l) = l.
Proof.
  induction l as [|x l IH]; intros Hg; [reflexivity|].
  simpl List.map.
  change (omap g (f x :: List.map f l))
    with (match g (f x) with
          | Some y => y :: omap g (List.map f l)
          | None => omap g (List.map f l)
          end).
  rewrite (Hg x) by left. f_equal.
  apply IH. intros y Hy. apply Hg. right. exact Hy.
Qed.

Lemma merge_twice_distinct_keys `{Host} data :
  NoDup (List.map crossKey data) ->
  keepMostRecentInspections (data ++ data) = data.
Proof.
  intros Hnd. rewrite keepMostRecentInspections_grouped. unfold mergedByKey.
  rewrite map_app, firstOccurrences_app_seen by auto.
  rewrite firstOccurrences_NoDup by exact Hnd.
  apply omap_Some_id. intros r Hr.
  unfold keptRecord, group. rewrite filter_app.
  fold (group (crossKey r) data). rewrite (group_single data r Hnd Hr).
  simpl. rewrite absorb_self. reflexivity.
Qed.

(** C8, amended: merging a dataset with itself gives the dataset back,
    record for record, when no two of its records share a cross-record key;
    what the merge engine returns is such a dataset. *)
Theorem merge_with_itself_on_distinct_keys `{Host}
    (data : list InspectionRecord) :
  (NoDup (List.map crossKey data) ->
   keepMostRecentInspections (data ++ data) = data /\
   mergeWithExistingData data (Some data) = data) /\
  (let merged := keepMostRecentInspections data in
   mergeWithExistingData merged (Some merged) = merged).
Proof.
  split.
  - intros Hnd. split; apply merge_twice_distinct_keys, Hnd.
  - cbv zeta. simpl. apply merge_twice_distinct_keys.
    rewrite keepMostRecentInspections_grouped, mergedByKey_keys.
    apply NoDup_firstOccurrences.
Qed.

Lemma Example_distinct_keys :
  NoDup (List.map (@crossKey Example.host) [Data.joeJune; Data.unoMarch]).
Proof. apply (bool_decide_unpack _). vm_compute. exact I. Qed.

Lemma merge_with_itself_on_distinct_keys_witness :
  @keepMostRecentInspections Example.host
    ([Data.joeJune; Data.unoMarch] ++ [Data.joeJune; Data.unoMarch])
  = [Data.joeJune; Data.unoMarch].
Proof.
  destruct (@merge_with_itself_on_distinct_keys Example.host
              [Data.joeJune; Data.unoMarch]) as [Hid _].
  apply Hid, Example_distinct_keys.
Defined.

(** C8 as stated fails: two inspections of one establishment, merged with
    themselves, come back as one record, whatever the host. *)
Lemma merge_with_itself_not_identity :
  ~ exists H : Host,
      @keepMostRecentInspections H
        ([Data.joeJanuary; Data.joeJune] ++ [Data.joeJanuary; Data.joeJune])
      = [Data.joeJanuary; Data.joeJune].
Proof.
  intros [H Heq].
  assert (Hnd : NoDup (List.map crossKey
                         (keepMostRecentInspections
                            ([Data.joeJanuary; Data.joeJune]
                               ++ [Data.joeJanuary; Data.joeJune])))).
  { rewrite keepMostRecentInspections_grouped, mergedByKey_keys.
    apply NoDup_firstOccurrences. }
  rewrite Heq in Hnd. simpl in Hnd.
  apply NoDup_cons in Hnd. destruct Hnd as [Hnin _].
  apply Hnin. left.
Qed.

(** ** Further properties of the scorer, the row reader and the crawl *)

(** X1: the risk level of a score: 0 is EXCELLENT, 1 to 5 LOW, 6 to 20
    MEDIUM, 21 to 40 HIGH, 41 and above CRITICAL; the colour follows its own
    bands: 50 and above crimson, 30 to 49 red, 15 to 29 orange, 1 to 14
    yellow, 0 green. *)
Theorem risk_level_and_color_bands (score : Z) :
  (score = 0 -> getRiskLevel score = EXCELLENT /\ getColor score = green) /\
  (1 <= score <= 5 -> getRiskLevel score = LOW) /\
  (6 <= score <= 20 -> getRiskLevel score = MEDIUM) /\
  (21 <= score <= 40 -> getRiskLevel score = HIGH) /\
  (41 <= score -> getRiskLevel score = CRITICAL) /\
  (1 <= score <= 14 -> getColor score = yellow) /\
  (15 <= score <= 29 -> getColor score = orange) /\
  (30 <= score <= 49 -> getColor score = red) /\
  (50 <= score -> getColor score = crimson).
Proof.
  unfold getRiskLevel, getColor.
  repeat split; intros;
    repeat match goal with
           | |- context [?a =? ?b] => destruct (Z.eqb_spec a b); try lia
           | |- context [?a <=? ?b] => destruct (Z.leb_spec a b); try lia
           | |- context [?a >=? ?b] =>
               rewrite (Z.geb_leb a b); destruct (Z.leb_spec b a); try lia
           | |- context [?a >? ?b] =>
               rewrite (Z.gtb_ltb a b); destruct (Z.ltb_spec b a); try lia
           end;
    reflexivity.
Qed.

Lemma risk_level_and_color_bands_witness :
  getRiskLevel 0 = EXCELLENT /\ getRiskLevel 5 = LOW /\
  getRiskLevel 6 = MEDIUM /\ getRiskLevel 20 = MEDIUM /\
  getRiskLevel 21 = HIGH /\ getRiskLevel 41 = CRITICAL /\
  getColor 41 = red.
Proof.
  split; [apply (risk_level_and_color_bands 0); reflexivity|].
  split; [apply (risk_level_and_color_bands 5); lia|].
  split; [apply (risk_level_and_color_bands 6); lia|].
  split; [apply (risk_level_and_color_bands 20); lia|].
  split; [apply (risk_level_and_color_bands 21); lia|].
  split; [apply (risk_level_and_color_bands 41); lia|].
  apply (risk_level_and_color_bands 41); lia.
Defined.

Lemma tier_counts (vs : list Violation) :
  (length (List.filter (fun v => bool_decide (section v = critical)) vs)
   + length (List.filter (fun v => bool_decide (section v = noncritical)) vs)
   = length vs)%nat.
Proof.
  induction vs as [|v vs IH]; simpl; [reflexivity|].
  destruct (section v); simpl; lia.
Qed.

(** X2: in every record the row reader produces, the critical and the
    noncritical counts add up to the total, the risk score lies in 0..100,
    and level and colour are those of the score. *)
Theorem scraped_record_consistent `{Host} (row : Row)
    (record : InspectionRecord) :
  scrapeRow row = Some record ->
  criticalCount record + noncriticalCount record = totalViolations record /\
  totalViolations record = Z.of_nat (length (violations record)) /\
  riskScore record
  = calculateRiskScore (violations record) (closureFlag record)
      (reinspectionFlag record) /\
  0 <= riskScore record <= 100 /\
  riskLevel record = getRiskLevel (riskScore record) /\
  color record = getColor (riskScore record).
Proof.
  destruct row as [|cells]; simpl; [discriminate|].
  destruct (cellCount cells <? 6)%nat; [discriminate|].
  destruct (includes (toLowerCase (inspectionTypeText cells)) (js "routine"));
    simpl; [|discriminate].
  intros Heq. inversion Heq; subst record; clear Heq. simpl.
  split; [rewrite <- Nat2Z.inj_add, tier_counts; reflexivity|].
  split; [reflexivity|]. split; [reflexivity|].
  split; [|split; reflexivity].
  match goal with |- context [calculateRiskScore ?v ?c ?r] =>
    destruct (risk_score_bounds v c r) end.
  split; assumption.
Qed.

Lemma scraped_record_consistent_witness :
  exists record,
    @scrapeRow Example.host Grid.uno = Some record /\
    criticalCount record + noncriticalCount record = totalViolations record /\
    0 <= riskScore record <= 100.
Proof.
  destruct (@scrapeRow Example.host Grid.uno) as [record|] eqn:Hrow;
    [|vm_compute in Hrow; discriminate Hrow].
  exists record. split; [reflexivity|].
  destruct (@scraped_record_consistent Example.host Grid.uno record Hrow)
    as (Hcount & _ & _ & Hscore & _).
  split; assumption.
Defined.

Lemma crawlStep_results `{Host} st view :
  allResults (stateOf (crawlStep st view))
  = allResults st ++ scrapePageResults (rows view).
Proof.
  destruct (crawlStep_shape st view)
    as (seen & count & _ & [[Hb _]|Hb]); cbv zeta in Hb; rewrite Hb.
  - reflexivity.
  - match goal with |- context [advance ?s view] =>
      destruct (advance_keeps s view) as (_ & _ & Hres & _) end.
    rewrite Hres. reflexivity.
Qed.

Lemma resultsOf_cons `{Host} view views :
  resultsOf (view :: views)
  = scrapePageResults (rows view) ++ resultsOf views.
Proof. reflexivity. Qed.

(** The loop from any state: what it returns at a [break] is what it had,
    followed by the records of the pages shown up to the [break]. *)
Lemma crawlVisits_results `{Host} (visits : list Visit) (st : CrawlState) :
  match crawlVisits st visits with
  | Returned results =>
      exists before last rest st1 why st',
        visits = List.map Shown before ++ Shown last :: rest /\
        crawlLoop st before = Awaiting st1 /\
        crawlStep st1 last = Break why st' /\
        results = allResults st ++ resultsOf (before ++ [last])
  | Rejected =>
      exists before rest st1,
        visits = List.map Shown before ++ Rejects :: rest /\
        crawlLoop st before = Awaiting st1
  | Running =>
      exists views st1,
        visits = List.map Shown views /\
        crawlLoop st views = Awaiting st1
  end.
Proof.
  revert st. induction visits as [|[view|] visits IH]; intros st.
  - exists [], st. split; reflexivity.
  - change (crawlVisits st (Shown view :: visits))
      with (match crawlStep st view with
            | Continue st' => crawlVisits st' visits
            | Break _ st' => Returned (allResults st')
            end).
    pose proof (crawlStep_results st view) as Hres.
    destruct (crawlStep st view) as [st'|why st'] eqn:Hstep; simpl in Hres.
    + specialize (IH st').
      destruct (crawlVisits st' visits) as [results| |].
      * destruct IH as (before & last & rest & st1 & why & st2
                        & Hv & Hloop & Hlast & Hr).
        exists (view :: before), last, rest, st1, why, st2.
        split; [rewrite Hv; reflexivity|].
        split; [simpl; rewrite Hstep; exact Hloop|].
        split; [exact Hlast|].
        rewrite Hr, Hres. simpl app. rewrite resultsOf_cons.
        rewrite app_assoc. reflexivity.
      * destruct IH as (before & rest & st1 & Hv & Hloop).
        exists (view :: before), rest, st1.
        split; [rewrite Hv; reflexivity|].
        simpl. rewrite Hstep. exact Hloop.
      * destruct IH as (views & st1 & Hv & Hloop).
        exists (view :: views), st1.
        split; [rewrite Hv; reflexivity|].
        simpl. rewrite Hstep. exact Hloop.
    + exists [], view, visits, st, why, st'.
      split; [reflexivity|]. split; [reflexivity|].
      split; [exact Hstep|].
      rewrite Hres. unfold resultsOf. simpl. rewrite app_nil_r.
      reflexivity.
  - exists [], visits, st. split; reflexivity.
Qed.

(** X3: when the loop is left by one of its [break] statements, the
    function returns the records of every page it scraped, from the first
    through the page of the [break], in page order, and [main] goes on with
    them.  When instead an awaited call outside the [try] blocks rejects,
    before the loop or in an iteration, the function returns nothing and
    [main] writes nothing: what the pages before had yielded is lost. *)
Theorem partial_results_kept `{Host} (visits : list Visit) :
  match scrapeCityWithDateRange ResultsLoaded visits with
  | Returned results =>
      exists before last rest st1 why st',
        visits = List.map Shown before ++ Shown last :: rest /\
        crawlLoop crawlStart before = Awaiting st1 /\
        crawlStep st1 last = Break why st' /\
        results = resultsOf (before ++ [last]) /\
        forall file, mainAfterCrawl (Returned results) file
                     = main (resultsOf (before ++ [last])) file
  | Rejected =>
      exists before rest st1,
        visits = List.map Shown before ++ Rejects :: rest /\
        crawlLoop crawlStart before = Awaiting st1 /\
        forall file, mainAfterCrawl Rejected file = None
  | Running =>
      exists views st1,
        visits = List.map Shown views /\
        crawlLoop crawlStart views = Awaiting st1 /\
        allResults st1 = resultsOf views
  end /\
  scrapeCityWithDateRange NoRecords visits = Returned [] /\
  scrapeCityWithDateRange SearchRejects visits = Rejected.
Proof.
  split; [|split; reflexivity].
  change (scrapeCityWithDateRange ResultsLoaded visits)
    with (crawlVisits crawlStart visits).
  pose proof (crawlVisits_results visits crawlStart) as Hv.
  destruct (crawlVisits crawlStart visits) as [results| |].
  - destruct Hv as (before & last & rest & st1 & why & st'
                    & Hvis & Hloop & Hlast & Hr).
    exists before, last, rest, st1, why, st'.
    split; [exact Hvis|]. split; [exact Hloop|]. split; [exact Hlast|].
    split; [exact Hr|]. intros file. rewrite Hr. reflexivity.
  - destruct Hv as (before & rest & st1 & Hvis & Hloop).
    exists before, rest, st1.
    split; [exact Hvis|]. split; [exact Hloop|]. reflexivity.
  - destruct Hv as (views & st1 & Hvis & Hloop).
    exists views, st1. split; [exact Hvis|]. split; [exact Hloop|].
    assert (Hgen : forall st,
              crawlLoop st views = Awaiting st1 ->
              allResults st1 = allResults st ++ resultsOf views).
    { clear Hvis Hloop.
      induction views as [|view views IH]; intros st Hl.
      - inversion Hl. unfold resultsOf. simpl. rewrite app_nil_r.
        reflexivity.
      - simpl in Hl. pose proof (crawlStep_results st view) as Hres.
        destruct (crawlStep st view) as [st2|why st2]; [|discriminate Hl].
        simpl in Hres. rewrite (IH st2 Hl), Hres, resultsOf_cons.
        rewrite app_assoc. reflexivity. }
    exact (Hgen crawlStart Hloop).
Qed.

(** A page with no pager under the grid ends the crawl and its row is
    returned; a call that rejects after a page was scraped leaves nothing
    to [main], whatever the file. *)
Lemma partial_results_kept_witness :
  @scrapeCityWithDateRange Example.host ResultsLoaded
    [Shown (mkPageView [Grid.uno] None)]
  = Returned (@resultsOf Example.host [mkPageView [Grid.uno] None]) /\
  List.map name (@resultsOf Example.host [mkPageView [Grid.uno] None])
  = [js "Cafe Uno"] /\
  @scrapeCityWithDateRange Example.host ResultsLoaded
    [Shown (Grid.page 1 [Grid.uno]); Rejects]
  = Rejected /\
  forall file, @mainAfterCrawl Example.host Rejected file = None.
Proof.
  split; [|split; [vm_compute; reflexivity|split; [vm_compute; reflexivity|]]].
  - destruct (@partial_results_kept Example.host
                [Shown (mkPageView [Grid.uno] None)]) as [Hm _].
    destruct (@scrapeCityWithDateRange Example.host ResultsLoaded
                [Shown (mkPageView [Grid.uno] None)]) as [results| |] eqn:Hrun;
      [|vm_compute in Hrun; discriminate Hrun
       |vm_compute in Hrun; discriminate Hrun].
    destruct Hm as (before & last & rest & _ & _ & _ & Hvis & _ & _ & Hr & _).
    destruct before as [|view before].
    + simpl in Hvis. inversion Hvis; subst last rest. rewrite Hr. reflexivity.
    + simpl in Hvis. inversion Hvis as [[Hview Hrest]].
      destruct before; discriminate Hrest.
  - destruct (@partial_results_kept Example.host
                [Shown (Grid.page 1 [Grid.uno]); Rejects]) as [Hm _].
    destruct (@scrapeCityWithDateRange Example.host ResultsLoaded
                [Shown (Grid.page 1 [Grid.uno]); Rejects]) as [results| |] eqn:Hrun;
      [vm_compute in Hrun; discriminate Hrun| |
       vm_compute in Hrun; discriminate Hrun].
    destruct Hm as (_ & _ & _ & _ & _ & Hmain). exact Hmain.
Defined.

(** The function itself, run: three pages, the third with no pager, give
    the rows of the three; a rejected click after two pages gives
    nothing. *)
Lemma scrapeCityWithDateRange_runs :
  (exists results,
     @scrapeCityWithDateRange Example.host ResultsLoaded
       [Shown (Grid.page 1 [Grid.uno]); Shown (Grid.page 2 [Grid.due]);
        Shown (mkPageView [Grid.uno] None); Shown (Grid.page 4 [Grid.due])]
     = Returned results /\
     List.map name results = [js "Cafe Uno"; js "Cafe Due"; js "Cafe Uno"]) /\
  @scrapeCityWithDateRange Example.host ResultsLoaded
    [Shown (Grid.page 1 [Grid.uno]); Shown (Grid.page 2 [Grid.due]); Rejects]
  = Rejected.
Proof.
  split; [eexists; split|]; vm_compute; reflexivity.
Qed.

(** X4: when the page number the main pager shows differs from the
    expected [pageNum], the iteration stops the crawl: with the page
    mismatch, unless the page was the third of duplicates in a row. *)
Theorem page_mismatch_stops `{Host} (st : CrawlState) (view : PageView)
    (pager : Pager) :
  mainPager view = Some pager ->
  currentPageOf pager <> pageNum st ->
  reasonOf (crawlStep st view) = Some PageMismatch
  \/ reasonOf (crawlStep st view) = Some PaginationLoop.
Proof.
  intros Hp Hne.
  destruct (crawlStep_shape st view)
    as (seen & count & _ & [[Hb _]|Hb]); cbv zeta in Hb; rewrite Hb.
  - right. reflexivity.
  - left. unfold advance. rewrite Hp. simpl.
    destruct (currentPageOf pager =? pageNum st) eqn:E; [|reflexivity].
    apply Z.eqb_eq in E. contradiction.
Qed.

(** The crawl expects page 1 and the pager shows page 3. *)
Lemma page_mismatch_stops_witness :
  reasonOf (@crawlStep Example.host crawlStart (Grid.page 3 [Grid.uno]))
  = Some PageMismatch
  \/ reasonOf (@crawlStep Example.host crawlStart (Grid.page 3 [Grid.uno]))
     = Some PaginationLoop.
Proof.
  apply (@page_mismatch_stops Example.host crawlStart
           (Grid.page 3 [Grid.uno])
           (mkPager (Some 3) true false true)).
  - reflexivity.
  - vm_compute. discriminate.
Defined.

(** ** Strings: prefixes, substrings and trimming *)

Lemma startsWith_prefix (s p : jsstring) :
  startsWith s p = true <-> exists b, s = p ++ b.
Proof.
  revert s. induction p as [|c p IH]; intros s.
  - split; [intros _; exists s; reflexivity|intros _; destruct s; reflexivity].
  - destruct s as [|a s].
    + split; [discriminate|]. intros [b Hb]. discriminate Hb.
    + change (startsWith (a :: s) (c :: p))
        with ((a =? c)%N && startsWith s p).
      rewrite andb_true_iff, N.eqb_eq, IH. split.
      * intros [-> [b ->]]. exists b. reflexivity.
      * intros [b Hb]. inversion Hb; subst. split; [reflexivity|].
        exists b. reflexivity.
Qed.

Lemma includes_startsWith (s p : jsstring) :
  startsWith s p = true -> includes s p = true.
Proof. intros Hs. destruct s; cbn [includes]; rewrite Hs; reflexivity. Qed.

Lemma includes_substring (s p : jsstring) :
  includes s p = true <-> exists a b, s = a ++ p ++ b.
Proof.
  split.
  - induction s as [|c s IH]; cbn [includes]; rewrite orb_true_iff.
    + intros [Hs|Hf]; [|discriminate].
      apply startsWith_prefix in Hs. destruct Hs as [b Hb].
      exists [], b. exact Hb.
    + intros [Hs|Hi].
      * apply startsWith_prefix in Hs. destruct Hs as [b Hb].
        exists [], b. exact Hb.
      * destruct (IH Hi) as (a & b & ->). exists (c :: a), b. reflexivity.
  - intros (a & b & ->). induction a as [|c a IH].
    + apply includes_startsWith, startsWith_prefix. exists b. reflexivity.
    + cbn [includes app]. cbn [app] in IH. rewrite IH. apply orb_true_r.
Qed.

Lemma includes_trans (s p q : jsstring) :
  includes s p = true -> includes p q = true -> includes s q = true.
Proof.
  rewrite !includes_substring.
  intros (a & b & ->) (a' & b' & ->).
  exists (a ++ a'), (b' ++ b). rewrite <- !app_assoc. reflexivity.
Qed.

Lemma trimStart_idem s : trimStart (trimStart s) = trimStart s.
Proof.
  induction s as [|c s IH]; simpl; [reflexivity|].
  destruct (isWhiteSpace c) eqn:E; [exact IH|]. simpl. rewrite E. reflexivity.
Qed.

Lemma trimStart_suffix s : exists ws, s = ws ++ trimStart s.
Proof.
  induction s as [|c s [ws IH]]; simpl; [exists []; reflexivity|].
  destruct (isWhiteSpace c).
  - exists (c :: ws). simpl. rewrite <- IH. reflexivity.
  - exists []. reflexivity.
Qed.

Lemma trimStart_fixed s :
  match s with c :: _ => isWhiteSpace c = false | [] => True end ->
  trimStart s = s.
Proof. destruct s as [|c s]; simpl; [reflexivity|]. intros ->. reflexivity. Qed.

Lemma trimStart_head s :
  match trimStart s with c :: _ => isWhiteSpace c = false | [] => True end.
Proof.
  induction s as [|c s IH]; simpl; [exact I|].
  destruct (isWhiteSpace c) eqn:E; [exact IH|exact E].
Qed.

Lemma trim_head s :
  match trim s with c :: _ => isWhiteSpace c = false | [] => True end.
Proof.
  unfold trim, trimEnd.
  pose proof (trimStart_head s) as Hh.
  destruct (trimStart_suffix (rev (trimStart s))) as [ws Hws].
  apply (f_equal (@rev N)) in Hws. rewrite rev_involutive, rev_app_distr in Hws.
  destruct (rev (trimStart (rev (trimStart s)))) as [|c t]; [exact I|].
  rewrite Hws in Hh. exact Hh.
Qed.

Lemma trim_idem s : trim (trim s) = trim s.
Proof.
  pose proof (trimStart_fixed (trim s) (trim_head s)) as Ht.
  set (t := trim s) in *. unfold trim at 1. rewrite Ht.
  subst t. unfold trim, trimEnd.
  rewrite rev_involutive, trimStart_idem. reflexivity.
Qed.

Lemma trimStart_blank ws s :
  Forall (fun c => isWhiteSpace c = true) ws -> trimStart (ws ++ s) = trimStart s.
Proof.
  induction 1 as [|c ws Hc _ IH]; simpl; [reflexivity|].
  rewrite Hc. exact IH.
Qed.

Lemma trimStart_blank_prefix s :
  exists ws, Forall (fun c => isWhiteSpace c = true) ws /\ s = ws ++ trimStart s.
Proof.
  induction s as [|c s (ws & Hws & IH)]; simpl.
  - exists []. split; [constructor|reflexivity].
  - destruct (isWhiteSpace c) eqn:E.
    + exists (c :: ws). split; [constructor; assumption|].
      simpl. rewrite <- IH. reflexivity.
    + exists []. split; [constructor|reflexivity].
Qed.

(** [trim] of blanks around a core that neither starts nor ends with a
    blank is the core. *)
Lemma trim_core a core b :
  Forall (fun c => isWhiteSpace c = true) a ->
  Forall (fun c => isWhiteSpace c = true) b ->
  match core with c :: _ => isWhiteSpace c = false | [] => True end ->
  match rev core with c :: _ => isWhiteSpace c = false | [] => True end ->
  trim (a ++ core ++ b) = core.
Proof.
  intros Ha Hb Hhead Hlast. unfold trim, trimEnd.
  rewrite (trimStart_blank a _ Ha).
  destruct core as [|c core].
  - simpl app. replace (trimStart b) with (@nil N).
    + reflexivity.
    + rewrite <- (app_nil_r b), (trimStart_blank b [] Hb). reflexivity.
  - rewrite (trimStart_fixed ((c :: core) ++ b)) by exact Hhead.
    rewrite rev_app_distr, trimStart_blank by (apply Forall_rev, Hb).
    rewrite (trimStart_fixed _ Hlast). apply rev_involutive.
Qed.

(** Every string is blanks, then its [trim], then blanks. *)
Lemma trim_decompose s :
  exists a b,
    Forall (fun c => isWhiteSpace c = true) a /\
    Forall (fun c => isWhiteSpace c = true) b /\
    s = a ++ trim s ++ b /\
    match rev (trim s) with c :: _ => isWhiteSpace c = false | [] => True end.
Proof.
  destruct (trimStart_blank_prefix s) as (a & Ha & Hs).
  destruct (trimStart_blank_prefix (rev (trimStart s))) as (b & Hb & Hu).
  exists a, (rev b). split; [exact Ha|]. split; [apply Forall_rev, Hb|].
  unfold trim, trimEnd. rewrite rev_involutive. split.
  - rewrite <- rev_app_distr, <- Hu, rev_involutive. exact Hs.
  - apply trimStart_head.
Qed.

Lemma trim_blanks_around ws1 s ws2 :
  Forall (fun c => isWhiteSpace c = true) ws1 ->
  Forall (fun c => isWhiteSpace c = true) ws2 ->
  trim (ws1 ++ s ++ ws2) = trim s.
Proof.
  intros H1 H2.
  destruct (trim_decompose s) as (a & b & Ha & Hb & Hs & Hlast).
  rewrite Hs at 1.
  replace (ws1 ++ (a ++ trim s ++ b) ++ ws2)
    with ((ws1 ++ a) ++ trim s ++ (b ++ ws2))
    by (rewrite <- !app_assoc; reflexivity).
  apply trim_core.
  - apply Forall_app; split; assumption.
  - apply Forall_app; split; assumption.
  - apply trim_head.
  - exact Hlast.
Qed.

(** ** Classification and surrounding blanks *)

(** X5: blanks around a violation code (spaces, tabs, line ends, no-break
    spaces) change neither its tier nor its points. *)
Theorem classification_ignores_blanks (ws1 code ws2 : jsstring) :
  Forall (fun c => isWhiteSpace c = true) ws1 ->
  Forall (fun c => isWhiteSpace c = true) ws2 ->
  classifyViolation (ws1 ++ code ++ ws2) = classifyViolation code /\
  getViolationPoints (ws1 ++ code ++ ws2) = getViolationPoints code.
Proof.
  intros H1 H2. unfold classifyViolation, getViolationPoints.
  rewrite (trim_blanks_around ws1 code ws2 H1 H2). split; reflexivity.
Qed.

Lemma classification_ignores_blanks_witness :
  classifyViolation ([9; 32]%N ++ js "3-401.11" ++ [160; 10]%N)
  = classifyViolation (js "3-401.11") /\
  getViolationPoints ([9; 32]%N ++ js "3-401.11" ++ [160; 10]%N)
  = getViolationPoints (js "3-401.11").
Proof.
  apply classification_ignores_blanks;
    repeat (constructor; [reflexivity|]); constructor.
Defined.

(** ** The category returned *)

Lemma FACILITY_CATEGORIES_default :
  js "Restaurant" ∈ List.map fst FACILITY_CATEGORIES.
Proof. apply (bool_decide_unpack _). vm_compute. exact I. Qed.

Lemma categorizeFacility_names `{Host} (name addr : jsstring) :
  categorizeFacility name addr ∈ List.map fst FACILITY_CATEGORIES.
Proof.
  unfold categorizeFacility. cbv zeta.
  destruct (scanCategories_spec (toLowerCase (name ++ js " " ++ addr))
              FACILITY_CATEGORIES (js "Restaurant", -999))
    as [[Hb _]|(i & entry & Hi & _ & Hb & _)]; cbv zeta in Hb; rewrite Hb.
  - apply FACILITY_CATEGORIES_default.
  - cbn [fst]. apply (list_elem_of_fmap_2 fst).
    apply (list_elem_of_lookup_2 _ i). exact Hi.
Qed.

(** X6: whatever the name and the address, the category returned is the
    name of an entry of the table. *)
Theorem categorizeFacility_in_table `{Host} (name addr : jsstring) :
  categorizeFacility name addr ∈ List.map fst FACILITY_CATEGORIES.
Proof. apply categorizeFacility_names. Qed.

(** ** Scores at the ends of the scale *)

Lemma sumOfPoints_app vs more :
  sumOfPoints (vs ++ more) = sumOfPoints vs + sumOfPoints more.
Proof.
  induction vs as [|v vs IH]; simpl; [reflexivity|]. rewrite IH. lia.
Qed.

Lemma risk_level_bands_of_score score :
  50 <= score -> getRiskLevel score = CRITICAL /\ getColor score = crimson.
Proof.
  intros Hs. unfold getRiskLevel, getColor.
  destruct (Z.eqb_spec score 0); [lia|].
  repeat match goal with
         | |- context [?a <=? ?b] => destruct (Z.leb_spec a b); try lia
         end.
  rewrite Z.geb_leb. destruct (Z.leb_spec 50 score); [|lia].
  split; reflexivity.
Qed.

(** X7: the risk score is 0 exactly when there is no violation and neither
    flag is set, and only then is the level EXCELLENT and the colour green;
    a closure gives at least 50, hence CRITICAL and crimson; more
    violations never lower the score. *)
Theorem risk_score_extremes (violations more : list Violation)
    (closure reinspection : bool) :
  (calculateRiskScore violations closure reinspection = 0
   <-> violations = [] /\ closure = false /\ reinspection = false) /\
  (getRiskLevel (calculateRiskScore violations closure reinspection)
   = EXCELLENT
   <-> violations = [] /\ closure = false /\ reinspection = false) /\
  (getColor (calculateRiskScore violations closure reinspection) = green
   <-> violations = [] /\ closure = false /\ reinspection = false) /\
  (closure = true ->
   50 <= calculateRiskScore violations closure reinspection /\
   getRiskLevel (calculateRiskScore violations closure reinspection)
   = CRITICAL /\
   getColor (calculateRiskScore violations closure reinspection) = crimson) /\
  calculateRiskScore violations closure reinspection
  <= calculateRiskScore (violations ++ more) closure reinspection.
Proof.
  assert (Hsum : forall vs c r,
            calculateRiskScore vs c r
            = Z.min (sumOfPoints vs + (if c : bool then 50 else 0)
                     + (if r : bool then 10 else 0)) 100).
  { intros vs c r. unfold calculateRiskScore. rewrite fold_points.
    destruct c, r; cbv zeta; f_equal; lia. }
  assert (Hzero : calculateRiskScore violations closure reinspection = 0
                  <-> violations = [] /\ closure = false
                      /\ reinspection = false).
  { rewrite Hsum. pose proof (sumOfPoints_bounds violations) as Hb. split.
    - intros Hz. destruct violations as [|v vs].
      + destruct closure, reinspection; simpl in Hz; try discriminate Hz.
        auto.
      + simpl length in Hb. destruct closure, reinspection; lia.
    - intros (-> & -> & ->). reflexivity. }
  pose proof (risk_score_bounds violations closure reinspection) as [Hlo Hhi].
  split; [exact Hzero|]. split; [|split; [|split]].
  - rewrite <- Hzero. unfold getRiskLevel.
    destruct (Z.eqb_spec (calculateRiskScore violations closure reinspection) 0)
      as [Hz|Hnz]; [tauto|].
    split; [|tauto].
    repeat match goal with
           | |- context [?a <=? ?b] => destruct (a <=? b)
           end; discriminate.
  - rewrite <- Hzero. unfold getColor.
    repeat match goal with
           | |- context [?a >=? ?b] =>
               rewrite (Z.geb_leb a b); destruct (Z.leb_spec b a)
           | |- context [?a >? ?b] =>
               rewrite (Z.gtb_ltb a b); destruct (Z.ltb_spec b a)
           end; split; intros Hx; try discriminate Hx; try reflexivity; lia.
  - intros ->. rewrite Hsum.
    pose proof (sumOfPoints_bounds violations) as Hb.
    assert (Hge : 50 <= Z.min (sumOfPoints violations + 50
                               + (if reinspection then 10 else 0)) 100)
      by (destruct reinspection; lia).
    split; [exact Hge|].
    destruct (risk_level_bands_of_score
                (Z.min (sumOfPoints violations + 50
                        + (if reinspection then 10 else 0)) 100) Hge)
      as [Hl Hc].
    split; assumption.
  - rewrite !Hsum.
    rewrite sumOfPoints_app. pose proof (sumOfPoints_bounds more).
    destruct closure, reinspection; lia.
Qed.

Lemma risk_score_extremes_witness :
  let v := mkViolation (Some (js "6-301.14")) None [] [] noncritical in
  50 <= calculateRiskScore [v] true false /\
  getRiskLevel (calculateRiskScore [v] true false) = CRITICAL /\
  getColor (calculateRiskScore [v] true false) = crimson.
Proof.
  intros v.
  destruct (risk_score_extremes [v] [] true false) as (_ & _ & _ & Hc & _).
  apply Hc. reflexivity.
Defined.

(** ** The violations read from a modal *)

Lemma modalStep_cases vs seen row :
  modalStep (vs, seen) row
  = if truthy (Some (rowCode row)) then
      if decide (rowKey row ∈ seen) then (vs, seen)
      else (vs ++ [violationOfRow row], {[rowKey row]} ∪ seen)
    else (vs, seen).
Proof. reflexivity. Qed.

Lemma modalStep_fold rows : forall vs seen,
  (forall k, k ∈ seen <-> k ∈ List.map violationKey vs) ->
  NoDup (List.map violationKey vs) ->
  exists added,
    fst (fold_left modalStep rows (vs, seen)) = vs ++ added /\
    NoDup (List.map violationKey (vs ++ added)) /\
    sublist added (List.map violationOfRow rows) /\
    Forall (fun v => truthy (violationCode v) = true) added /\
    (forall row, row ∈ rows -> rowCode row <> [] ->
       rowKey row ∈ List.map violationKey (vs ++ added)).
Proof.
  induction rows as [|row rows IH]; intros vs seen Hseen Hnd.
  - exists []. rewrite app_nil_r. simpl.
    split; [reflexivity|]. split; [exact Hnd|]. split; [constructor|].
    split; [constructor|]. intros row Hin. inversion Hin.
  - change (fold_left modalStep (row :: rows) (vs, seen))
      with (fold_left modalStep rows (modalStep (vs, seen) row)).
    rewrite modalStep_cases.
    destruct (truthy (Some (rowCode row))) eqn:Hcode.
    + destruct (decide (rowKey row ∈ seen)) as [Hin|Hnin].
      * destruct (IH vs seen Hseen Hnd)
          as (added & Hfold & Hnd' & Hsub & Hcodes & Hkeys).
        exists added. split; [exact Hfold|]. split; [exact Hnd'|].
        split; [apply sublist_cons, Hsub|]. split; [exact Hcodes|].
        intros row' Hin' Hne. apply elem_of_cons in Hin'.
        destruct Hin' as [->|Hin']; [|apply Hkeys; assumption].
        rewrite map_app. apply elem_of_app. left. apply Hseen, Hin.
      * destruct (IH (vs ++ [violationOfRow row]) ({[rowKey row]} ∪ seen))
          as (added & Hfold & Hnd' & Hsub & Hcodes & Hkeys).
        { intros k. rewrite map_app, elem_of_app, elem_of_union,
            elem_of_singleton, Hseen. simpl.
          rewrite list_elem_of_singleton. unfold violationKey at 2.
          simpl. fold (rowKey row). tauto. }
        { rewrite map_app. apply NoDup_app. split; [exact Hnd|].
          split; [|apply NoDup_singleton].
          intros k Hk Hk'. simpl in Hk'.
          apply list_elem_of_singleton in Hk'. subst k.
          apply Hnin, Hseen, Hk. }
        exists (violationOfRow row :: added).
        replace (vs ++ violationOfRow row :: added)
          with ((vs ++ [violationOfRow row]) ++ added)
          by (rewrite <- app_assoc; reflexivity).
        split; [exact Hfold|]. split; [exact Hnd'|].
        split; [apply sublist_skip, Hsub|].
        split; [constructor; [exact Hcode|exact Hcodes]|].
        intros row' Hin' Hne. apply elem_of_cons in Hin'.
        destruct Hin' as [->|Hin']; [|apply Hkeys; assumption].
        rewrite !map_app. apply elem_of_app. left. apply elem_of_app. right.
        left.
    + destruct (IH vs seen Hseen Hnd)
        as (added & Hfold & Hnd' & Hsub & Hcodes & Hkeys).
      exists added. split; [exact Hfold|]. split; [exact Hnd'|].
      split; [apply sublist_cons, Hsub|]. split; [exact Hcodes|].
      intros row' Hin' Hne. apply elem_of_cons in Hin'.
      destruct Hin' as [->|Hin']; [|apply Hkeys; assumption].
      destruct (rowCode row); [contradiction|discriminate Hcode].
Qed.

Lemma codeOf_violationOfRow row : codeOf (violationOfRow row) = rowCode row.
Proof. unfold codeOf, violationOfRow. simpl. destruct (rowCode row); reflexivity. Qed.

(** X8: the violations read from a modal are the objects of its rows that
    have a code, in row order, a row left out when an earlier row has the
    same code|explanation|comments key: no two violations share a key,
    every row with a code has its key among them, and each violation's tier
    is the classification of the code the scorer reads from it. *)
Theorem modal_violations_deduplicated (headerDate : jsstring)
    (rows : list ViolationRow) :
  let vs := fst (scrapeViolationsModal headerDate rows) in
  NoDup (List.map violationKey vs) /\
  sublist vs (List.map violationOfRow rows) /\
  (forall v, v ∈ vs ->
     exists row, row ∈ rows /\ rowCode row <> [] /\ v = violationOfRow row) /\
  (forall row, row ∈ rows -> rowCode row <> [] ->
     exists v, v ∈ vs /\ violationKey v = rowKey row) /\
  (forall v, v ∈ vs -> section v = classifyViolation (codeOf v)) /\
  snd (scrapeViolationsModal headerDate rows) = headerDate.
Proof.
  intros vs. subst vs. unfold scrapeViolationsModal. simpl fst. simpl snd.
  destruct (modalStep_fold rows [] ∅)
    as (added & Hfold & Hnd & Hsub & Hcodes & Hkeys).
  { intros k. simpl. split; intros Hk; inversion Hk. }
  { constructor. }
  simpl app in *. rewrite Hfold.
  assert (Hrows : forall v, v ∈ added ->
            exists row, row ∈ rows /\ rowCode row <> []
                        /\ v = violationOfRow row).
  { intros v Hv.
    pose proof (elem_of_sublist _ _ v Hv Hsub) as Hin.
    apply list_elem_of_fmap_1 in Hin. destruct Hin as (row & -> & Hrow).
    exists row. split; [exact Hrow|]. split; [|reflexivity].
    rewrite Forall_forall in Hcodes. specialize (Hcodes _ Hv).
    simpl in Hcodes. intros Heq. rewrite Heq in Hcodes. discriminate. }
  split; [exact Hnd|]. split; [exact Hsub|]. split; [exact Hrows|].
  split; [|split; [|reflexivity]].
  - intros row Hrow Hne. specialize (Hkeys row Hrow Hne).
    apply list_elem_of_fmap_1 in Hkeys. destruct Hkeys as (v & Hk & Hv).
    exists v. split; [exact Hv|]. symmetry. exact Hk.
  - intros v Hv. destruct (Hrows v Hv) as (row & _ & _ & ->).
    rewrite codeOf_violationOfRow. reflexivity.
Qed.

(** A row repeated and a row without a code: two violations remain. *)
Lemma modal_violations_deduplicated_witness :
  fst (scrapeViolationsModal (js "03/04/2024")
         [Modal.handwash; Modal.blank; Modal.lighting; Modal.handwash])
  = [violationOfRow Modal.handwash; violationOfRow Modal.lighting] /\
  exists v,
    v ∈ fst (scrapeViolationsModal (js "03/04/2024")
               [Modal.handwash; Modal.blank; Modal.lighting; Modal.handwash])
    /\ violationKey v = rowKey Modal.lighting.
Proof.
  split; [vm_compute; reflexivity|].
  destruct (modal_violations_deduplicated (js "03/04/2024")
              [Modal.handwash; Modal.blank; Modal.lighting; Modal.handwash])
    as (_ & _ & _ & Hkeys & _).
  apply (Hkeys Modal.lighting).
  - do 2 apply list_elem_of_further. apply list_elem_of_here.
  - vm_compute. discriminate.
Defined.

(** Two rows that differ in every field are taken for the same when the
    "|" of the key falls inside a field: the second is dropped. *)
Lemma modal_key_collision :
  let first := mkViolationRow (js "3-401.11") (js "raw|cold") [] in
  let second := mkViolationRow (js "3-401.11|raw") (js "cold") [] in
  rowKey first = rowKey second /\
  fst (scrapeViolationsModal [] [first; second]) = [violationOfRow first].
Proof. split; vm_compute; reflexivity. Qed.

(** ** Tiers and points in a scraped record *)

Lemma modal_violations_fold_facts headerDate rows :
  NoDup (List.map violationKey (fst (scrapeViolationsModal headerDate rows)))
  /\ forall v, v ∈ fst (scrapeViolationsModal headerDate rows) ->
       section v = classifyViolation (codeOf v).
Proof.
  unfold scrapeViolationsModal. simpl fst.
  destruct (modalStep_fold rows [] ∅)
    as (added & Hfold & Hnd & Hsub & _).
  { intros k. simpl. split; intros Hk; inversion Hk. }
  { constructor. }
  simpl app in *. rewrite Hfold. split; [exact Hnd|].
  intros v Hv. pose proof (elem_of_sublist _ _ v Hv Hsub) as Hin.
  apply list_elem_of_fmap_1 in Hin. destruct Hin as (row & -> & _).
  rewrite codeOf_violationOfRow. reflexivity.
Qed.

Lemma points_of_tier code :
  match classifyViolation code with
  | critical => 3 <= getViolationPoints code <= 15
  | noncritical => getViolationPoints code = 1
  end.
Proof.
  rewrite classifyViolation_cases, getViolationPoints_cases. cbv zeta.
  destruct (tableMatches _ VIOLATION_SEVERITY.HIGH_PRIORITY); [lia|].
  destruct (tableMatches _ VIOLATION_SEVERITY.MEDIUM_PRIORITY); [lia|].
  destruct (tableMatches _ VIOLATION_SEVERITY.LOW_PRIORITY); [lia|].
  destruct (tableMatches _ VIOLATION_SEVERITY.CORE); [reflexivity|].
  destruct (hasCriticalPrefix _); [lia|reflexivity].
Qed.

Lemma sumOfPoints_by_tier (vs : list Violation) :
  Forall (fun v => section v = classifyViolation (codeOf v)) vs ->
  let crit :=
    Z.of_nat (length (List.filter
      (fun v => bool_decide (section v = critical)) vs)) in
  let non :=
    Z.of_nat (length (List.filter
      (fun v => bool_decide (section v = noncritical)) vs)) in
  3 * crit + non <= sumOfPoints vs <= 15 * crit + non.
Proof.
  induction 1 as [|v vs Hv _ IH]; cbv zeta in *; simpl; [lia|].
  pose proof (points_of_tier (codeOf v)) as Hp. rewrite <- Hv in Hp.
  destruct (section v); simpl; lia.
Qed.

Lemma scrapeRow_violations `{Host} row record :
  scrapeRow row = Some record ->
  Forall (fun v => section v = classifyViolation (codeOf v))
    (violations record) /\
  NoDup (List.map violationKey (violations record)).
Proof.
  destruct row as [|cells]; simpl; [discriminate|].
  destruct (cellCount cells <? 6)%nat; [discriminate|].
  destruct (includes (toLowerCase (inspectionTypeText cells)) (js "routine"));
    simpl; [|discriminate].
  intros Heq. inversion Heq; subst record; clear Heq. simpl.
  destruct (0 <? length (trim (violationsText cells)))%nat;
    [|split; constructor].
  destruct (reveal cells) as [| |headerDate rows]; try (split; constructor).
  destruct (modal_violations_fold_facts headerDate rows) as [Hnd Htier].
  split; [apply Forall_forall, Htier|exact Hnd].
Qed.

(** X9: in a record the row reader produces, no two violations share a
    key, and the points of the violations, before flags and clamp, lie
    between 3 per critical violation plus 1 per noncritical one and 15 per
    critical violation plus 1 per noncritical one. *)
Theorem scraped_record_points_by_tier `{Host} (row : Row)
    (record : InspectionRecord) :
  scrapeRow row = Some record ->
  NoDup (List.map violationKey (violations record)) /\
  3 * criticalCount record + noncriticalCount record
  <= sumOfPoints (violations record)
  <= 15 * criticalCount record + noncriticalCount record.
Proof.
  intros Hrow. destruct (scrapeRow_violations row record Hrow) as [Htier Hnd].
  split; [exact Hnd|].
  pose proof (sumOfPoints_by_tier (violations record) Htier) as Hsum.
  cbv zeta in Hsum.
  destruct row as [|cells]; simpl in Hrow; [discriminate|].
  destruct (cellCount cells <? 6)%nat; [discriminate|].
  destruct (includes (toLowerCase (inspectionTypeText cells)) (js "routine"));
    simpl in Hrow; [|discriminate].
  inversion Hrow; subst record; clear Hrow. simpl in *. exact Hsum.
Qed.

(** One critical and one noncritical violation: 15 + 1 points. *)
Lemma scraped_record_points_by_tier_witness :
  exists record,
    @scrapeRow Example.host Cited.row = Some record /\
    criticalCount record = 1 /\ noncriticalCount record = 1 /\
    3 * criticalCount record + noncriticalCount record
    <= sumOfPoints (violations record)
    <= 15 * criticalCount record + noncriticalCount record.
Proof.
  destruct (@scrapeRow Example.host Cited.row) as [record|] eqn:Hrow;
    [|vm_compute in Hrow; discriminate Hrow].
  exists record. split; [reflexivity|].
  destruct (@scraped_record_points_by_tier Example.host Cited.row record Hrow)
    as [_ Hsum].
  vm_compute in Hrow. inversion Hrow; subst record.
  split; [reflexivity|]. split; [reflexivity|]. exact Hsum.
Defined.

(** ** The city of an address *)

Lemma west_contains_des_moines :
  includes (js "west des moines") (js "des moines") = true.
Proof. vm_compute. reflexivity. Qed.

(** X10: an empty address has no city; a match of the pattern decides;
    otherwise the city is empty or one of the known municipalities whose
    lower-cased name occurs in the lower-cased address.  Des Moines stands
    before West Des Moines in the list and occurs in it, so that the list
    never yields West Des Moines: such an address gets Des Moines. *)
Theorem extractCity_fallback `{Host} (address : jsstring) :
  toLowerCase (js "Des Moines") = js "des moines" ->
  toLowerCase (js "West Des Moines") = js "west des moines" ->
  extractCity [] = [] /\
  (forall c, address <> [] -> cityMatchOf address = Some c ->
     extractCity address = c) /\
  (cityMatchOf address = None ->
   (extractCity address = []
    \/ (extractCity address ∈ knownCities /\
        includes (toLowerCase address) (toLowerCase (extractCity address))
        = true)) /\
   extractCity address <> js "West Des Moines" /\
   (address <> [] ->
    includes (toLowerCase address) (js "west des moines") = true ->
    extractCity address = js "Des Moines")).
Proof.
  intros Hdm Hwdm. split; [reflexivity|]. split.
  - intros c Hne Hm. unfold extractCity.
    destruct address; [contradiction|]. simpl. rewrite Hm. reflexivity.
  - intros Hm. unfold extractCity. rewrite Hm.
    destruct address as [|a0 address]; simpl negb; cbv iota.
    { split; [left; reflexivity|]. split; [discriminate|].
      intros Hne. contradiction. }
    set (addr := a0 :: address).
    assert (Hfind : forall cities,
              default [] (List.find
                (fun c => includes (toLowerCase addr) (toLowerCase c)) cities)
              = []
              \/ (default [] (List.find
                    (fun c => includes (toLowerCase addr) (toLowerCase c))
                    cities) ∈ cities
                  /\ includes (toLowerCase addr)
                       (toLowerCase (default [] (List.find
                          (fun c => includes (toLowerCase addr)
                                      (toLowerCase c)) cities)))
                     = true)).
    { induction cities as [|c cities IH]; simpl; [left; reflexivity|].
      destruct (includes (toLowerCase addr) (toLowerCase c)) eqn:E; simpl.
      - right. split; [left|exact E].
      - destruct IH as [IH|[IH1 IH2]]; [left; exact IH|].
        right. split; [right; exact IH1|exact IH2]. }
    split; [apply Hfind|].
    unfold knownCities. cbn [List.find]. rewrite Hdm.
    destruct (includes (toLowerCase addr) (js "des moines")) eqn:Edm.
    + split; [vm_compute; discriminate|]. intros _ _. reflexivity.
    + assert (Ewdm : includes (toLowerCase addr) (js "west des moines")
                     = false).
      { destruct (includes (toLowerCase addr) (js "west des moines")) eqn:E;
          [|reflexivity].
        rewrite (includes_trans _ _ _ E west_contains_des_moines) in Edm.
        discriminate Edm. }
      rewrite Hwdm, Ewdm. split; [|intros _ Habs; discriminate Habs].
      repeat match goal with
             | |- context [includes (toLowerCase addr) ?c] =>
                 destruct (includes (toLowerCase addr) c)
             end; vm_compute; discriminate.
Qed.

Lemma extractCity_fallback_witness :
  @extractCity Example.host (js "1200 Grand Ave, West Des Moines")
  = js "Des Moines".
Proof.
  destruct (@extractCity_fallback Example.host
              (js "1200 Grand Ave, West Des Moines") eq_refl eq_refl)
    as (_ & _ & Hlist).
  destruct Hlist as (_ & _ & Hwest); [reflexivity|].
  apply Hwest; [discriminate|vm_compute; reflexivity].
Defined.

(** ** Invariants of the crawl *)

Lemma trackDuplicate_seen (rs : list InspectionRecord) (d : Z)
    (seen : gset jsstring) :
  snd (fold_left trackDuplicate rs (d, seen))
  = seen ∪ list_to_set (List.map seenKey rs).
Proof.
  revert d seen. induction rs as [|r rs IH]; intros d seen; simpl.
  - rewrite union_empty_r_L. reflexivity.
  - destruct (decide (seenKey r ∈ seen)) as [Hin|Hnin]; rewrite IH.
    + rewrite (assoc_L (∪)). f_equal. symmetry.
      rewrite (comm_L (∪)). apply subseteq_union_1_L.
      apply singleton_subseteq_l, Hin.
    + rewrite (assoc_L (∪)). f_equal. apply (comm_L (∪)).
Qed.

Lemma trackDuplicate_all_counted rs d seen :
  fst (fold_left trackDuplicate rs (d, seen)) = d + Z.of_nat (length rs) ->
  forall r, r ∈ rs -> seenKey r ∈ seen.
Proof.
  revert d. induction rs as [|r rs IH]; intros d Hcount x Hx;
    [inversion Hx|].
  simpl in Hcount. destruct (decide (seenKey r ∈ seen)) as [Hin|Hnin].
  - apply elem_of_cons in Hx. destruct Hx as [->|Hx]; [exact Hin|].
    apply (IH (d + 1)); [|exact Hx]. simpl length in Hcount. lia.
  - pose proof (trackDuplicate_bound rs d ({[seenKey r]} ∪ seen)).
    simpl length in Hcount. lia.
Qed.

Lemma advance_pageNum st1 view :
  match advance st1 view with
  | Continue st' => pageNum st' = pageNum st1 + 1
  | Break PageLimit st' =>
      pageNum st' = pageNum st1 + 1 /\ 1000 <= pageNum st1
  | Break _ st' => pageNum st' = pageNum st1
  end.
Proof.
  unfold advance. destruct (mainPager view) as [pager|]; [|reflexivity].
  simpl. destruct (currentPageOf pager =? pageNum st1); simpl;
    [|reflexivity].
  destruct (nextPageExists pager); simpl.
  - destruct (pageNum st1 + 1 >? 1000) eqn:E; simpl; [|reflexivity].
    split; [reflexivity|lia].
  - destruct (ellipsisExists pager); [|reflexivity].
    destruct (ellipsisVerified pager); reflexivity.
Qed.

(** What one iteration does to the state. *)
Lemma crawlStep_facts `{Host} st view :
  let s := crawlStep st view in
  let results := scrapePageResults (rows view) in
  seenEstablishments (stateOf s)
  = seenEstablishments st ∪ list_to_set (List.map seenKey results) /\
  (consecutiveDuplicatePages (stateOf s) = 0
   \/ (consecutiveDuplicatePages (stateOf s)
       = consecutiveDuplicatePages st + 1
       /\ allDuplicates (seenEstablishments st) results)) /\
  (reasonOf s = Some PaginationLoop ->
   consecutiveDuplicatePages (stateOf s) = consecutiveDuplicatePages st + 1
   /\ 3 <= consecutiveDuplicatePages st + 1
   /\ pageNum (stateOf s) = pageNum st) /\
  (reasonOf s <> Some PaginationLoop ->
   consecutiveDuplicatePages (stateOf s) <= 2
   \/ consecutiveDuplicatePages (stateOf s) = 0) /\
  match s with
  | Continue st' => pageNum st' = pageNum st + 1
  | Break PageLimit st' => pageNum st' = pageNum st + 1 /\ 1000 <= pageNum st
  | Break _ st' => pageNum st' = pageNum st
  end.
Proof.
  cbv zeta. unfold crawlStep.
  pose proof (trackDuplicate_seen (scrapePageResults (rows view)) 0
                (seenEstablishments st)) as Hseen.
  pose proof (trackDuplicate_all_counted (scrapePageResults (rows view)) 0
                (seenEstablishments st)) as Hall.
  destruct (fold_left trackDuplicate (scrapePageResults (rows view))
              (0, seenEstablishments st)) as [dups seen].
  simpl in Hseen, Hall. subst seen.
  destruct ((0 <? Z.of_nat (length (scrapePageResults (rows view))))
            && (dups =? Z.of_nat (length (scrapePageResults (rows view)))))
    eqn:Hdup; simpl.
  - apply andb_true_iff in Hdup. destruct Hdup as [Hpos Heq].
    apply Z.ltb_lt in Hpos. apply Z.eqb_eq in Heq.
    assert (Hd : allDuplicates (seenEstablishments st)
                   (scrapePageResults (rows view))).
    { split; [|apply Hall; lia].
      intros Hnil. rewrite Hnil in Hpos. simpl in Hpos. lia. }
    unfold MAX_DUPLICATE_PAGES.
    destruct (consecutiveDuplicatePages st + 1 >=? 3) eqn:Hge; simpl.
    + split; [reflexivity|]. split; [right; auto|].
      split; [intros _; repeat split; lia|].
      split; [intros Hn; contradiction|reflexivity].
    + match goal with |- context [advance ?s view] =>
        destruct (advance_keeps s view) as (Hc & Hs & _ & Hr);
        pose proof (advance_pageNum s view) as Hp
      end.
      rewrite Hc, Hs. simpl. split; [reflexivity|]. split; [right; auto|].
      split; [intros Hx; contradiction|]. split; [intros _; left; lia|].
      exact Hp.
  - match goal with |- context [advance ?s view] =>
      destruct (advance_keeps s view) as (Hc & Hs & _ & Hr);
      pose proof (advance_pageNum s view) as Hp
    end.
    rewrite Hc, Hs. simpl. split; [reflexivity|]. split; [left; reflexivity|].
    split; [intros Hx; contradiction|]. split; [intros _; right; reflexivity|].
    exact Hp.
Qed.

Lemma seenIsResults_step `{Host} st view :
  seenIsResults st -> seenIsResults (stateOf (crawlStep st view)).
Proof.
  unfold seenIsResults. intros Hinv.
  destruct (crawlStep_facts st view) as (Hseen & _). cbv zeta in Hseen.
  rewrite Hseen, crawlStep_results, Hinv, map_app, list_to_set_app_L.
  reflexivity.
Qed.

(** X11: from its start, whatever the views, the crawl keeps:
    [seenEstablishments] is the set of the keys of [allResults]; about to
    scrape a page, [pageNum] is one more than the pages scraped and the
    duplicate counter is 0, 1 or 2; stopped by the pagination-loop failure,
    the counter is 3 and [pageNum] at least 4 (the first page can never
    count as a page of duplicates). *)
Theorem crawl_invariants `{Host} (views : list PageView) :
  match crawlLoop crawlStart views with
  | Awaiting st =>
      seenIsResults st /\
      pageNum st = 1 + Z.of_nat (length views) /\
      0 <= consecutiveDuplicatePages st <= 2
  | Finished why st =>
      seenIsResults st /\
      1 <= pageNum st <= 1 + Z.of_nat (length views) /\
      (why = PaginationLoop ->
       consecutiveDuplicatePages st = 3 /\ 4 <= pageNum st)
  end.
Proof.
  assert (Hgen : forall views n st,
            0 <= n -> crawlInv n st ->
            match crawlLoop st views with
            | Awaiting st' => crawlInv (n + Z.of_nat (length views)) st'
            | Finished why st' =>
                seenIsResults st' /\
                1 <= pageNum st' <= 1 + n + Z.of_nat (length views) /\
                (why = PaginationLoop ->
                 consecutiveDuplicatePages st' = 3 /\ 4 <= pageNum st')
            end).
  { clear views. induction views as [|view views IH]; intros n st Hn Hinv.
    - simpl. rewrite Z.add_0_r. exact Hinv.
    - simpl crawlLoop.
      destruct Hinv as (Hseen & Hpage & Hfirst & Hcount & Hroom).
      pose proof (seenIsResults_step st view Hseen) as Hseen'.
      destruct (crawlStep_facts st view)
        as (_ & Hc & Hloop & Hnoloop & Hp). cbv zeta in *.
      assert (Hfresh : pageNum st = 1 ->
                consecutiveDuplicatePages (stateOf (crawlStep st view)) = 0).
      { intros H1. destruct Hc as [Hc|[_ [Hne Hall]]]; [exact Hc|].
        exfalso. destruct (scrapePageResults (rows view)) as [|r rs];
          [contradiction|].
        specialize (Hall r (list_elem_of_here _ _)).
        unfold seenIsResults in Hseen. rewrite Hseen, (Hfirst H1) in Hall.
        simpl in Hall. set_solver. }
      destruct (crawlStep st view) as [st'|why st'] eqn:Hstep;
        simpl in Hseen', Hc, Hloop, Hnoloop, Hp, Hfresh.
      + assert (Hinv' : crawlInv (n + 1) st').
        { split; [exact Hseen'|]. split; [lia|]. split; [intros; lia|].
          assert (Hle : consecutiveDuplicatePages st' <= 2
                        \/ consecutiveDuplicatePages st' = 0)
            by (apply Hnoloop; discriminate).
          destruct Hc as [Hc|[Hc _]].
          - rewrite Hc. split; lia.
          - split; [lia|].
            destruct (decide (pageNum st = 1)) as [H1|H1];
              [rewrite (Hfresh H1); lia|]. lia. }
        specialize (IH (n + 1) st' ltac:(lia) Hinv').
        simpl length. rewrite Nat2Z.inj_succ.
        destruct (crawlLoop st' views) as [why st''|st''].
        * destruct IH as (Hs & Hpn & Hw). split; [exact Hs|].
          split; [lia|exact Hw].
        * replace (n + Z.succ (Z.of_nat (length views)))
            with (n + 1 + Z.of_nat (length views)) by lia.
          exact IH.
      + split; [exact Hseen'|]. simpl length. rewrite Nat2Z.inj_succ.
        split.
        * destruct why; lia.
        * intros ->. destruct (Hloop eq_refl) as (Hc3 & Hge & Hpn).
          split; [lia|].
          destruct (decide (pageNum st = 1)) as [H1|H1];
            [rewrite (Hfresh H1) in Hc3; lia|]. lia. }
  assert (Hstart : crawlInv 0 crawlStart).
  { unfold crawlInv, seenIsResults. simpl. repeat split; lia. }
  specialize (Hgen views 0 crawlStart ltac:(lia) Hstart).
  destruct (crawlLoop crawlStart views) as [why st|st].
  - destruct Hgen as (Hs & Hp & Hw). split; [exact Hs|].
    split; [lia|exact Hw].
  - destruct Hgen as (Hs & Hp & _ & Hc & _). split; [exact Hs|].
    split; [lia|exact Hc].
Qed.

Lemma crawlStep_advance `{Host} st view :
  reasonOf (crawlStep st view) <> Some PaginationLoop ->
  exists st1,
    crawlStep st view = advance st1 view /\ pageNum st1 = pageNum st.
Proof.
  intros Hno.
  destruct (crawlStep_shape st view)
    as (seen & count & _ & [[Hb _]|Hb]); cbv zeta in Hb.
  - rewrite Hb in Hno. contradiction.
  - eexists. split; [exact Hb|reflexivity].
Qed.

(** X12: an iteration that is not stopped as a page of duplicates ends
    the crawl when there is no pager under the main grid, when the pager
    has neither a link to the next page nor "...", and when the page
    number is not the expected one after a click on "...": none of these
    is retried; with the "..." click verified the crawl goes on.  At these
    stops [pageNum] stays as it was. *)
Theorem crawl_end_reasons `{Host} (st : CrawlState) (view : PageView) :
  reasonOf (crawlStep st view) <> Some PaginationLoop ->
  (mainPager view = None ->
   reasonOf (crawlStep st view) = Some NoMainPager) /\
  (forall pager,
     mainPager view = Some pager ->
     currentPageOf pager = pageNum st ->
     nextPageExists pager = false ->
     (ellipsisExists pager = false ->
      reasonOf (crawlStep st view) = Some NoMorePages) /\
     (ellipsisExists pager = true -> ellipsisVerified pager = false ->
      reasonOf (crawlStep st view) = Some VerificationFailed) /\
     (ellipsisExists pager = true -> ellipsisVerified pager = true ->
      reasonOf (crawlStep st view) = None)) /\
  (forall why,
     reasonOf (crawlStep st view) = Some why -> why <> PageLimit ->
     pageNum (stateOf (crawlStep st view)) = pageNum st).
Proof.
  intros Hno. destruct (crawlStep_advance st view Hno) as (st1 & Hstep & Hpn).
  rewrite Hstep. split; [|split].
  - intros Hp. unfold advance. rewrite Hp. reflexivity.
  - intros pager Hp Hcur Hnext. unfold advance. rewrite Hp. simpl.
    rewrite Hpn, Hcur, Z.eqb_refl, Hnext. simpl.
    repeat split; intros; repeat match goal with
                                 | E : _ = _ |- _ => rewrite E
                                 end; reflexivity.
  - intros why Hwhy Hne. pose proof (advance_pageNum st1 view) as Hp.
    destruct (advance st1 view) as [st'|why' st']; [discriminate|].
    simpl in Hwhy. inversion Hwhy; subst why'. simpl.
    destruct why; try contradiction; lia.
Qed.

Lemma crawl_end_reasons_witness :
  reasonOf (@crawlStep Example.host crawlStart
              (mkPageView [Grid.uno]
                 (Some (mkPager (Some 1) false true false))))
  = Some VerificationFailed.
Proof.
  destruct (@crawl_end_reasons Example.host crawlStart
              (mkPageView [Grid.uno]
                 (Some (mkPager (Some 1) false true false))))
    as (_ & Hpager & _); [vm_compute; discriminate|].
  apply (Hpager (mkPager (Some 1) false true false)); reflexivity.
Defined.

Lemma crawlLoop_pageNum `{Host} views : forall st st',
  crawlLoop st views = Awaiting st' ->
  pageNum st' = pageNum st + Z.of_nat (length views).
Proof.
  induction views as [|view views IH]; intros st st' Hloop; simpl in Hloop.
  - inversion Hloop; subst st'. simpl. lia.
  - pose proof (crawlStep_facts st view) as (_ & _ & _ & _ & Hp).
    cbv zeta in Hp.
    destruct (crawlStep st view) as [st1|why st1]; [|discriminate].
    rewrite (IH st1 st' Hloop), Hp. simpl length. lia.
Qed.

Lemma crawl_pageNum_awaiting `{Host} views st :
  crawlLoop crawlStart views = Awaiting st ->
  pageNum st = 1 + Z.of_nat (length views).
Proof. intros Hloop. rewrite (crawlLoop_pageNum views _ _ Hloop). reflexivity. Qed.

Lemma linksOnly_tail view views : linksOnly (view :: views) -> linksOnly views.
Proof.
  intros Hl v pager Hin Hp. apply (Hl v pager); [right; exact Hin|exact Hp].
Qed.

Lemma crawlLoop_links_limit `{Host} views : forall st,
  linksOnly views -> pageNum st <= 1000 ->
  forall st', crawlLoop st views = Awaiting st' -> pageNum st' <= 1000.
Proof.
  induction views as [|view views IH]; intros st Hlinks Hle st' Hloop.
  - simpl in Hloop. inversion Hloop; subst st'. exact Hle.
  - simpl in Hloop.
    destruct (crawlStep st view) as [st1|why st1] eqn:Hstep;
      [|discriminate].
    apply (IH st1 (linksOnly_tail _ _ Hlinks)); [|exact Hloop].
    destruct (mainPager view) as [pager|] eqn:Hp.
    + apply (link_advance_checks_limit st view pager st1 Hp); [|exact Hstep].
      apply (Hlinks view pager); [left|exact Hp].
    + exfalso.
      assert (Hno : reasonOf (crawlStep st view) <> Some PaginationLoop)
        by (rewrite Hstep; discriminate).
      destruct (crawlStep_advance st view Hno) as (st0 & Hadv & _).
      rewrite Hstep in Hadv. unfold advance in Hadv. rewrite Hp in Hadv.
      discriminate Hadv.
Qed.

(** X13: the ceiling holds on the link path: the crawl stops with the
    page-limit warning only after a click on the link to the next page
    from page 1000 or beyond, and a crawl in which every pager links to
    the next page scrapes 1000 pages at most. *)
Theorem page_limit_on_link_path `{Host} :
  (forall st view,
     reasonOf (crawlStep st view) = Some PageLimit ->
     1000 <= pageNum st /\
     pageNum (stateOf (crawlStep st view)) = pageNum st + 1 /\
     exists pager,
       mainPager view = Some pager /\ nextPageExists pager = true) /\
  (forall views st,
     linksOnly views ->
     crawlLoop crawlStart views = Awaiting st ->
     pageNum st <= 1000 /\ (length views <= 999)%nat).
Proof.
  split.
  - intros st view Hwhy.
    assert (Hno : reasonOf (crawlStep st view) <> Some PaginationLoop)
      by (rewrite Hwhy; discriminate).
    destruct (crawlStep_advance st view Hno) as (st1 & Hstep & Hpn).
    rewrite Hstep in Hwhy |- *.
    pose proof (advance_pageNum st1 view) as Hp.
    unfold advance in Hwhy, Hp |- *.
    destruct (mainPager view) as [pager|]; [|discriminate].
    simpl in Hwhy, Hp |- *.
    destruct (currentPageOf pager =? pageNum st1); simpl in Hwhy, Hp |- *;
      [|discriminate].
    destruct (nextPageExists pager) eqn:Enext; simpl in Hwhy, Hp |- *.
    + destruct (pageNum st1 + 1 >? 1000) eqn:E; [|discriminate].
      simpl. split; [lia|]. split; [lia|]. exists pager. auto.
    + destruct (ellipsisExists pager); [|discriminate].
      destruct (ellipsisVerified pager); discriminate.
  - intros views st Hlinks Hloop.
    assert (Hle : pageNum st <= 1000).
    { apply (crawlLoop_links_limit views crawlStart Hlinks); [|exact Hloop].
      simpl. lia. }
    split; [exact Hle|].
    pose proof (crawl_pageNum_awaiting views st Hloop) as Hpn. lia.
Qed.

(** With links only, the thousandth page is the last: the crawl is still
    going after 999 pages and has stopped, at the limit, after 1000. *)
Lemma page_limit_on_link_path_witness :
  (exists st,
     @crawlLoop Example.host crawlStart (Links.pages 999) = Awaiting st /\
     pageNum st <= 1000) /\
  exists st,
    @crawlLoop Example.host crawlStart (Links.pages 1000)
    = Finished PageLimit st /\ pageNum st = 1001.
Proof.
  split.
  - destruct (@crawlLoop Example.host crawlStart (Links.pages 999))
      as [why st|st] eqn:Hloop; [vm_compute in Hloop; discriminate Hloop|].
    exists st. split; [reflexivity|].
    destruct (@page_limit_on_link_path Example.host) as [_ Hlinks].
    apply (Hlinks (Links.pages 999) st); [|exact Hloop].
    intros view pager Hin Hp. unfold Links.pages in Hin.
    apply list_elem_of_fmap_1 in Hin. destruct Hin as (n & -> & _).
    simpl in Hp. inversion Hp. reflexivity.
  - eexists. vm_compute. split; reflexivity.
Defined.

(** ** Which record of a key the merge keeps *)

Section Kept.
Context `{Host}.

Lemma absorb_cases kept r :
  (laterDate (inspectionDate r) (inspectionDate kept) = true
   /\ absorb kept r = r)
  \/ (laterDate (inspectionDate r) (inspectionDate kept) = false
      /\ absorb kept r = backfill kept r).
Proof.
  unfold absorb. cbv zeta.
  destruct (laterDate (inspectionDate r) (inspectionDate kept)); auto.
Qed.

Lemma backfill_cases kept r :
  (truthy (facilityType r) = true /\ truthy (facilityType kept) = false
   /\ backfill kept r = setFacilityType kept (facilityType r))
  \/ backfill kept r = kept.
Proof.
  unfold backfill.
  destruct (truthy (facilityType r)); [|right; reflexivity].
  destruct (truthy (facilityType kept)); [right; reflexivity|].
  left. auto.
Qed.

Lemma dateOf_backfill kept r : dateOf (backfill kept r) = dateOf kept.
Proof. unfold dateOf. rewrite inspectionDate_backfill. reflexivity. Qed.

Lemma absorb_date kept r a b :
  dateOf kept = Some a -> dateOf r = Some b ->
  dateOf (absorb kept r) = Some (Z.max a b).
Proof.
  intros Ha Hb.
  destruct (absorb_cases kept r) as [[Hl ->]|[Hl ->]];
    unfold laterDate in Hl; unfold dateOf in Ha, Hb; rewrite Ha, Hb in Hl.
  - unfold dateOf. rewrite Hb. f_equal. lia.
  - rewrite dateOf_backfill. unfold dateOf. rewrite Ha. f_equal. lia.
Qed.

Lemma fold_absorb_date rest : forall first a,
  dateOf first = Some a ->
  Forall (fun r => is_Some (dateOf r)) rest ->
  exists m,
    dateOf (fold_left absorb rest first) = Some m /\ a <= m /\
    forall r b, r ∈ rest -> dateOf r = Some b -> b <= m.
Proof.
  induction rest as [|r rest IH]; intros first a Ha Hall; simpl.
  - exists a. split; [exact Ha|]. split; [lia|].
    intros r b Hin. inversion Hin.
  - apply Forall_cons in Hall. destruct Hall as [[b Hb] Hall].
    destruct (IH (absorb first r) (Z.max a b)
                (absorb_date first r a b Ha Hb) Hall)
      as (m & Hm & Hle & Hrest).
    exists m. split; [exact Hm|]. split; [lia|].
    intros r' b' Hin Hb'. apply elem_of_cons in Hin.
    destruct Hin as [->|Hin]; [|apply (Hrest r' b' Hin Hb')].
    rewrite Hb in Hb'. inversion Hb'; subst b'. lia.
Qed.

Lemma keptRecord_in_merged key data kept :
  keptRecord key data = Some kept -> kept ∈ mergedByKey data.
Proof.
  intros Hk. unfold mergedByKey. apply list_elem_of_omap.
  exists key. split; [|exact Hk].
  apply elem_of_firstOccurrences.
  destruct (decide (key ∈ List.map crossKey data)) as [Hin|Hnin];
    [exact Hin|].
  rewrite (keptRecord_absent key data Hnin) in Hk. discriminate Hk.
Qed.

Lemma merged_from_keptRecord data x :
  x ∈ mergedByKey data ->
  exists first rest,
    group (crossKey x) data = first :: rest /\
    x = fold_left absorb rest first.
Proof.
  unfold mergedByKey. intros Hin. apply list_elem_of_omap in Hin.
  destruct Hin as (key & _ & Hk).
  pose proof (keptRecord_key key data x Hk) as Hkey. subst key.
  unfold keptRecord in Hk.
  destruct (group (crossKey x) data) as [|first rest]; [discriminate|].
  inversion Hk. exists first, rest. split; reflexivity.
Qed.

(** A kept record that no later record of its key beats stays, but for
    its facility type. *)
Lemma fold_absorb_first_stays rest : forall first acc v,
  acc = setFacilityType first v ->
  (forall r, r ∈ rest ->
     laterDate (inspectionDate r) (inspectionDate first) = false) ->
  exists v', fold_left absorb rest acc = setFacilityType first v'.
Proof.
  induction rest as [|r rest IH]; intros first acc v Hacc Hno; simpl.
  - exists v. exact Hacc.
  - assert (Hl : laterDate (inspectionDate r) (inspectionDate acc) = false).
    { rewrite Hacc. simpl. apply Hno. left. }
    destruct (absorb_cases acc r) as [[Hl' _]|[_ Ha]]; [congruence|].
    rewrite Ha.
    destruct (backfill_cases acc r) as [(_ & _ & Hb)|Hb]; rewrite Hb.
    + apply (IH first _ (facilityType r)).
      * rewrite Hacc. reflexivity.
      * intros r' Hr'. apply Hno. right. exact Hr'.
    + apply (IH first acc v Hacc). intros r' Hr'. apply Hno. right. exact Hr'.
Qed.

(** Where a kept record comes from. *)
Lemma fold_absorb_origin rest : forall first acc,
  (exists r, r ∈ first :: rest /\
     acc = setFacilityType r (facilityType acc) /\
     (facilityType acc = facilityType r
      \/ (truthy (facilityType r) = false /\
          exists r', r' ∈ first :: rest /\
            truthy (facilityType r') = true /\
            facilityType acc = facilityType r'))) ->
  forall todo, (forall r, r ∈ todo -> r ∈ first :: rest) ->
  exists r, r ∈ first :: rest /\
    fold_left absorb todo acc
    = setFacilityType r (facilityType (fold_left absorb todo acc)) /\
    (facilityType (fold_left absorb todo acc) = facilityType r
     \/ (truthy (facilityType r) = false /\
         exists r', r' ∈ first :: rest /\
           truthy (facilityType r') = true /\
           facilityType (fold_left absorb todo acc) = facilityType r')).
Proof.
  intros first acc Hacc todo. revert acc Hacc.
  induction todo as [|new todo IH]; intros acc Hacc Hsub; simpl;
    [exact Hacc|].
  apply IH; [|intros r Hr; apply Hsub; right; exact Hr].
  assert (Hnew : new ∈ first :: rest) by (apply Hsub; left).
  destruct Hacc as (r & Hr & Heq & Hft).
  destruct (absorb_cases acc new) as [[_ ->]|[_ ->]].
  - exists new. split; [exact Hnew|].
    split; [symmetry; apply setFacilityType_same|left; reflexivity].
  - destruct (backfill_cases acc new) as [(Hn & Ha & Hb)|Hb]; rewrite Hb.
    + exists r. split; [exact Hr|]. simpl. split.
      * rewrite Heq. reflexivity.
      * right. split.
        -- destruct Hft as [Hft|(Hf & _)]; [rewrite <- Hft; exact Ha|exact Hf].
        -- exists new. auto.
    + exists r. auto.
Qed.

End Kept.

(** X14: when every inspection date parses, the merge keeps for each
    establishment a record of the latest date: for every input record the
    output has a record of the same key whose date is not earlier. *)
Theorem merge_keeps_most_recent `{Host} (data : list InspectionRecord) :
  (forall r, r ∈ data -> is_Some (dateOf r)) ->
  forall r, r ∈ data ->
    exists kept m b,
      kept ∈ keepMostRecentInspections data /\
      crossKey kept = crossKey r /\
      dateOf kept = Some m /\ dateOf r = Some b /\ b <= m.
Proof.
  intros Hdates r Hr. rewrite keepMostRecentInspections_grouped.
  assert (Hk : crossKey r ∈ List.map crossKey data)
    by (apply list_elem_of_fmap_2, Hr).
  destruct (keptRecord_present _ _ Hk) as [kept Hkept].
  pose proof (keptRecord_key _ _ _ Hkept) as Hkey.
  pose proof (keptRecord_in_merged _ _ _ Hkept) as Hin.
  unfold keptRecord in Hkept.
  assert (Hg : r ∈ group (crossKey r) data)
    by (apply list_elem_of_filter; auto).
  assert (Hgd : Forall (fun x => is_Some (dateOf x)) (group (crossKey r) data)).
  { apply Forall_forall. intros x Hx. apply list_elem_of_filter in Hx.
    apply Hdates. tauto. }
  destruct (group (crossKey r) data) as [|first rest]; [discriminate|].
  inversion Hkept; subst kept; clear Hkept.
  apply Forall_cons in Hgd. destruct Hgd as [[a Ha] Hrest].
  destruct (fold_absorb_date rest first a Ha Hrest) as (m & Hm & Hle & Hmax).
  destruct (Hdates r Hr) as [b Hb].
  exists (fold_left absorb rest first), m, b.
  split; [exact Hin|]. split; [exact Hkey|]. split; [exact Hm|].
  split; [exact Hb|].
  apply elem_of_cons in Hg. destruct Hg as [->|Hg].
  - rewrite Ha in Hb. inversion Hb; subst b. exact Hle.
  - apply (Hmax r b Hg Hb).
Qed.

Lemma merge_keeps_most_recent_witness :
  exists kept m b,
    kept ∈ @keepMostRecentInspections Example.host
             [Data.joeJanuary; Data.joeJune; Data.joeOlder] /\
    @crossKey Example.host kept = @crossKey Example.host Data.joeOlder /\
    @dateOf Example.host kept = Some m /\
    @dateOf Example.host Data.joeOlder = Some b /\ b <= m.
Proof.
  apply (@merge_keeps_most_recent Example.host
           [Data.joeJanuary; Data.joeJune; Data.joeOlder]).
  - intros r Hr.
    repeat (apply elem_of_cons in Hr; destruct Hr as [->|Hr];
            [vm_compute; eauto|]).
    inversion Hr.
  - do 2 apply list_elem_of_further. apply list_elem_of_here.
Defined.

Lemma group_first `{Host} before first after :
  (forall r, r ∈ before -> crossKey r <> crossKey first) ->
  group (crossKey first) (before ++ first :: after)
  = first :: group (crossKey first) after.
Proof.
  intros Hb. unfold group. rewrite filter_app.
  rewrite filter_cons_True by reflexivity.
  replace (filter (fun r => crossKey r = crossKey first) before)
    with (@nil InspectionRecord); [reflexivity|].
  symmetry. induction before as [|x before IH]; [reflexivity|].
  rewrite filter_cons_False by (apply Hb; left).
  apply IH. intros r Hr. apply Hb. right. exact Hr.
Qed.

(** X15: a kept record is replaced only by a strictly later one: the
    first record of an establishment stays in the output, with at most its
    facility type filled in, when no later record of the establishment has
    a date that compares as later.  So it is with equal dates, and so it is
    whenever the first record's date does not parse: no record, however
    recent, replaces it. *)
Theorem merge_replaces_only_by_later `{Host}
    (before after : list InspectionRecord) (first : InspectionRecord) :
  (forall r, r ∈ before -> crossKey r <> crossKey first) ->
  ((forall r, r ∈ after -> crossKey r = crossKey first ->
      laterDate (inspectionDate r) (inspectionDate first) = false) ->
   exists v,
     setFacilityType first v
     ∈ keepMostRecentInspections (before ++ first :: after)) /\
  (dateOf first = None ->
   exists v,
     setFacilityType first v
     ∈ keepMostRecentInspections (before ++ first :: after)).
Proof.
  intros Hb.
  assert (Hgen : (forall r, r ∈ after -> crossKey r = crossKey first ->
                    laterDate (inspectionDate r) (inspectionDate first)
                    = false) ->
                 exists v,
                   setFacilityType first v
                   ∈ keepMostRecentInspections (before ++ first :: after)).
  { intros Hno. rewrite keepMostRecentInspections_grouped.
    destruct (fold_absorb_first_stays (group (crossKey first) after)
                first first (facilityType first))
      as [v Hv].
    - symmetry. apply setFacilityType_same.
    - intros r Hr. apply list_elem_of_filter in Hr. destruct Hr as [Hk Hr].
      apply Hno; assumption.
    - exists v. rewrite <- Hv.
      apply (keptRecord_in_merged (crossKey first)).
      unfold keptRecord. rewrite (group_first before first after Hb).
      reflexivity. }
  split; [exact Hgen|].
  intros Hnone. apply Hgen. intros r _ _. unfold laterDate.
  unfold dateOf in Hnone. rewrite Hnone.
  destruct (dateValue (inspectionDate r)); reflexivity.
Qed.

(** The record with the unreadable date stays in front of the 2025
    inspection, taking only its facility type. *)
Lemma merge_replaces_only_by_later_witness :
  exists v,
    setFacilityType Undated.joe v
    ∈ @keepMostRecentInspections Example.host
        ([Data.unoMarch] ++ Undated.joe :: [Undated.joe2025]).
Proof.
  destruct (@merge_replaces_only_by_later Example.host
              [Data.unoMarch] [Undated.joe2025] Undated.joe)
    as [_ Hundated].
  - intros r Hr. apply list_elem_of_singleton in Hr. subst r.
    vm_compute. discriminate.
  - apply Hundated. reflexivity.
Defined.

Lemma undated_record_stays :
  @keepMostRecentInspections Example.host
    [Data.unoMarch; Undated.joe; Undated.joe2025]
  = [Data.unoMarch; setFacilityType Undated.joe (Some (js "Restaurant"))].
Proof. vm_compute. reflexivity. Qed.

(** X16: the merge invents nothing: every record of the output is a
    record of the input, with its own facility type or, when it had none,
    with the facility type of an input record of the same establishment. *)
Theorem merge_output_from_input `{Host} (data : list InspectionRecord)
    (x : InspectionRecord) :
  x ∈ keepMostRecentInspections data ->
  exists r,
    r ∈ data /\ crossKey r = crossKey x /\
    x = setFacilityType r (facilityType x) /\
    (facilityType x = facilityType r
     \/ (truthy (facilityType r) = false /\
         exists r', r' ∈ data /\ crossKey r' = crossKey x /\
           truthy (facilityType r') = true /\
           facilityType x = facilityType r')).
Proof.
  rewrite keepMostRecentInspections_grouped. intros Hx.
  destruct (merged_from_keptRecord data x Hx) as (first & rest & Hg & Hfold).
  assert (Hmem : forall r, r ∈ first :: rest ->
            r ∈ data /\ crossKey r = crossKey x).
  { intros r Hr. rewrite <- Hg in Hr. apply list_elem_of_filter in Hr.
    tauto. }
  destruct (fold_absorb_origin rest first first) with (todo := rest)
    as (r & Hr & Heq & Hft).
  - exists first. split; [left|].
    split; [symmetry; apply setFacilityType_same|left; reflexivity].
  - intros r Hr. right. exact Hr.
  - rewrite <- Hfold in Heq, Hft. destruct (Hmem r Hr) as [Hd Hk].
    exists r. split; [exact Hd|]. split; [exact Hk|]. split; [exact Heq|].
    destruct Hft as [Hft|(Hf & r' & Hr' & Ht & Hft)]; [left; exact Hft|].
    right. split; [exact Hf|]. destruct (Hmem r' Hr') as [Hd' Hk'].
    exists r'. auto.
Qed.

Lemma merge_output_from_input_witness :
  exists r,
    r ∈ [Data.joeJanuary; Data.unoMarch; Data.joeOlder] /\
    @crossKey Example.host r
    = @crossKey Example.host
        (setFacilityType Data.joeJanuary (Some (js "Restaurant"))) /\
    setFacilityType Data.joeJanuary (Some (js "Restaurant"))
    = setFacilityType r (Some (js "Restaurant")).
Proof.
  destruct (@merge_output_from_input Example.host
              [Data.joeJanuary; Data.unoMarch; Data.joeOlder]
              (setFacilityType Data.joeJanuary (Some (js "Restaurant"))))
    as (r & Hr & Hk & Heq & _).
  - vm_compute. apply list_elem_of_here.
  - exists r. split; [exact Hr|]. split; [exact Hk|exact Heq].
Defined.

(** ** Records that carry a facility type *)

Lemma category_names_not_empty :
  Forall (fun c => truthy (Some c) = true) (List.map fst FACILITY_CATEGORIES).
Proof. repeat constructor. Qed.

Lemma scrapeRow_facilityType `{Host} row record :
  scrapeRow row = Some record -> truthy (facilityType record) = true.
Proof.
  intros Hrow.
  assert (Hft : exists name addr,
            facilityType record = Some (categorizeFacility name addr)).
  { destruct row as [|cells]; simpl in Hrow; [discriminate|].
    destruct (cellCount cells <? 6)%nat; [discriminate|].
    destruct (includes (toLowerCase (inspectionTypeText cells))
                (js "routine")); simpl in Hrow; [|discriminate].
    inversion Hrow; subst record. simpl. eauto. }
  destruct Hft as (name & addr & ->).
  pose proof category_names_not_empty as Hall. rewrite Forall_forall in Hall.
  apply Hall, categorizeFacility_names.
Qed.

Lemma mergeStep_typed `{Host} (h : store) m l :
  Forall (fun r => truthy (facilityType r) = true) h ->
  fst (mergeStep (h, m) l) = h.
Proof.
  intros Hall. unfold mergeStep.
  destruct (h !! l) as [record|]; [|reflexivity].
  destruct (mapGet (crossKey record) m) as [e|]; [|reflexivity].
  destruct (h !! e) as [existing|] eqn:He; [|reflexivity].
  rewrite Forall_forall in Hall.
  rewrite (Hall existing (list_elem_of_lookup_2 _ _ _ He)).
  rewrite andb_false_r. reflexivity.
Qed.

Lemma mergeFold_typed `{Host} (h : store) refs : forall m,
  Forall (fun r => truthy (facilityType r) = true) h ->
  fst (fold_left mergeStep refs (h, m)) = h.
Proof.
  induction refs as [|l refs IH]; intros m Hall; [reflexivity|].
  change (fold_left mergeStep (l :: refs) (h, m))
    with (fold_left mergeStep refs (mergeStep (h, m) l)).
  pose proof (mergeStep_typed h m l Hall) as Hstep.
  destruct (mergeStep (h, m) l) as [h' m']. simpl in Hstep. subst h'.
  apply IH, Hall.
Qed.

(** X17: every record the row reader produces carries a facility type;
    and when every object of the store carries one, the merge writes to no
    object, and each record of its output is a record of the input, field
    for field.  Only records of older files, without the field, are ever
    changed. *)
Theorem merge_of_typed_records `{Host} :
  (forall row record,
     scrapeRow row = Some record -> truthy (facilityType record) = true) /\
  (forall (h : store) (refs : list loc),
     Forall (fun r => truthy (facilityType r) = true) h ->
     fst (mergeLoop h refs) = h) /\
  (forall data x,
     Forall (fun r => truthy (facilityType r) = true) data ->
     x ∈ keepMostRecentInspections data -> x ∈ data).
Proof.
  split; [apply @scrapeRow_facilityType|]. split.
  - intros h refs Hall. unfold mergeLoop.
    pose proof (mergeFold_typed h refs [] Hall) as Hfold.
    destruct (fold_left mergeStep refs (h, [])). exact Hfold.
  - intros data x Hall Hx. rewrite keepMostRecentInspections_grouped in Hx.
    destruct (merged_from_keptRecord data x Hx) as (first & rest & Hg & Hfold).
    assert (Hmem : forall r, r ∈ first :: rest -> r ∈ data).
    { intros r Hr. rewrite <- Hg in Hr. apply list_elem_of_filter in Hr.
      tauto. }
    destruct (fold_absorb_origin rest first first) with (todo := rest)
      as (r & Hr & Heq & Hft).
    + exists first. split; [left|].
      split; [symmetry; apply setFacilityType_same|left; reflexivity].
    + intros r Hr. right. exact Hr.
    + rewrite <- Hfold in Heq, Hft. specialize (Hmem r Hr).
      rewrite Forall_forall in Hall.
      destruct Hft as [Hft|[Hf _]].
      * rewrite Heq, Hft, setFacilityType_same. exact Hmem.
      * rewrite (Hall r Hmem) in Hf. discriminate Hf.
Qed.

Lemma merge_of_typed_records_witness :
  fst (@mergeLoop Example.host
         [Undated.joe2025; Data.unoMarch; Undated.joe2025] [0; 1; 2]%nat)
  = [Undated.joe2025; Data.unoMarch; Undated.joe2025].
Proof.
  destruct (@merge_of_typed_records Example.host) as (_ & Hstore & _).
  apply Hstore. repeat constructor.
Defined.

(** ** The output file across runs *)

(** X18: a run that scraped nothing leaves the file as it is.  A run with
    no file to merge with writes its records as scraped, several
    inspections of an establishment included; a run that finds a file
    writes one record per establishment, those of the file first and in
    the file's order, and none of the file's establishments is lost.  So
    from the second run on the file holds one record per establishment. *)
Theorem file_across_runs `{Host} (allData : list InspectionRecord) :
  (forall file, allData = [] -> fileAfter allData file = file) /\
  (allData <> [] -> fileAfter allData None = Some allData) /\
  (forall old,
     allData <> [] ->
     exists written,
       fileAfter allData (Some old) = Some written /\
       List.map crossKey written
       = firstOccurrences (List.map crossKey old ++ List.map crossKey allData)
       /\ NoDup (List.map crossKey written) /\
       (forall r, r ∈ old -> crossKey r ∈ List.map crossKey written)) /\
  (forall first,
     allData <> [] -> first <> [] ->
     exists written,
       fileAfter allData (fileAfter first None) = Some written /\
       NoDup (List.map crossKey written)).
Proof.
  assert (Hwrite : forall file, allData <> [] ->
            fileAfter allData file
            = Some (mergeWithExistingData allData file)).
  { intros file Hne. unfold fileAfter, main.
    destruct allData; [contradiction|]. reflexivity. }
  assert (Hmerged : forall old,
            List.map crossKey (keepMostRecentInspections (old ++ allData))
            = firstOccurrences
                (List.map crossKey old ++ List.map crossKey allData)).
  { intros old. rewrite keepMostRecentInspections_grouped, mergedByKey_keys,
      map_app. reflexivity. }
  split; [|split; [|split]].
  - intros file ->. reflexivity.
  - intros Hne. rewrite (Hwrite None Hne). reflexivity.
  - intros old Hne. rewrite (Hwrite (Some old) Hne). simpl.
    eexists. split; [reflexivity|]. rewrite Hmerged.
    split; [reflexivity|]. split; [apply NoDup_firstOccurrences|].
    intros r Hr. apply elem_of_firstOccurrences, elem_of_app. left.
    apply list_elem_of_fmap_2, Hr.
  - intros first Hne Hfirst.
    assert (Hf : fileAfter first None = Some first).
    { unfold fileAfter, main. destruct first; [contradiction|]. reflexivity. }
    rewrite Hf, (Hwrite (Some first) Hne). simpl.
    eexists. split; [reflexivity|]. rewrite Hmerged.
    apply NoDup_firstOccurrences.
Qed.

(** A first run that met Joe's Diner twice writes it twice; the next run
    writes it once. *)
Lemma file_across_runs_witness :
  @fileAfter Example.host [Data.joeJanuary; Data.joeJune] None
  = Some [Data.joeJanuary; Data.joeJune] /\
  exists written,
    @fileAfter Example.host [Data.unoMarch]
      (@fileAfter Example.host [Data.joeJanuary; Data.joeJune] None)
    = Some written /\
    NoDup (List.map (@crossKey Example.host) written).
Proof.
  destruct (@file_across_runs Example.host [Data.joeJanuary; Data.joeJune])
    as (_ & Hfirst & _).
  destruct (@file_across_runs Example.host [Data.unoMarch])
    as (_ & _ & _ & Hsecond).
  split; [apply Hfirst; discriminate|].
  apply Hsecond; discriminate.
Defined.

Lemma second_run_file :
  @fileAfter Example.host [Data.unoMarch]
    (@fileAfter Example.host [Data.joeJanuary; Data.joeJune] None)
  = Some [Data.joeJune; Data.unoMarch].
Proof. vm_compute. reflexivity. Qed.

(** ** What a row yields *)

Lemma scrapeRow_fields `{Host} row record :
  scrapeRow row = Some record ->
  exists cells,
    row = RowRead cells /\
    violations record
    = (if (0 <? length (trim (violationsText cells)))%nat
       then match reveal cells with
            | ModalShown headerDate rows =>
                fst (scrapeViolationsModal headerDate rows)
            | ClickFailed | ModalMissing => []
            end
       else []) /\
    totalViolations record = Z.of_nat (length (violations record)) /\
    riskScore record
    = calculateRiskScore (violations record) (closureFlag record)
        (reinspectionFlag record) /\
    riskLevel record = getRiskLevel (riskScore record) /\
    color record = getColor (riskScore record).
Proof.
  destruct row as [|cells]; simpl; [discriminate|].
  destruct (cellCount cells <? 6)%nat; [discriminate|].
  destruct (includes (toLowerCase (inspectionTypeText cells)) (js "routine"));
    simpl; [|discriminate].
  intros Heq. inversion Heq; subst record; clear Heq.
  exists cells. repeat split.
Qed.

(** X19: a row yields a record exactly when it is read, has six cells or
    more and a routine type: a click or a modal that fails does not drop
    the row.  The record then has no violation, and unless its type names
    a closure, a follow-up or a reinspection, it scores 0, EXCELLENT and
    green, as an establishment without violations does. *)
Theorem failed_reveal_scores_clean `{Host} (cells : RowCells) :
  (6 <= cellCount cells)%nat ->
  includes (toLowerCase (inspectionTypeText cells)) (js "routine") = true ->
  (exists record,
     scrapeRow (RowRead cells) = Some record /\
     (reveal cells = ClickFailed \/ reveal cells = ModalMissing ->
      violations record = [] /\ totalViolations record = 0 /\
      (closureFlag record = false -> reinspectionFlag record = false ->
       riskScore record = 0 /\ riskLevel record = EXCELLENT /\
       color record = green))) /\
  forall row,
    scrapeRow row = None <->
    match row with
    | RowThrows => True
    | RowRead c =>
        (cellCount c < 6)%nat
        \/ includes (toLowerCase (inspectionTypeText c)) (js "routine")
           = false
    end.
Proof.
  intros Hcells Hroutine.
  assert (Hnone : forall row,
            scrapeRow row = None <->
            match row with
            | RowThrows => True
            | RowRead c =>
                (cellCount c < 6)%nat
                \/ includes (toLowerCase (inspectionTypeText c))
                     (js "routine") = false
            end).
  { intros row. destruct row as [|c]; simpl; [tauto|].
    destruct (Nat.ltb_spec (cellCount c) 6) as [Hlt|Hge].
    - split; [intros _; left; exact Hlt|reflexivity].
    - destruct (includes (toLowerCase (inspectionTypeText c)) (js "routine"));
        simpl.
      + split; [discriminate|]. intros [Hlt|Hf]; [lia|discriminate Hf].
      + split; [intros _; right; reflexivity|reflexivity]. }
  split; [|exact Hnone].
  destruct (scrapeRow (RowRead cells)) as [record|] eqn:Hrow.
  - exists record. split; [reflexivity|]. intros Hreveal.
    destruct (scrapeRow_fields _ _ Hrow)
      as (c & Hc & Hvs & Htotal & Hscore & Hlevel & Hcolor).
    inversion Hc; subst c.
    assert (Hnil : violations record = []).
    { rewrite Hvs.
      destruct (0 <? length (trim (violationsText cells)))%nat;
        [|reflexivity].
      destruct Hreveal as [-> | ->]; reflexivity. }
    split; [exact Hnil|]. rewrite Htotal, Hnil. split; [reflexivity|].
    intros Hcl Hre. rewrite Hlevel, Hcolor, Hscore, Hnil, Hcl, Hre.
    repeat split.
  - exfalso. apply Hnone in Hrow. destruct Hrow as [Hlt|Hf]; [lia|].
    rewrite Hroutine in Hf. discriminate Hf.
Qed.

(** The link says "3 violations", the click fails: a record all the same,
    scored as clean. *)
Lemma failed_reveal_scores_clean_witness :
  exists record,
    @scrapeRow Example.host (RowRead Cited.failed) = Some record /\
    violations record = [] /\ riskLevel record = EXCELLENT.
Proof.
  destruct (@failed_reveal_scores_clean Example.host Cited.failed)
    as [(record & Hrow & Hclean) _].
  - simpl. lia.
  - vm_compute. reflexivity.
  - exists record. split; [exact Hrow|].
    destruct Hclean as (Hvs & _ & Hscore); [left; reflexivity|].
    split; [exact Hvs|].
    vm_compute in Hrow. inversion Hrow; subst record.
    apply Hscore; reflexivity.
Defined.
